(** * go-buffer: an asynchronously flushed buffer

    A shallow embedding of [buffer.go], [options.go] and [flusher.go].

    The buffer is a record of four channels and six options.  A single
    goroutine, [consume], owns the pending batch; the public operations
    [Push], [Flush] and [Close] hand requests to it over unbuffered
    channels, each guarded by a [time.After] timer.

    Goroutines and channels are modelled by explicit state passing: the
    state of the whole system is the buffer, the worker goroutine (its
    local variables and the point of [consume] at which it is parked), the
    tickers created so far, the backing arrays allocated so far and the
    calls the flusher has received.  One iteration of the worker loop is
    split at the call of [Flusher.Write], so that a flusher which has been
    called and has not returned yet is a state of the model.

    Time is not measured; what is known of it is this.  The scheduler
    takes some time, at most [latency], to let a goroutine that can run
    reach its next blocking point: a goroutine that has just been started
    or that has just been handed a request is not at its [select] at
    once.  A [time.After] timer that is longer than [latency] cannot
    expire before a channel operation that only waits for the scheduler;
    a timer that is not longer, a timer of zero in particular, can, and
    whether it does is a parameter of the call.  The same parameter says
    whether a flusher that is running returns before the timer of a
    waiting caller expires.  Each call reports which timers it armed and
    how each [select] was left.

    A panic of the goroutine ([make] of a slice that is too long, an
    index out of range, a nil flusher, a channel closed twice) is not
    recovered and ends the program: the call that waits for the goroutine
    does not return. *)

From Stdlib Require Import ZArith Lia Bool Ascii String.
From stdpp Require Import base list strings.

Local Open Scope Z_scope.

(** ** Errors *)

(** Go error values.  [ErrTimeout] and [ErrClosed] are the package's two
    sentinel values; [errorString] is a value made by [errors.New] or
    [fmt.Errorf]; [joinError] is [errors.Join] of two non-nil errors. *)
Inductive error : Type :=
  | ErrTimeout
  | ErrClosed
  | errorString (msg : string)
  | joinError (e1 e2 : error).

#[global] Instance error_eq_dec : EqDecision error.
Proof. solve_decision. Defined.

(** [errors.Is]: the error is the target, or one of the joined errors is. *)
Fixpoint errors_Is (err target : error) : bool :=
  bool_decide (err = target) ||
  match err with
  | joinError e1 e2 => errors_Is e1 target || errors_Is e2 target
  | _ => false
  end.

(** [fmt.Errorf] for a format with one [%s] verb and a string argument. *)
Fixpoint Sprintf (format arg : string) : string :=
  match format with
  | EmptyString => EmptyString
  | String c rest =>
      match rest with
      | String d rest' =>
          if bool_decide (c = "%"%char) && bool_decide (d = "s"%char)
          then String.append arg rest'
          else String c (Sprintf rest arg)
      | EmptyString => String c EmptyString
      end
  end.

Definition fmt_Errorf (format arg : string) : error :=
  errorString (Sprintf format arg).

Definition invalidSize : string := "size cannot be zero"%string.
Definition invalidFlusher : string := "flusher cannot be nil"%string.
Definition invalidInterval : string :=
  "interval must be greater than zero (%s)"%string.
Definition invalidTimeout : string := "timeout cannot be negative (%s)"%string.

(** ** The buffer record and its options *)

(** An unbuffered channel is nil, open or closed.  Which items travel over
    it is not part of its state: a send and a receive meet in one step. *)
Inductive chan : Type := nilChan | openChan | closedChan.

#[global] Instance chan_eq_dec : EqDecision chan.
Proof. solve_decision. Defined.

(** The value of the [Flusher] interface field is nil or an implementation
    whose [Write] is opaque to the buffer: it is called, and it returns
    or it does not; a [Write] that panics is not modelled. *)
Inductive flusher : Type := sink.

#[global] Instance flusher_eq_dec : EqDecision flusher.
Proof. solve_decision. Defined.

(** [time.Duration] is a signed 64-bit count of nanoseconds, [Size] is a
    [uint].  Neither is computed with, so no wrap-around arises. *)
Record Buffer : Type := mkBuffer {
  dataCh : chan;
  flushCh : chan;
  closeCh : chan;
  doneCh : chan;
  Size : N;
  Flusher : option flusher;
  FlushInterval : Z;
  PushTimeout : Z;
  FlushTimeout : Z;
  CloseTimeout : Z
}.

Definition Second : Z := 1000000000.

(** The option setters, defunctionalised: an [Option] is one of the six
    closures [options.go] can build. *)
Inductive Option : Type :=
  | WithSize (size : N)
  | WithFlusher (f : option flusher)
  | WithFlushInterval (interval : Z)
  | WithPushTimeout (timeout : Z)
  | WithFlushTimeout (timeout : Z)
  | WithCloseTimeout (timeout : Z).

Definition applyOption (opt : Option) (b : Buffer) : Buffer :=
  match opt with
  | WithSize size =>
      mkBuffer (dataCh b) (flushCh b) (closeCh b) (doneCh b)
        size (Flusher b) (FlushInterval b) (PushTimeout b) (FlushTimeout b) (CloseTimeout b)
  | WithFlusher f =>
      mkBuffer (dataCh b) (flushCh b) (closeCh b) (doneCh b)
        (Size b) f (FlushInterval b) (PushTimeout b) (FlushTimeout b) (CloseTimeout b)
  | WithFlushInterval interval =>
      mkBuffer (dataCh b) (flushCh b) (closeCh b) (doneCh b)
        (Size b) (Flusher b) interval (PushTimeout b) (FlushTimeout b) (CloseTimeout b)
  | WithPushTimeout timeout =>
      mkBuffer (dataCh b) (flushCh b) (closeCh b) (doneCh b)
        (Size b) (Flusher b) (FlushInterval b) timeout (FlushTimeout b) (CloseTimeout b)
  | WithFlushTimeout timeout =>
      mkBuffer (dataCh b) (flushCh b) (closeCh b) (doneCh b)
        (Size b) (Flusher b) (FlushInterval b) (PushTimeout b) timeout (CloseTimeout b)
  | WithCloseTimeout timeout =>
      mkBuffer (dataCh b) (flushCh b) (closeCh b) (doneCh b)
        (Size b) (Flusher b) (FlushInterval b) (PushTimeout b) (FlushTimeout b) timeout
  end.

(** [New]: the zero channels, the default options, then every option in
    turn. *)
Definition New (opts : list Option) : Buffer :=
  fold_left (fun b opt => applyOption opt b) opts
    (mkBuffer nilChan nilChan nilChan nilChan 0%N None 0 Second Second Second).

(** [validateBuffer]: six tests in sequence, each returning at once. *)
Definition validateBuffer (options : Buffer) : option error :=
  if (Size options =? 0)%N then Some (errorString invalidSize)
  else if bool_decide (Flusher options = None) then Some (errorString invalidFlusher)
  else if FlushInterval options <? 0 then Some (fmt_Errorf invalidInterval "FlushInterval"%string)
  else if PushTimeout options <? 0 then Some (fmt_Errorf invalidTimeout "PushTimeout"%string)
  else if FlushTimeout options <? 0 then Some (fmt_Errorf invalidTimeout "FlushTimeout"%string)
  else if CloseTimeout options <? 0 then Some (fmt_Errorf invalidTimeout "CloseTimeout"%string)
  else None.

Definition Validate (b : Buffer) : option error := validateBuffer b.

Definition IsIntialized (b : Buffer) : bool :=
  negb (bool_decide (dataCh b = nilChan)).

(** [closed]: a receive with a default case.  Only a closed channel can be
    received from without a sender. *)
Definition closed (b : Buffer) : bool :=
  bool_decide (doneCh b = closedChan).

(** The rules of validation as section 4.1 of the specification words
    them: each rule is checked on its own, whatever the other rules find.
    [violations] lists the error of every rule that fails, in the order
    of the rules.  It is what [validateBuffer] is compared with. *)
Definition check_size (b : Buffer) : option error :=
  if (Size b =? 0)%N then Some (errorString invalidSize) else None.

Definition check_flusher (b : Buffer) : option error :=
  if bool_decide (Flusher b = None) then Some (errorString invalidFlusher) else None.

Definition check_interval (b : Buffer) : option error :=
  if FlushInterval b <? 0
  then Some (fmt_Errorf invalidInterval "FlushInterval"%string) else None.

Definition check_push_timeout (b : Buffer) : option error :=
  if PushTimeout b <? 0
  then Some (fmt_Errorf invalidTimeout "PushTimeout"%string) else None.

Definition check_flush_timeout (b : Buffer) : option error :=
  if FlushTimeout b <? 0
  then Some (fmt_Errorf invalidTimeout "FlushTimeout"%string) else None.

Definition check_close_timeout (b : Buffer) : option error :=
  if CloseTimeout b <? 0
  then Some (fmt_Errorf invalidTimeout "CloseTimeout"%string) else None.

Definition violations (b : Buffer) : list error :=
  omap (fun rule => rule b)
    [check_size; check_flusher; check_interval;
     check_push_timeout; check_flush_timeout; check_close_timeout].

(** Validation that checks every rule independently reports every rule
    that fails: each violation is found in the error returned. *)
Definition reports_every_violation : Prop :=
  forall (b : Buffer) (e : error),
    e ∈ violations b ->
    exists r, validateBuffer b = Some r /\ errors_Is r e = true.

(** The four rules of the configuration, as propositions. *)
Definition valid (b : Buffer) : Prop :=
  Size b <> 0%N /\ Flusher b <> None /\ 0 <= FlushInterval b /\
  0 <= PushTimeout b /\ 0 <= FlushTimeout b /\ 0 <= CloseTimeout b.

(** Buffers like those of the test suite: [Size] 1, 2 or 5 and a flusher,
    with the default interval, which is zero; [Size] 2, a flusher and an
    interval of five nanoseconds; [Size] 2, a flusher and a push, flush or
    close timeout of zero. *)
Definition capacity1 : Buffer := New [WithSize 1; WithFlusher (Some sink)].

Definition capacity2 : Buffer := New [WithSize 2; WithFlusher (Some sink)].

Definition capacity5 : Buffer := New [WithSize 5; WithFlusher (Some sink)].

Definition capacity2_every5 : Buffer :=
  New [WithSize 2; WithFlusher (Some sink); WithFlushInterval 5].

Definition capacity2_push0 : Buffer :=
  New [WithSize 2; WithFlusher (Some sink); WithPushTimeout 0].

Definition capacity2_flush0 : Buffer :=
  New [WithSize 2; WithFlusher (Some sink); WithFlushTimeout 0].

Definition capacity2_close0 : Buffer :=
  New [WithSize 2; WithFlusher (Some sink); WithCloseTimeout 0].

(** For the examples, with items that are integers: a limit on the length
    of a slice of integers, and a delay of the scheduler that is shorter
    than the default timeouts, of one second. *)
Definition maxInts : N := 2 ^ 45.

Definition microsecond : N := 1000.

(** ** The worker goroutine *)

(** A ticker made by [time.NewTicker]: its period, and whether [Stop] has
    been called on it.  Tickers are named by their index in the list of
    all tickers created so far. *)
Record Ticker : Type := mkTicker {
  period : Z;
  stopped : bool
}.

(** [newTicker]: no ticker at all for a zero interval (a nil channel and a
    stop function that does nothing); otherwise a fresh ticker, its channel
    and its [Stop].  [time.NewTicker] panics on a negative interval, which
    is the [None] result. *)
Definition newTicker (interval : Z) (ts : list Ticker)
  : option (option nat * option nat * list Ticker) :=
  if interval =? 0 then Some (None, None, ts)
  else if interval <? 0 then None
  else Some (Some (length ts), Some (length ts), ts ++ [mkTicker interval false]).

(** Calling a stop function: [None] is [func() {}], [Some i] is the [Stop]
    method of ticker [i]. *)
Definition stop (f : option nat) (ts : list Ticker) : list Ticker :=
  match f with
  | None => ts
  | Some i => alter (fun t => mkTicker (period t) true) i ts
  end.

(** Where the goroutine is parked: in the [select] of the loop, inside the
    call of [Flusher.Write], after [close(buffer.doneCh)], or dead by a
    run-time panic. *)
Inductive point : Type := AtSelect | InWrite | Exited | Panicked.

Section Consume.

(** The item type of [Buffer[T]] and its zero value, with which [make]
    fills a new slice.  [maxLen] is the largest length for which
    [make([]T, n)] does not panic; it depends on the size of [T] and on
    the platform and on the memory there is.  [latency] is the bound of
    the scheduler's delay, in nanoseconds like the timeouts, and not
    negative. *)
Context (T : Type) (zero : T) (maxLen : N) (latency : N).

(** The delay of the scheduler as a [time.Duration]. *)
Definition delay : Z := Z.of_N latency.

(** The local variables of [consume].  [items] is the contents of the
    slice and [backing] the identity of its backing array; [ticker] is the
    channel the loop selects on and [stopTicker] the stop function, both as
    returned by [newTicker]. *)
Record worker : Type := mkWorker {
  count : Z;
  items : list T;
  backing : nat;
  mustFlush : bool;
  ticker : option nat;
  stopTicker : option nat;
  isOpen : bool;
  at_point : point
}.

(** The buffer, its goroutine ([None] until [initialize] starts it), the
    tickers and backing arrays created so far, and the calls of
    [Flusher.Write] so far, oldest first: the backing array of the slice
    passed and the items in it. *)
Record system : Type := mkSystem {
  buffer : Buffer;
  goroutine : option worker;
  tickers : list Ticker;
  arrays : nat;
  written : list (nat * list T)
}.

Definition len (l : list T) : Z := Z.of_nat (length l).

(** [make([]T, size)]: a slice of [size] zero values, or a run-time panic
    ([makeslice: len out of range]) when [size] is more than [maxLen],
    which is the [None] result. *)
Definition make (size : N) : option (list T) :=
  if (size <=? maxLen)%N then Some (replicate (N.to_nat size) zero) else None.

(** What the loop can receive in its [select]: an item on [dataCh], a tick
    of the current ticker, a request on [flushCh], a request on
    [closeCh]. *)
Inductive event : Type :=
  | item (x : T)
  | tick
  | flushReq
  | closeReq.

Definition park (p : point) (w : worker) : worker :=
  mkWorker (count w) (items w) (backing w) (mustFlush w)
    (ticker w) (stopTicker w) (isOpen w) p.

(** The case of the [select] that fires.  [None]: the case cannot fire (a
    nil ticker channel never delivers).  An index out of range in
    [items[count] = item] is a run-time panic. *)
Definition receive (ev : event) (w : worker) : option worker :=
  match ev with
  | item x =>
      if (0 <=? count w) && (count w <? len (items w)) then
        Some (mkWorker (count w + 1) (<[Z.to_nat (count w) := x]> (items w))
                (backing w) (count w + 1 >=? len (items w))
                (ticker w) (stopTicker w) (isOpen w) (at_point w))
      else Some (park Panicked w)
  | tick =>
      match ticker w with
      | Some _ =>
          Some (mkWorker (count w) (items w) (backing w) (count w >? 0)
                  (ticker w) (stopTicker w) (isOpen w) (at_point w))
      | None => None
      end
  | flushReq =>
      Some (mkWorker (count w) (items w) (backing w) (count w >? 0)
              (ticker w) (stopTicker w) (isOpen w) (at_point w))
  | closeReq =>
      Some (mkWorker (count w) (items w) (backing w) (count w >? 0)
              (ticker w) (stopTicker w) false (at_point w))
  end.

Definition close_done (b : Buffer) : Buffer :=
  mkBuffer (dataCh b) (flushCh b) (closeCh b) closedChan
    (Size b) (Flusher b) (FlushInterval b) (PushTimeout b) (FlushTimeout b) (CloseTimeout b).

(** The end of an iteration: back to the [select] while [isOpen]; otherwise
    the two statements after the loop, [stopTicker()] and
    [close(buffer.doneCh)].  Closing a channel that is not open panics. *)
Definition loop_end (w : worker) (s : system) : system :=
  if isOpen w then
    mkSystem (buffer s) (Some (park AtSelect w)) (tickers s) (arrays s) (written s)
  else
    match doneCh (buffer s) with
    | openChan =>
        mkSystem (close_done (buffer s)) (Some (park Exited w))
          (stop (stopTicker w) (tickers s)) (arrays s) (written s)
    | _ =>
        mkSystem (buffer s) (Some (park Panicked w))
          (stop (stopTicker w) (tickers s)) (arrays s) (written s)
    end.

(** One iteration of the loop up to its next blocking point: the [select]
    receives [ev]; if [mustFlush], the ticker is stopped and
    [Flusher.Write(items[:count])] is called, and the goroutine is inside
    that call; otherwise the iteration ends.  [None]: the goroutine is not
    at the [select], or the event cannot be received. *)
Definition iterate (ev : event) (s : system) : option system :=
  match goroutine s with
  | Some w =>
      match at_point w with
      | AtSelect =>
          match receive ev w with
          | Some w1 =>
              match at_point w1 with
              | Panicked =>
                  Some (mkSystem (buffer s) (Some w1) (tickers s) (arrays s) (written s))
              | _ =>
                  if mustFlush w1 then
                    match Flusher (buffer s) with
                    | Some _ =>
                        Some (mkSystem (buffer s) (Some (park InWrite w1))
                                (stop (stopTicker w1) (tickers s)) (arrays s)
                                (written s ++
                                   [(backing w1, take (Z.to_nat (count w1)) (items w1))]))
                    | None =>
                        Some (mkSystem (buffer s) (Some (park Panicked w1))
                                (stop (stopTicker w1) (tickers s)) (arrays s) (written s))
                    end
                  else Some (loop_end w1 s)
              end
          | None => None
          end
      | _ => None
      end
  | None => None
  end.

(** [Flusher.Write] returns: the rest of the flush ([count = 0], a new
    slice, [mustFlush = false], a new ticker) and the end of the
    iteration.  [None]: the goroutine is not inside [Write]. *)
Definition Write_returns (s : system) : option system :=
  match goroutine s with
  | Some w =>
      match at_point w with
      | InWrite =>
          match make (Size (buffer s)) with
          | Some its =>
              match newTicker (FlushInterval (buffer s)) (tickers s) with
              | Some (tk, st, ts) =>
                  Some (loop_end
                          (mkWorker 0 its (arrays s) false tk st (isOpen w) (at_point w))
                          (mkSystem (buffer s) (goroutine s) ts (S (arrays s)) (written s)))
              | None =>
                  Some (mkSystem (buffer s)
                          (Some (mkWorker 0 its (arrays s) false
                                   (ticker w) (stopTicker w) (isOpen w) Panicked))
                          (tickers s) (S (arrays s)) (written s))
              end
          | None =>
              Some (mkSystem (buffer s)
                      (Some (mkWorker 0 (items w) (backing w) (mustFlush w)
                               (ticker w) (stopTicker w) (isOpen w) Panicked))
                      (tickers s) (arrays s) (written s))
          end
      | _ => None
      end
  | None => None
  end.

(** The start of [consume], from its first statement to the first
    [select].  The goroutine dies there if [make] panics: [items] is then
    still the nil slice. *)
Definition consume (s : system) : system :=
  match make (Size (buffer s)) with
  | Some its =>
      match newTicker (FlushInterval (buffer s)) (tickers s) with
      | Some (tk, st, ts) =>
          mkSystem (buffer s)
            (Some (mkWorker 0 its (arrays s) false tk st true AtSelect))
            ts (S (arrays s)) (written s)
      | None =>
          mkSystem (buffer s)
            (Some (mkWorker 0 its (arrays s) false None None true Panicked))
            (tickers s) (S (arrays s)) (written s)
      end
  | None =>
      mkSystem (buffer s)
        (Some (mkWorker 0 [] (arrays s) false None None true Panicked))
        (tickers s) (arrays s) (written s)
  end.

(** The steps of the goroutine: an event received, or the flusher
    returning. *)
Inductive action : Type :=
  | Recv (ev : event)
  | Returns.

Definition act (a : action) (s : system) : option system :=
  match a with
  | Recv ev => iterate ev s
  | Returns => Write_returns s
  end.

Fixpoint exec (acts : list action) (s : system) : option system :=
  match acts with
  | [] => Some s
  | a :: rest =>
      match act a s with
      | Some s' => exec rest s'
      | None => None
      end
  end.

(** The items among the events received, in order. *)
Fixpoint received (acts : list action) : list T :=
  match acts with
  | [] => []
  | Recv (item x) :: rest => x :: received rest
  | _ :: rest => received rest
  end.

(** The items appended since the last flush.  While [Write] is running
    they are the batch it was given. *)
Definition pending (s : system) : list T :=
  match goroutine s with
  | Some w =>
      match at_point w with
      | InWrite => []
      | _ => take (Z.to_nat (count w)) (items w)
      end
  | None => []
  end.

(** All the items handed to the flusher so far, in order. *)
Definition flushed (s : system) : list T :=
  concat (map snd (written s)).

(** ** The public operations *)

(** How a [select] between a channel operation and [time.After(d)] was
    left: by the channel operation, or by the timer after [d]. *)
Inductive wait : Type :=
  | Handed (d : Z)
  | Expired (d : Z).

(** A call returns an error value ([None] is nil), or it does not return:
    it panics, or the program dies of a panic of the goroutine while the
    call waits. *)
Inductive outcome : Type :=
  | Return (err : option error)
  | Panics.

Definition open_channels (b : Buffer) : Buffer :=
  mkBuffer openChan openChan openChan openChan
    (Size b) (Flusher b) (FlushInterval b) (PushTimeout b) (FlushTimeout b) (CloseTimeout b).

(** [initialize]: validate, make the four channels, start [consume].  The
    goroutine started by [go buffer.consume()] needs the scheduler to reach
    its first [select], or to die in [make]: the state returned is the one
    in which it has, and the [select] of the caller that follows races its
    timer against that delay, as [offer] has it. *)
Definition initialize (s : system) : system * option error :=
  match validateBuffer (buffer s) with
  | Some err => (s, Some err)
  | None =>
      (consume (mkSystem (open_channels (buffer s)) (goroutine s)
                  (tickers s) (arrays s) (written s)),
       None)
  end.

Definition writing (s : system) : bool :=
  match goroutine s with
  | Some w => match at_point w with InWrite => true | _ => false end
  | None => false
  end.

(** The goroutine has panicked: the program is dead. *)
Definition crashed (s : system) : bool :=
  match goroutine s with
  | Some w => match at_point w with Panicked => true | _ => false end
  | None => false
  end.

(** While a caller waits in a [select], a flusher that is running may
    return before the caller's timer expires, or not.  [inTime] says
    which. *)
Definition await (inTime : bool) (s : system) : system :=
  if writing s && inTime then
    match Write_returns s with
    | Some s' => s'
    | None => s
    end
  else s.

(** A timer of duration [d] beside a channel operation that can proceed
    as soon as the scheduler lets the goroutine run: a timer longer than
    the [delay] of the scheduler cannot expire first; a shorter one, a
    timer of zero in particular, expires first unless the race goes the
    way of the channel, which [inTime] says. *)
Definition expires_first (inTime : bool) (d : Z) : bool :=
  negb inTime && (d <=? delay).

(** A send on channel [c] raced against [time.After(d)]: the request [ev]
    is handed over when the goroutine gets to its [select] and receives
    it before the timer expires.  A nil channel never accepts; a send on a
    closed channel panics, and so does the program when the goroutine has
    panicked or panics on the request: these are the [None] result. *)
Definition offer (inTime : bool) (d : Z) (c : chan) (ev : event) (s : system)
  : system * option bool :=
  match c with
  | nilChan => (s, Some false)
  | closedChan => (s, None)
  | openChan =>
      let s1 := await inTime s in
      if crashed s1 then (s1, None)
      else if expires_first inTime d then (s1, Some false)
      else
        match iterate ev s1 with
        | Some s2 => if crashed s2 then (s2, None) else (s2, Some true)
        | None => (s1, Some false)
        end
  end.

Definition timed_out (msg : string) : outcome :=
  Return (Some (joinError (errorString msg) ErrTimeout)).

Definition Push (inTime : bool) (x : T) (s : system)
  : system * outcome * list wait :=
  let '(s1, err) :=
    if IsIntialized (buffer s) then (s, None)
    else
      match Validate (buffer s) with
      | Some err => (s, Some err)
      | None => initialize s
      end in
  match err with
  | Some e => (s1, Return (Some e), [])
  | None =>
      if closed (buffer s1) then (s1, Return (Some ErrClosed), [])
      else
        match offer inTime (PushTimeout (buffer s1)) (dataCh (buffer s1)) (item x) s1 with
        | (s2, Some true) => (s2, Return None, [Handed (PushTimeout (buffer s1))])
        | (s2, Some false) =>
            (s2, timed_out "buffer is full"%string, [Expired (PushTimeout (buffer s1))])
        | (s2, None) => (s2, Panics, [])
        end
  end.

Definition Flush (inTime : bool) (s : system) : system * outcome * list wait :=
  if closed (buffer s) then (s, Return (Some ErrClosed), [])
  else
    match offer inTime (FlushTimeout (buffer s)) (flushCh (buffer s)) flushReq s with
    | (s1, Some true) => (s1, Return None, [Handed (FlushTimeout (buffer s))])
    | (s1, Some false) =>
        (s1, timed_out "failed to flush buffer within flush timeout"%string,
         [Expired (FlushTimeout (buffer s))])
    | (s1, None) => (s1, Panics, [])
    end.

(** [close(c)] on a channel: a nil or closed channel panics. *)
Definition close_chan (c : chan) : option chan :=
  match c with
  | openChan => Some closedChan
  | _ => None
  end.

(** The three [close] calls of [Close], in order. *)
Definition release (b : Buffer) : option Buffer :=
  match close_chan (dataCh b), close_chan (flushCh b), close_chan (closeCh b) with
  | Some d, Some f, Some c =>
      Some (mkBuffer d f c (doneCh b)
              (Size b) (Flusher b) (FlushInterval b)
              (PushTimeout b) (FlushTimeout b) (CloseTimeout b))
  | _, _, _ => None
  end.

(** [Close]: the request is offered on [closeCh]; once it is accepted the
    caller waits for [doneCh], again against a timer: the receive proceeds
    when the goroutine has closed [doneCh] before that timer expires.
    [inTime1] and [inTime2] decide the first and the second wait. *)
Definition Close (inTime1 inTime2 : bool) (s : system)
  : system * outcome * list wait :=
  if closed (buffer s) then (s, Return (Some ErrClosed), [])
  else
    let d := CloseTimeout (buffer s) in
    match offer inTime1 d (closeCh (buffer s)) closeReq s with
    | (s1, Some true) =>
        let s2 := await inTime2 s1 in
        if crashed s2 then (s2, Panics, [Handed d])
        else if closed (buffer s2) && negb (expires_first inTime2 d) then
          match release (buffer s2) with
          | Some b =>
              (mkSystem b (goroutine s2) (tickers s2) (arrays s2) (written s2),
               Return None, [Handed d; Handed d])
          | None => (s2, Panics, [Handed d; Handed d])
          end
        else
          (s2, timed_out "failed to close buffer within close timeout"%string,
           [Handed d; Expired d])
    | (s1, Some false) =>
        (s1, timed_out "failed to close buffer within close timeout"%string, [Expired d])
    | (s1, None) => (s1, Panics, [])
    end.

(** A buffer that has just been created: no goroutine, no ticker, no
    array, no call of the flusher. *)
Definition fresh (b : Buffer) : system := mkSystem b None [] 0%nat [].

(** The system [initialize] makes of a new buffer, and that system after a
    run of the goroutine. *)
Definition started (b : Buffer) : system := (initialize (fresh b)).1.

Definition after (acts : list action) (b : Buffer) : system :=
  default (started b) (exec acts (started b)).

(** A system that [initialize] has started, with a [Size] for which
    [make] does not panic, and the goroutine has run. *)
Definition reachable (s : system) : Prop :=
  exists b s0 acts,
    initialize (fresh b) = (s0, None) /\ (Size b <= maxLen)%N /\
    exec acts s0 = Some s.

(** ** The invariant of the loop *)

(** What holds of the goroutine [w] of a started system [s] at each of its
    blocking points. *)
Record wf (s : system) (w : worker) : Prop := mkWf {
  wf_goroutine : goroutine s = Some w;
  wf_valid : valid (buffer s);
  wf_channels :
    dataCh (buffer s) = openChan /\ flushCh (buffer s) = openChan /\
    closeCh (buffer s) = openChan;
  wf_fits : (Size (buffer s) <= maxLen)%N;
  wf_len : length (items w) = N.to_nat (Size (buffer s));
  wf_point :
    match at_point w with
    | AtSelect =>
        0 <= count w < len (items w) /\ isOpen w = true /\
        mustFlush w = false /\ doneCh (buffer s) = openChan
    | InWrite =>
        0 < count w <= len (items w) /\ doneCh (buffer s) = openChan /\
        exists l,
          written s = l ++ [(backing w, take (Z.to_nat (count w)) (items w))]
    | Exited =>
        count w = 0 /\ isOpen w = false /\
        doneCh (buffer s) = closedChan
    | Panicked => False
    end;
  wf_backing : (backing w < arrays s)%nat;
  wf_written :
    Forall (fun c : nat * list T =>
              (c.1 < arrays s)%nat /\
              (at_point w <> InWrite -> c.1 <> backing w) /\
              (1 <= length c.2 <= N.to_nat (Size (buffer s)))%nat)
      (written s);
  wf_stop : stopTicker w = ticker w;
  wf_nil : ticker w = None <-> FlushInterval (buffer s) = 0;
  wf_ticker :
    forall i, ticker w = Some i ->
      exists t, tickers s !! i = Some t /\
                period t = FlushInterval (buffer s) /\
                (at_point w = AtSelect -> stopped t = false);
  wf_running :
    forall j t, tickers s !! j = Some t -> stopped t = false ->
      ticker w = Some j /\ at_point w = AtSelect
}.

(** The events that carry no item. *)
Definition request (ev : event) : bool :=
  match ev with
  | item _ => false
  | _ => true
  end.

Definition closing (ev : event) : bool :=
  match ev with
  | closeReq => true
  | _ => false
  end.

(** A tick can be received only from a ticker. *)
Definition receivable (ev : event) (w : worker) : bool :=
  match ev with
  | tick => match ticker w with Some _ => true | None => false end
  | _ => true
  end.

(** [Push] called for each item of a list in turn, with nothing else
    happening in between: the loop receives no tick, as when the buffer
    has no interval, and a flusher that is running returns, if it does,
    while a call waits for it.  The final state and the errors
    returned. *)
Fixpoint pushes (inTime : bool) (xs : list T) (s : system)
  : system * list outcome :=
  match xs with
  | [] => (s, [])
  | x :: rest =>
      let '(s1, r, _) := Push inTime x s in
      let '(s2, rs) := pushes inTime rest s1 in
      (s2, r :: rs)
  end.

(** The calls a client can make. *)
Inductive call : Type :=
  | CallPush (inTime : bool) (x : T)
  | CallFlush (inTime : bool)
  | CallClose (inTime1 inTime2 : bool).

Definition invoke (c : call) (s : system) : system * outcome * list wait :=
  match c with
  | CallPush inTime x => Push inTime x s
  | CallFlush inTime => Flush inTime s
  | CallClose inTime1 inTime2 => Close inTime1 inTime2 s
  end.

(** What happens, one thing after the other, when a single client uses
    the buffer: a call, and between two calls a tick of the current ticker
    received by the loop or the return of a running flusher. *)
Inductive happening : Type :=
  | Calls (c : call)
  | Ticks
  | Returned.

(** The calls among the happenings, in order. *)
Fixpoint calls (hs : list happening) : list call :=
  match hs with
  | [] => []
  | Calls c :: rest => c :: calls rest
  | _ :: rest => calls rest
  end.

(** A sequence of happenings: the final state, and what each call returned
    and waited for.  A tick that the loop cannot receive (no ticker, or the
    goroutine is not at its [select]) and the return of a flusher that is
    not running do not happen. *)
Fixpoint invoke_all (hs : list happening) (s : system)
  : system * list (outcome * list wait) :=
  match hs with
  | [] => (s, [])
  | Calls c :: rest =>
      let '(s1, r, ws) := invoke c s in
      let '(s2, rs) := invoke_all rest s1 in
      (s2, (r, ws) :: rs)
  | Ticks :: rest => invoke_all rest (default s (iterate tick s))
  | Returned :: rest => invoke_all rest (default s (Write_returns s))
  end.

(** A buffer on which [initialize] has not run: the four channels are nil. *)
Definition unmade (b : Buffer) : Prop :=
  dataCh b = nilChan /\ flushCh b = nilChan /\ closeCh b = nilChan /\
  doneCh b = nilChan.

(** What [Close] returns when one of its timers expires. *)
Definition closeTimedOut : outcome :=
  timed_out "failed to close buffer within close timeout".

(** Which field of the buffer an option sets. *)
Inductive field : Type :=
  | SizeField | FlusherField | FlushIntervalField
  | PushTimeoutField | FlushTimeoutField | CloseTimeoutField.

Definition sets (opt : Option) : field :=
  match opt with
  | WithSize _ => SizeField
  | WithFlusher _ => FlusherField
  | WithFlushInterval _ => FlushIntervalField
  | WithPushTimeout _ => PushTimeoutField
  | WithFlushTimeout _ => FlushTimeoutField
  | WithCloseTimeout _ => CloseTimeoutField
  end.

(** The tickers on which [Stop] has not been called. *)
Definition running (ts : list Ticker) : list Ticker :=
  filter (fun t => stopped t = false) ts.

(** The item a call has handed to the goroutine: the item of a [Push] that
    returned nil. *)
Definition accepted (c : call) (r : outcome) : list T :=
  match c, r with
  | CallPush _ x, Return None => [x]
  | _, _ => []
  end.

(** The items accepted in a sequence of calls with the given results. *)
Fixpoint accepted_all (cs : list call) (rs : list (outcome * list wait))
  : list T :=
  match cs, rs with
  | c :: cs', (r, _) :: rs' => accepted c r ++ accepted_all cs' rs'
  | _, _ => []
  end.

(** The kinds of error a call returns besides [ErrClosed], told apart with
    [errors.Is]: an error that is [ErrTimeout] and is not [ErrClosed], and
    an error of [validateBuffer], which is neither. *)
Definition timeout_error (e : error) : bool :=
  errors_Is e ErrTimeout && negb (errors_Is e ErrClosed).

Definition option_error (e : error) : bool :=
  negb (errors_Is e ErrTimeout) && negb (errors_Is e ErrClosed).

(** The states a client that makes one call after the other finds the
    system in: not started, started, or closed. *)
Definition settled (s : system) : Prop :=
  (exists b, unmade b /\ s = fresh b) \/
  (exists w, wf s w) \/
  (closed (buffer s) = true /\ IsIntialized (buffer s) = true /\ pending s = [] /\
   exists w, goroutine s = Some w /\ at_point w = Exited).

(** The program has died in the [make] of [consume]: nothing was received. *)
Definition dead (s : system) : Prop :=
  crashed s = true /\ closed (buffer s) = false /\
  dataCh (buffer s) = openChan /\ flushCh (buffer s) = openChan /\
  closeCh (buffer s) = openChan /\
  written s = [] /\ pending s = [].

(** What a call may return: nil, [ErrClosed], an error that is
    [ErrTimeout], or an error of [validateBuffer] (from [Push] only); it
    does not panic. *)
Definition well_returned (c : call) (r : outcome) : Prop :=
  match r with
  | Return None => True
  | Return (Some e) =>
      e = ErrClosed \/ timeout_error e = true \/
      (option_error e = true /\ exists inTime x, c = CallPush inTime x)
  | Panics => False
  end.

(** The loop is open: at its [select], or inside a [Write] after which it
    will go back to its [select]. *)
Definition open_loop (w : worker) : Prop :=
  at_point w = AtSelect \/ (at_point w = InWrite /\ isOpen w = true).

(** ** Tickers *)

Lemma length_stop f ts : length (stop f ts) = length ts.
Proof. destruct f; simpl; [apply length_alter | reflexivity]. Qed.

Lemma lookup_stop_ne f ts j :
  f <> Some j -> stop f ts !! j = ts !! j.
Proof.
  destruct f as [i|]; simpl; [|reflexivity].
  intros H. apply list_lookup_alter_ne. congruence.
Qed.

Lemma lookup_stop_eq ts i t :
  stop (Some i) ts !! i = Some t -> stopped t = true.
Proof.
  simpl. rewrite list_lookup_alter_eq. destruct (ts !! i); simpl; [|discriminate].
  intros [= <-]. reflexivity.
Qed.

Lemma lookup_stop_period f ts j t :
  stop f ts !! j = Some t ->
  exists t0, ts !! j = Some t0 /\ period t = period t0 /\
             (stopped t = false -> stopped t0 = false /\ f <> Some j).
Proof.
  destruct f as [i|]; simpl.
  - destruct (decide (i = j)) as [->|Hne].
    + rewrite list_lookup_alter_eq. destruct (ts !! j) as [t0|]; simpl; [|discriminate].
      intros [= <-]. exists t0. simpl. repeat split; discriminate.
    + rewrite list_lookup_alter_ne by assumption. intros H. exists t.
      repeat split; [assumption..|congruence].
  - intros H. exists t. repeat split; [assumption..|discriminate].
Qed.

Lemma validateBuffer_None b : validateBuffer b = None <-> valid b.
Proof.
  unfold validateBuffer, valid.
  destruct (N.eqb_spec (Size b) 0); [split; [discriminate | tauto]|].
  case_bool_decide; [split; [discriminate | tauto]|].
  destruct (Z.ltb_spec (FlushInterval b) 0); [split; [discriminate | lia]|].
  destruct (Z.ltb_spec (PushTimeout b) 0); [split; [discriminate | lia]|].
  destruct (Z.ltb_spec (FlushTimeout b) 0); [split; [discriminate | lia]|].
  destruct (Z.ltb_spec (CloseTimeout b) 0); [split; [discriminate | lia]|].
  split; [intros _; repeat split; assumption | reflexivity].
Qed.

Lemma make_fits n :
  (n <= maxLen)%N -> make n = Some (replicate (N.to_nat n) zero).
Proof. unfold make. intros H. destruct (N.leb_spec n maxLen); [reflexivity | lia]. Qed.

Lemma make_Some n l :
  make n = Some l -> (n <= maxLen)%N /\ l = replicate (N.to_nat n) zero.
Proof.
  unfold make. destruct (N.leb_spec n maxLen); [|discriminate].
  intros [= <-]. done.
Qed.

Lemma len_replicate n : len (replicate (N.to_nat n) zero) = Z.of_N n.
Proof. unfold len. rewrite length_replicate. lia. Qed.

Lemma wf_initialize b s0 :
  initialize (fresh b) = (s0, None) -> (Size b <= maxLen)%N ->
  exists w, wf s0 w /\ at_point w = AtSelect /\ count w = 0 /\ written s0 = [] /\
            Size (buffer s0) = Size b /\ FlushInterval (buffer s0) = FlushInterval b /\
            backing w = 0%nat /\ make (Size b) = Some (items w) /\
            PushTimeout (buffer s0) = PushTimeout b.
Proof.
  unfold initialize. simpl. destruct (validateBuffer b) eqn:Hv; [discriminate|].
  apply validateBuffer_None in Hv. destruct Hv as (Hsz & Hfl & Hiv & Hto).
  intros [= <-] Hfit. unfold consume, newTicker. simpl.
  rewrite (make_fits _ Hfit).
  destruct (Z.eqb_spec (FlushInterval b) 0) as [H0|H0];
    [|destruct (Z.ltb_spec (FlushInterval b) 0); [lia|]].
  all: eexists;
    (split;
     [constructor; [reflexivity|..]; simpl; rewrite ?len_replicate, ?length_replicate;
      try done
     |simpl; split_and!; reflexivity]).
  all: try (repeat split; lia).
  - intros i [= <-]. eexists. split; [reflexivity|]. auto.
  - intros [|j] t; simpl; [|discriminate]. intros [= <-] _. auto.
Qed.

Lemma valid_close_done b : valid (close_done b) <-> valid b.
Proof. reflexivity. Qed.

(** The goroutine enters [Flusher.Write] with a batch of [c1] items. *)
Lemma wf_enter_write s c its bk mf tk op c1 its1 op1 :
  wf s (mkWorker c its bk mf tk tk op AtSelect) ->
  length its1 = length its -> 0 < c1 <= len its1 ->
  wf (mkSystem (buffer s) (Some (mkWorker c1 its1 bk true tk tk op1 InWrite))
        (stop tk (tickers s)) (arrays s)
        (written s ++ [(bk, take (Z.to_nat c1) its1)]))
     (mkWorker c1 its1 bk true tk tk op1 InWrite).
Proof.
  intros [Hg Hv Hch Hfit Hlen Hpt Hbk Hwr Hst Hnil Htk Hrun] Hl Hc1; simpl in *.
  destruct Hpt as (Hc & _ & _ & Hdone).
  constructor; simpl; try done.
  - congruence.
  - repeat split; [lia..|assumption|eauto].
  - apply Forall_app. split.
    + eapply Forall_impl; [exact Hwr|]. simpl. intros [a l] (? & ? & ?). simpl in *. done.
    + constructor; [|constructor]. simpl. split; [assumption|]. split; [done|].
      rewrite length_take. unfold len in Hc1. lia.
  - intros i ->. destruct (Htk i eq_refl) as (t & Ht & Hp & _). simpl.
    rewrite list_lookup_alter_eq, Ht. simpl. eexists. split; [reflexivity|]. simpl.
    split; [assumption | discriminate].
  - intros j t Hj Hs. apply lookup_stop_period in Hj.
    destruct Hj as (t0 & Ht0 & _ & Hs0). destruct (Hs0 Hs) as [Hs1 Hne].
    destruct (Hrun j t0 Ht0 Hs1) as [-> _]. done.
Qed.

(** The goroutine goes back to the [select]. *)
Lemma wf_back_to_select s c its bk mf tk op c1 its1 :
  wf s (mkWorker c its bk mf tk tk op AtSelect) ->
  length its1 = length its -> 0 <= c1 < len its1 ->
  wf (mkSystem (buffer s) (Some (mkWorker c1 its1 bk false tk tk true AtSelect))
        (tickers s) (arrays s) (written s))
     (mkWorker c1 its1 bk false tk tk true AtSelect).
Proof.
  intros [Hg Hv Hch Hfit Hlen Hpt Hbk Hwr Hst Hnil Htk Hrun] Hl Hc1; simpl in *.
  destruct Hpt as (Hc & _ & _ & Hdone).
  constructor; simpl; try done.
  congruence.
Qed.

(** The goroutine leaves the loop with nothing pending. *)
Lemma wf_leave s c its bk mf tk op its1 mf1 :
  wf s (mkWorker c its bk mf tk tk op AtSelect) ->
  length its1 = length its ->
  wf (loop_end (mkWorker 0 its1 bk mf1 tk tk false AtSelect) s)
     (mkWorker 0 its1 bk mf1 tk tk false Exited).
Proof.
  intros [Hg Hv Hch Hfit Hlen Hpt Hbk Hwr Hst Hnil Htk Hrun] Hl; simpl in *.
  destruct Hpt as (Hc & _ & _ & Hdone).
  unfold loop_end. simpl. rewrite Hdone.
  constructor; simpl; try done.
  - congruence.
  - eapply Forall_impl; [exact Hwr|]. simpl. intros [a l] (? & Hne & ?). simpl in *.
    split; [assumption|]. split; [|assumption]. intros _. apply Hne. discriminate.
  - intros i ->. destruct (Htk i eq_refl) as (t & Ht & Hp & _). simpl.
    rewrite list_lookup_alter_eq, Ht. simpl. eexists. split; [reflexivity|]. simpl.
    split; [assumption | discriminate].
  - intros j t Hj Hs. apply lookup_stop_period in Hj.
    destruct Hj as (t0 & Ht0 & _ & Hs0). destruct (Hs0 Hs) as [Hs1 Hne].
    destruct (Hrun j t0 Ht0 Hs1) as [-> _]. done.
Qed.

Lemma valid_Flusher b : valid b -> exists f, Flusher b = Some f.
Proof. intros (_ & Hfl & _). destruct (Flusher b); [eauto | done]. Qed.

(** The two ways an iteration that received a tick or a request ends
    while the loop stays open. *)
Ltac enters_write Hwf Hfl :=
  rewrite Hfl; intros [= <-]; eexists;
  eapply wf_enter_write; [exact Hwf | reflexivity | simpl; lia].

Ltac back_to_select Hwf :=
  intros [= <-]; eexists;
  eapply wf_back_to_select; [exact Hwf | reflexivity | simpl; lia].

Lemma wf_iterate ev s w s' :
  wf s w -> iterate ev s = Some s' -> exists w', wf s' w'.
Proof.
  intros Hwf. unfold iterate. rewrite (wf_goroutine _ _ Hwf).
  destruct (valid_Flusher _ (wf_valid _ _ Hwf)) as [f Hfl].
  pose proof (wf_stop _ _ Hwf) as Hst. pose proof (wf_point _ _ Hwf) as Hpt.
  destruct w as [c its bk mf tk st op pt]; simpl in *. subst st.
  destruct pt; try discriminate. destruct Hpt as (Hc & -> & -> & Hdone).
  destruct ev as [x| | |]; simpl.
  - destruct (Z.leb_spec 0 c); [|lia]. destruct (Z.ltb_spec c (len its)); [|lia]. simpl.
    destruct (Z.geb_spec (c + 1) (len its)).
    + rewrite Hfl. intros [= <-]. eexists.
      eapply wf_enter_write; [exact Hwf | apply length_insert |].
      simpl. unfold len in *. rewrite length_insert. lia.
    + intros [= <-]. eexists.
      eapply wf_back_to_select; [exact Hwf | apply length_insert |].
      simpl. unfold len in *. rewrite length_insert. lia.
  - destruct tk as [i|]; [|discriminate]. simpl.
    destruct (Z.gtb_spec c 0); [enters_write Hwf Hfl | back_to_select Hwf].
  - destruct (Z.gtb_spec c 0); [enters_write Hwf Hfl | back_to_select Hwf].
  - destruct (Z.gtb_spec c 0); [enters_write Hwf Hfl|].
    intros [= <-]. eexists. assert (c = 0) as -> by lia.
    eapply wf_leave; [exact Hwf | reflexivity].
Qed.

Lemma wf_Write_returns s w s' :
  wf s w -> Write_returns s = Some s' -> exists w', wf s' w'.
Proof.
  intros [Hg Hv Hch Hfit Hlen Hpt Hbk Hwr Hst Hnil Htk Hrun]. unfold Write_returns. rewrite Hg.
  destruct w as [c its bk mf tk st op pt]; simpl in *. subst st.
  destruct pt; try discriminate. destruct Hpt as (Hc & Hdone & l & Hl).
  assert (Hall : forall j t, tickers s !! j = Some t -> stopped t = true).
  { intros j t Hj. destruct (stopped t) eqn:E; [reflexivity|].
    destruct (Hrun j t Hj E) as [_ ?]. discriminate. }
  pose proof Hv as (Hsz & _ & Hiv & _).
  rewrite (make_fits _ Hfit). unfold newTicker.
  destruct (Z.eqb_spec (FlushInterval (buffer s)) 0) as [H0|H0];
    [|destruct (Z.ltb_spec (FlushInterval (buffer s)) 0); [lia|]].
  all: unfold loop_end; simpl; destruct op; [|rewrite Hdone]; intros [= <-].
  all: eexists; constructor; [reflexivity|..]; simpl;
       rewrite ?len_replicate, ?length_replicate; try done; try lia.
  all: try (repeat split; (done || lia)).
  all: try (eapply Forall_impl; [exact Hwr|]; simpl; intros [a ?] (? & _ & ?);
            simpl in *; repeat split; (done || lia)).
  - intros j t Hj Hs. rewrite (Hall _ _ Hj) in Hs. discriminate.
  - intros j t Hj Hs. rewrite (Hall _ _ Hj) in Hs. discriminate.
  - intros i [= <-]. rewrite lookup_app_r, Nat.sub_diag by lia. simpl. eauto.
  - intros j t Hj Hs. apply lookup_app_Some in Hj as [Hj|[Hge Hj]].
    + rewrite (Hall _ _ Hj) in Hs. discriminate.
    + destruct (j - length (tickers s))%nat eqn:E; [|discriminate].
      split; [f_equal; lia | reflexivity].
  - intros i [= <-]. rewrite list_lookup_alter_eq, lookup_app_r, Nat.sub_diag by lia.
    simpl. eexists. split; [reflexivity|]. simpl. split; [reflexivity | discriminate].
  - intros j t Hj Hs. exfalso.
    destruct (decide (length (tickers s) = j)) as [<-|Hne].
    + rewrite list_lookup_alter_eq, lookup_app_r, Nat.sub_diag in Hj by lia.
      simpl in Hj. injection Hj as <-. discriminate.
    + rewrite list_lookup_alter_ne in Hj by assumption.
      apply lookup_app_Some in Hj as [Hj|[Hge Hj]].
      * rewrite (Hall _ _ Hj) in Hs. discriminate.
      * destruct (j - length (tickers s))%nat eqn:E; [lia | discriminate].
Qed.

Lemma wf_act a s w s' :
  wf s w -> act a s = Some s' -> exists w', wf s' w'.
Proof.
  destruct a; simpl; [apply wf_iterate | apply wf_Write_returns].
Qed.

Lemma wf_exec acts : forall s w s',
  wf s w -> exec acts s = Some s' -> exists w', wf s' w'.
Proof.
  induction acts as [|a acts IH]; simpl; intros s w s' Hwf H.
  - injection H as <-. eauto.
  - destruct (act a s) as [s1|] eqn:E; [|discriminate].
    destruct (wf_act _ _ _ _ Hwf E) as [w1 Hw1]. eauto.
Qed.

Lemma reachable_wf s : reachable s -> exists w, wf s w.
Proof.
  intros (b & s0 & acts & Hi & Hfit & He).
  destruct (wf_initialize _ _ Hi Hfit) as (w0 & Hw0 & _). eapply wf_exec; eauto.
Qed.

(** ** What one step does *)

Lemma take_push (l : list T) (c : Z) (x : T) :
  0 <= c < len l ->
  take (Z.to_nat (c + 1)) (<[Z.to_nat c := x]> l) = take (Z.to_nat c) l ++ [x].
Proof.
  unfold len. intros Hc.
  replace (Z.to_nat (c + 1)) with (S (Z.to_nat c)) by lia.
  rewrite (take_S_r _ _ x) by (apply list_lookup_insert_eq; lia).
  rewrite take_insert_ge by lia. reflexivity.
Qed.

(** An item arrives while the goroutine is at its [select]. *)
Lemma iterate_item s w x :
  wf s w -> at_point w = AtSelect ->
  exists s' w',
    iterate (item x) s = Some s' /\ wf s' w' /\
    buffer s' = buffer s /\ backing w' = backing w /\ arrays s' = arrays s /\
    isOpen w' = true /\
    if count w + 1 <? len (items w)
    then at_point w' = AtSelect /\ count w' = count w + 1 /\
         pending s' = pending s ++ [x] /\ written s' = written s /\
         tickers s' = tickers s /\ ticker w' = ticker w
    else at_point w' = InWrite /\
         written s' = written s ++ [(backing w, pending s ++ [x])].
Proof.
  intros Hwf Hp.
  destruct (iterate (item x) s) as [s'|] eqn:E.
  2:{ unfold iterate in E. rewrite (wf_goroutine _ _ Hwf), Hp in E. simpl in E.
      destruct (_ && _); simpl in E; [|discriminate].
      rewrite Hp in E. repeat case_match; discriminate. }
  destruct (wf_iterate _ _ _ _ Hwf E) as [w' Hw']. exists s', w'.
  split; [reflexivity|]. split; [assumption|].
  pose proof (wf_goroutine _ _ Hw') as Hg'. pose proof (wf_point _ _ Hwf) as Hpt.
  destruct (valid_Flusher _ (wf_valid _ _ Hwf)) as [f Hfl].
  unfold iterate in E. rewrite (wf_goroutine _ _ Hwf), Hp in E.
  unfold pending. rewrite (wf_goroutine _ _ Hwf), Hp.
  destruct w as [c its bk mf tk st op pt]; simpl in *. subst pt.
  destruct Hpt as (Hc & -> & -> & Hdone).
  destruct (Z.leb_spec 0 c); [|lia]. destruct (Z.ltb_spec c (len its)); [|lia].
  simpl in E. unfold len in *.
  destruct (Z.geb_spec (c + 1) (Z.of_nat (length its)));
    destruct (Z.ltb_spec (c + 1) (Z.of_nat (length its))); try lia.
  - rewrite Hfl in E. injection E as <-. simpl in *. injection Hg' as <-. simpl.
    rewrite take_push by (unfold len; lia). done.
  - injection E as <-. simpl in *. injection Hg' as <-. simpl.
    rewrite take_push by (unfold len; lia). done.
Qed.

(** A tick, a flush request or a close request while items are pending:
    the ticker is stopped and [Write] is called with the pending items. *)
Lemma iterate_request_pending s w ev :
  wf s w -> at_point w = AtSelect ->
  request ev = true -> receivable ev w = true -> 0 < count w ->
  exists s' w',
    iterate ev s = Some s' /\ wf s' w' /\
    buffer s' = buffer s /\ arrays s' = arrays s /\
    at_point w' = InWrite /\ isOpen w' = negb (closing ev) /\
    count w' = count w /\ items w' = items w /\ backing w' = backing w /\
    ticker w' = ticker w /\
    tickers s' = stop (ticker w) (tickers s) /\
    written s' = written s ++ [(backing w, pending s)].
Proof.
  intros Hwf Hp Hev Hrx Hc.
  destruct (valid_Flusher _ (wf_valid _ _ Hwf)) as [f Hfl].
  pose proof (wf_point _ _ Hwf) as Hpt. pose proof (wf_stop _ _ Hwf) as Hst.
  assert (exists s', iterate ev s = Some s') as [s' E].
  { unfold iterate. rewrite (wf_goroutine _ _ Hwf), Hp.
    destruct ev; try discriminate; simpl in *;
      try (destruct (ticker w); [|discriminate]); simpl; rewrite Hp;
      destruct (Z.gtb_spec (count w) 0); try lia; rewrite Hfl; eauto. }
  destruct (wf_iterate _ _ _ _ Hwf E) as [w' Hw']. exists s', w'.
  split; [assumption|]. split; [assumption|].
  pose proof (wf_goroutine _ _ Hw') as Hg'.
  unfold iterate in E. rewrite (wf_goroutine _ _ Hwf), Hp in E.
  unfold pending. rewrite (wf_goroutine _ _ Hwf), Hp.
  destruct w as [c its bk mf tk st op pt]; simpl in *. subst pt st.
  destruct Hpt as (_ & -> & -> & Hdone).
  destruct ev; try discriminate; simpl in *;
    try (destruct tk; [|discriminate]); simpl in *;
    destruct (Z.gtb_spec c 0); try lia; rewrite Hfl in E;
    injection E as <-; simpl in *; injection Hg' as <-; simpl; done.
Qed.

(** A tick or a flush request while nothing is pending changes nothing. *)
Lemma iterate_request_idle s w ev :
  wf s w -> at_point w = AtSelect ->
  request ev = true -> closing ev = false -> receivable ev w = true ->
  count w = 0 ->
  iterate ev s = Some s.
Proof.
  intros Hwf Hp Hev Hcl Hrx Hc.
  pose proof (wf_point _ _ Hwf) as Hpt. pose proof (wf_goroutine _ _ Hwf) as Hg.
  unfold iterate. rewrite Hg, Hp.
  destruct s as [b g ts n wr]. destruct w as [c its bk mf tk st op pt].
  simpl in *. subst pt c g. destruct Hpt as (_ & -> & -> & Hdone).
  destruct ev; try discriminate; simpl in *;
    try (destruct tk; [|discriminate]); reflexivity.
Qed.

(** A close request while nothing is pending: the goroutine stops its
    ticker, closes [doneCh] and is gone; the flusher is not called. *)
Lemma iterate_close_idle s w :
  wf s w -> at_point w = AtSelect -> count w = 0 ->
  exists s' w',
    iterate closeReq s = Some s' /\ wf s' w' /\
    at_point w' = Exited /\ doneCh (buffer s') = closedChan /\
    written s' = written s /\ arrays s' = arrays s /\
    tickers s' = stop (ticker w) (tickers s).
Proof.
  intros Hwf Hp Hc.
  pose proof (wf_point _ _ Hwf) as Hpt. pose proof (wf_stop _ _ Hwf) as Hst.
  assert (exists s', iterate closeReq s = Some s') as [s' E].
  { unfold iterate. rewrite (wf_goroutine _ _ Hwf), Hp. simpl. rewrite Hp, Hc. simpl. eauto. }
  destruct (wf_iterate _ _ _ _ Hwf E) as [w' Hw']. exists s', w'.
  split; [assumption|]. split; [assumption|].
  pose proof (wf_goroutine _ _ Hw') as Hg'.
  unfold iterate in E. rewrite (wf_goroutine _ _ Hwf), Hp in E.
  destruct w as [c its bk mf tk st op pt]; simpl in *. subst pt st c.
  destruct Hpt as (_ & -> & -> & Hdone). simpl in E. unfold loop_end in E. simpl in E.
  rewrite Hdone in E. injection E as <-. simpl in *. injection Hg' as <-. simpl. done.
Qed.

(** No ticker, no tick. *)
Lemma iterate_tick_nil s w :
  goroutine s = Some w -> ticker w = None -> iterate tick s = None.
Proof.
  intros Hg Htk. unfold iterate. rewrite Hg. simpl. rewrite Htk.
  destruct (at_point w); reflexivity.
Qed.

(** [Flusher.Write] returns: the batch is empty again, in a new backing
    array, and [newTicker] has been called; the goroutine is back at its
    [select], or gone if the flush was the one of a close request. *)
Lemma Write_returns_spec s w :
  wf s w -> at_point w = InWrite ->
  exists s' w',
    Write_returns s = Some s' /\ wf s' w' /\
    count w' = 0 /\ make (Size (buffer s)) = Some (items w') /\ pending s' = [] /\
    backing w' = arrays s /\ arrays s' = S (arrays s) /\
    written s' = written s /\ isOpen w' = isOpen w /\
    at_point w' = (if isOpen w then AtSelect else Exited) /\
    doneCh (buffer s') = (if isOpen w then openChan else closedChan) /\
    Size (buffer s') = Size (buffer s) /\
    FlushInterval (buffer s') = FlushInterval (buffer s) /\
    (FlushInterval (buffer s) = 0 -> ticker w' = None /\ tickers s' = tickers s) /\
    (FlushInterval (buffer s) <> 0 ->
       ticker w' = Some (length (tickers s)) /\
       tickers s' =
         tickers s ++ [mkTicker (FlushInterval (buffer s)) (negb (isOpen w))]).
Proof.
  intros Hwf Hp.
  pose proof (wf_point _ _ Hwf) as Hpt. pose proof (wf_valid _ _ Hwf) as (_ & _ & Hiv & _).
  assert (exists s', Write_returns s = Some s') as [s' E].
  { unfold Write_returns. rewrite (wf_goroutine _ _ Hwf), Hp. repeat case_match; eauto. }
  destruct (wf_Write_returns _ _ _ Hwf E) as [w' Hw']. exists s', w'.
  split; [assumption|]. split; [assumption|].
  pose proof (wf_goroutine _ _ Hw') as Hg'.
  unfold Write_returns in E. rewrite (wf_goroutine _ _ Hwf), Hp in E.
  rewrite (make_fits _ (wf_fits _ _ Hwf)) in E |- *.
  unfold pending. rewrite Hg'.
  destruct w as [c its bk mf tk st op pt]; simpl in *. subst pt.
  destruct Hpt as (_ & Hdone & _).
  unfold newTicker in E.
  destruct (Z.eqb_spec (FlushInterval (buffer s)) 0) as [H0|H0];
    [|destruct (Z.ltb_spec (FlushInterval (buffer s)) 0); [lia|]].
  all: unfold loop_end in E; simpl in E; destruct op; [|rewrite Hdone in E];
    injection E as <-; simpl in *; injection Hg' as <-; simpl.
  all: repeat split; try done.
  rewrite alter_app_r_alt, Nat.sub_diag by lia. reflexivity.
Qed.

(** ** The public operations on a started buffer *)

Lemma writing_false s w :
  goroutine s = Some w -> at_point w <> InWrite -> writing s = false.
Proof. unfold writing. intros -> H. destruct (at_point w); done. Qed.

Lemma writing_true s w :
  goroutine s = Some w -> at_point w = InWrite -> writing s = true.
Proof. unfold writing. by intros -> ->. Qed.

Lemma crashed_false s w : wf s w -> crashed s = false.
Proof.
  intros Hwf. pose proof (wf_point _ _ Hwf) as Hpt. unfold crashed.
  rewrite (wf_goroutine _ _ Hwf). destruct (at_point w); done.
Qed.

Lemma expires_first_false inTime d :
  inTime = true \/ delay < d -> expires_first inTime d = false.
Proof.
  unfold expires_first. intros [-> | H]; [reflexivity|].
  destruct (Z.leb_spec d delay); [lia|]. apply andb_false_r.
Qed.

Lemma expires_first_true inTime d :
  expires_first inTime d = true -> inTime = false /\ d <= delay.
Proof.
  unfold expires_first. destruct inTime; [discriminate|]. simpl.
  destruct (Z.leb_spec d delay); [done | discriminate].
Qed.

Lemma closed_false s w :
  wf s w -> at_point w <> Exited -> closed (buffer s) = false.
Proof.
  intros Hwf Hne. pose proof (wf_point _ _ Hwf) as Hpt. unfold closed.
  destruct (at_point w); try done; destruct Hpt as (_ & H); 
    [destruct H as (_ & _ & ->) | destruct H as (-> & _)]; reflexivity.
Qed.

Lemma IsIntialized_true s w : wf s w -> IsIntialized (buffer s) = true.
Proof.
  intros Hwf. destruct (wf_channels _ _ Hwf) as (H & _).
  unfold IsIntialized. rewrite H. reflexivity.
Qed.

Lemma await_cases inTime s w :
  wf s w ->
  await inTime s = s \/
  (at_point w = InWrite /\ inTime = true /\ Write_returns s = Some (await inTime s)).
Proof.
  intros Hwf. unfold await, writing. rewrite (wf_goroutine _ _ Hwf).
  destruct (at_point w) eqn:Hp; simpl; auto.
  destruct inTime; simpl; auto.
  destruct (Write_returns_spec s w Hwf Hp) as (s' & w' & E & _).
  rewrite E. auto.
Qed.

Lemma wf_await inTime s w : wf s w -> exists w', wf (await inTime s) w'.
Proof.
  intros Hwf. destruct (await_cases inTime s w Hwf) as [-> | (_ & _ & E)]; [eauto|].
  apply (wf_Write_returns _ _ _ Hwf E).
Qed.

Lemma await_idle inTime s w :
  goroutine s = Some w -> at_point w <> InWrite -> await inTime s = s.
Proof.
  intros Hg Hp. unfold await. rewrite (writing_false _ _ Hg Hp). reflexivity.
Qed.

(** A request offered to a started buffer is handed over, if the timer
    does not expire first and the goroutine, once a running flusher has
    returned in time, is at its [select]; otherwise the timer expires.
    Nothing panics. *)
Lemma offer_cases inTime d ev s w s' r :
  wf s w -> offer inTime d openChan ev s = (s', r) ->
  (r = Some true /\ expires_first inTime d = false /\
   iterate ev (await inTime s) = Some s') \/
  (r = Some false /\ s' = await inTime s /\
   (expires_first inTime d = true \/ iterate ev (await inTime s) = None)).
Proof.
  intros Hwf. unfold offer.
  destruct (wf_await inTime s w Hwf) as [wa Hwa].
  rewrite (crashed_false _ _ Hwa).
  destruct (expires_first inTime d) eqn:Hx.
  - intros [= <- <-]. right. auto.
  - destruct (iterate ev (await inTime s)) as [s2|] eqn:E.
    + destruct (wf_iterate _ _ _ _ Hwa E) as [w2 Hw2].
      rewrite (crashed_false _ _ Hw2). intros [= <- <-]. left. auto.
    + intros [= <- <-]. right. auto.
Qed.

Lemma offer_at_select inTime d ev s w s' :
  wf s w -> at_point w = AtSelect ->
  iterate ev s = Some s' ->
  offer inTime d openChan ev s =
    if expires_first inTime d then (s, Some false) else (s', Some true).
Proof.
  intros Hwf Hp E. unfold offer, await.
  rewrite (writing_false _ _ (wf_goroutine _ _ Hwf)) by (rewrite Hp; discriminate).
  simpl. rewrite (crashed_false _ _ Hwf). destruct (expires_first inTime d); [reflexivity|].
  rewrite E. destruct (wf_iterate _ _ _ _ Hwf E) as [w' Hw'].
  rewrite (crashed_false _ _ Hw'). reflexivity.
Qed.

(** [Push] on a started buffer whose goroutine is at its [select] hands
    the item over, unless its timer expires first. *)
Lemma Push_at_select inTime x s w s' :
  wf s w -> at_point w = AtSelect ->
  iterate (item x) s = Some s' ->
  Push inTime x s =
    if expires_first inTime (PushTimeout (buffer s))
    then (s, timed_out "buffer is full", [Expired (PushTimeout (buffer s))])
    else (s', Return None, [Handed (PushTimeout (buffer s))]).
Proof.
  intros Hwf Hp E. unfold Push. rewrite (IsIntialized_true _ _ Hwf).
  rewrite (closed_false _ _ Hwf) by (rewrite Hp; discriminate).
  destruct (wf_channels _ _ Hwf) as (-> & _).
  rewrite (offer_at_select _ _ _ _ _ _ Hwf Hp E).
  destruct (expires_first _ _); reflexivity.
Qed.

Lemma Flush_at_select inTime s w s' :
  wf s w -> at_point w = AtSelect ->
  iterate flushReq s = Some s' ->
  Flush inTime s =
    if expires_first inTime (FlushTimeout (buffer s))
    then (s, timed_out "failed to flush buffer within flush timeout",
          [Expired (FlushTimeout (buffer s))])
    else (s', Return None, [Handed (FlushTimeout (buffer s))]).
Proof.
  intros Hwf Hp E. unfold Flush.
  rewrite (closed_false _ _ Hwf) by (rewrite Hp; discriminate).
  destruct (wf_channels _ _ Hwf) as (_ & -> & _).
  rewrite (offer_at_select _ _ _ _ _ _ Hwf Hp E).
  destruct (expires_first _ _); reflexivity.
Qed.

Lemma buffer_consume s : buffer (consume s) = buffer s.
Proof. unfold consume. repeat case_match; reflexivity. Qed.

(** The first [Push] on a valid buffer starts it. *)
Lemma Push_first inTime x b :
  IsIntialized b = false -> validateBuffer b = None ->
  exists s0, initialize (fresh b) = (s0, None) /\
             Push inTime x (fresh b) = Push inTime x s0.
Proof.
  intros Hi Hv. unfold initialize. simpl. rewrite Hv. eexists. split; [reflexivity|].
  unfold Push at 1. simpl. rewrite Hi. unfold Validate. rewrite Hv.
  unfold initialize. simpl. rewrite Hv.
  set (s0 := consume _).
  assert (Hb : IsIntialized (buffer s0) = true).
  { unfold s0. rewrite buffer_consume. reflexivity. }
  unfold Push. rewrite Hb. reflexivity.
Qed.

(** The first [Push] returns nil only if [make] did not panic and the
    timer did not expire while the goroutine was getting to its
    [select]. *)
Lemma Push_first_nil inTime x b s1 ws :
  IsIntialized b = false -> validateBuffer b = None ->
  Push inTime x (fresh b) = (s1, Return None, ws) ->
  (Size b <= maxLen)%N /\ expires_first inTime (PushTimeout b) = false.
Proof.
  intros Hi Hv. destruct (N.leb_spec (Size b) maxLen) as [Hfit|Hfit].
  - destruct (Push_first inTime x b Hi Hv) as (s0 & Hs0 & ->).
    destruct (wf_initialize _ _ Hs0 Hfit)
      as (w0 & Hwf & Hp & _ & _ & _ & _ & _ & _ & Hto).
    assert (exists s', iterate (item x) s0 = Some s') as [s' E].
    { unfold iterate. rewrite (wf_goroutine _ _ Hwf), Hp. simpl.
      destruct (_ && _); simpl; [|rewrite ?Hp; eauto].
      rewrite Hp. repeat case_match; eauto. }
    rewrite (Push_at_select _ _ _ _ _ Hwf Hp E), Hto.
    destruct (expires_first inTime (PushTimeout b)); [discriminate | done].
  - unfold Push. simpl. rewrite Hi. unfold Validate. rewrite Hv.
    unfold initialize. simpl. rewrite Hv. unfold consume, make. simpl.
    destruct (N.leb_spec (Size b) maxLen); [lia|]. simpl. discriminate.
Qed.

(** Items received while there is room stay pending, in order. *)
Lemma receive_room xs : forall s w,
  wf s w -> at_point w = AtSelect ->
  count w + Z.of_nat (length xs) < len (items w) ->
  exists s' w',
    exec (map (fun x => Recv (item x)) xs) s = Some s' /\
    wf s' w' /\ at_point w' = AtSelect /\
    count w' = count w + Z.of_nat (length xs) /\
    pending s' = pending s ++ xs /\ written s' = written s /\
    buffer s' = buffer s /\ backing w' = backing w.
Proof.
  induction xs as [|x xs IH]; intros s w Hwf Hp Hc.
  - exists s, w. simpl in *. rewrite app_nil_r. split_and!; (done || lia).
  - change (length (x :: xs)) with (S (length xs)) in *.
    rewrite Nat2Z.inj_succ in *. simpl map. simpl exec.
    destruct (iterate_item s w x Hwf Hp) as (s1 & w1 & E & Hwf1 & Hb & Hbk & Har & _ & H).
    destruct (Z.ltb_spec (count w + 1) (len (items w))); [|lia].
    destruct H as (Hp1 & Hc1 & Hpe & Hwr & Hts & Htk).
    rewrite E.
    assert (Hl : len (items w1) = len (items w)).
    { unfold len. rewrite (wf_len _ _ Hwf1), (wf_len _ _ Hwf), Hb. reflexivity. }
    destruct (IH s1 w1 Hwf1 Hp1) as (s' & w' & -> & ? & ? & ? & ? & ? & ? & ?); [lia|].
    exists s', w'. rewrite Hpe, <- app_assoc in *. simpl.
    split_and!; (done || congruence || lia).
Qed.

(** Items pushed while there is room stay pending, in order. *)
Lemma pushes_room inTime xs : forall s w,
  wf s w -> at_point w = AtSelect ->
  expires_first inTime (PushTimeout (buffer s)) = false ->
  count w + Z.of_nat (length xs) < len (items w) ->
  exists s' w',
    pushes inTime xs s = (s', replicate (length xs) (Return None)) /\
    wf s' w' /\ at_point w' = AtSelect /\
    count w' = count w + Z.of_nat (length xs) /\
    pending s' = pending s ++ xs /\ written s' = written s /\
    buffer s' = buffer s /\ backing w' = backing w /\ arrays s' = arrays s /\
    tickers s' = tickers s /\ ticker w' = ticker w.
Proof.
  induction xs as [|x xs IH]; intros s w Hwf Hp Hx Hc.
  - exists s, w. simpl in *. rewrite app_nil_r. split_and!; (done || lia).
  - change (length (x :: xs)) with (S (length xs)) in *.
    rewrite Nat2Z.inj_succ in *. simpl pushes. simpl replicate.
    destruct (iterate_item s w x Hwf Hp) as (s1 & w1 & E & Hwf1 & Hb & Hbk & Har & _ & H).
    destruct (Z.ltb_spec (count w + 1) (len (items w))); [|lia].
    destruct H as (Hp1 & Hc1 & Hpe & Hwr & Hts & Htk).
    rewrite (Push_at_select _ _ _ _ _ Hwf Hp E), Hx.
    assert (Hl : len (items w1) = len (items w)).
    { unfold len. rewrite (wf_len _ _ Hwf1), (wf_len _ _ Hwf), Hb. reflexivity. }
    destruct (IH s1 w1 Hwf1 Hp1)
      as (s' & w' & -> & ? & ? & ? & ? & ? & ? & ? & ? & ? & ?);
      [by rewrite Hb | lia|].
    exists s', w'. rewrite Hpe, <- app_assoc in *. simpl.
    split_and!; (done || congruence || lia).
Qed.

(** Items pushed until the batch is full: [Write] is called once, with
    all of them. *)
Lemma pushes_full inTime xs : forall s w,
  wf s w -> at_point w = AtSelect -> xs <> [] ->
  expires_first inTime (PushTimeout (buffer s)) = false ->
  count w + Z.of_nat (length xs) = len (items w) ->
  exists s' w',
    pushes inTime xs s = (s', replicate (length xs) (Return None)) /\
    wf s' w' /\ at_point w' = InWrite /\ isOpen w' = true /\
    written s' = written s ++ [(backing w, pending s ++ xs)].
Proof.
  intros s w Hwf Hp Hne Hx Hc.
  destruct (exists_last Hne) as (pre & x & ->).
  rewrite length_app in Hc. simpl in Hc.
  destruct (pushes_room inTime pre s w Hwf Hp Hx) as
    (s1 & w1 & E1 & Hwf1 & Hp1 & Hc1 & Hpe & Hwr & Hb & Hbk & _); [lia|].
  assert (Hl : len (items w1) = len (items w)).
  { unfold len. rewrite (wf_len _ _ Hwf1), (wf_len _ _ Hwf), Hb. reflexivity. }
  destruct (iterate_item s1 w1 x Hwf1 Hp1) as (s2 & w2 & E & Hwf2 & _ & _ & _ & Ho & H).
  destruct (Z.ltb_spec (count w1 + 1) (len (items w1))); [lia|].
  destruct H as (Hp2 & Hwr2).
  exists s2, w2. split.
  - assert (HP : Push inTime x s1 =
                 (s2, Return None, [Handed (PushTimeout (buffer s1))])).
    { rewrite (Push_at_select _ _ _ _ _ Hwf1 Hp1 E), Hb, Hx. reflexivity. }
    clear - E1 HP. revert s E1. induction pre as [|y pre IH]; intros s E1; simpl in *.
    + injection E1 as ->. rewrite HP. reflexivity.
    + destruct (Push inTime y s) as [[sa r] ?]. 
      destruct (pushes inTime pre sa) as [sb rs] eqn:Eb.
      injection E1 as -> -> ->. rewrite (IH sa) by assumption. reflexivity.
  - rewrite Hwr2, Hwr, Hpe, Hbk, <- app_assoc. done.
Qed.

(** ** Items received and items flushed *)

Lemma iterate_Some s w ev s' :
  goroutine s = Some w -> iterate ev s = Some s' ->
  at_point w = AtSelect /\ receivable ev w = true.
Proof.
  unfold iterate. intros ->. destruct (at_point w); try discriminate.
  destruct ev; simpl; try done. destruct (ticker w); done.
Qed.

Lemma Write_returns_Some s w s' :
  goroutine s = Some w -> Write_returns s = Some s' -> at_point w = InWrite.
Proof.
  unfold Write_returns. intros ->. destruct (at_point w); done.
Qed.

Lemma flushed_snoc s s' a batch :
  written s' = written s ++ [(a, batch)] -> flushed s' = flushed s ++ batch.
Proof.
  unfold flushed. intros ->. rewrite map_app, concat_app. simpl.
  by rewrite app_nil_r.
Qed.

Lemma flushed_same s s' : written s' = written s -> flushed s' = flushed s.
Proof. unfold flushed. by intros ->. Qed.

Lemma pending_InWrite s w :
  goroutine s = Some w -> at_point w = InWrite -> pending s = [].
Proof. unfold pending. by intros -> ->. Qed.

Lemma pending_idle s w :
  goroutine s = Some w -> count w = 0 -> pending s = [].
Proof. unfold pending. intros -> ->. by destruct (at_point w). Qed.

Lemma Z_gtb_count s w :
  wf s w -> at_point w = AtSelect -> 0 < count w \/ count w = 0.
Proof.
  intros Hwf Hp. pose proof (wf_point _ _ Hwf) as H. rewrite Hp in H. lia.
Qed.

(** A tick or a request moves the pending items to the flusher, or leaves
    them where they are. *)
Lemma request_received ev s w s' :
  wf s w -> request ev = true -> iterate ev s = Some s' ->
  flushed s' ++ pending s' = flushed s ++ pending s.
Proof.
  intros Hwf Hev E. pose proof (wf_goroutine _ _ Hwf) as Hg.
  destruct (iterate_Some _ _ _ _ Hg E) as [Hp Hrx].
  destruct (Z_gtb_count _ _ Hwf Hp) as [Hc|Hc].
  - destruct (iterate_request_pending s w ev Hwf Hp Hev Hrx Hc)
      as (s1 & w1 & E1 & Hwf1 & _ & _ & Hp1 & _ & _ & _ & _ & _ & _ & Hwr).
    rewrite E in E1. injection E1 as <-. rewrite (flushed_snoc _ _ _ _ Hwr).
    rewrite (pending_InWrite _ _ (wf_goroutine _ _ Hwf1) Hp1). by rewrite app_nil_r.
  - destruct (closing ev) eqn:Hcl.
    + destruct ev; try discriminate.
      destruct (iterate_close_idle s w Hwf Hp Hc)
        as (s1 & w1 & E1 & Hwf1 & Hp1 & _ & Hwr & _).
      rewrite E in E1. injection E1 as <-. rewrite (flushed_same _ _ Hwr).
      rewrite (pending_idle _ _ Hg Hc).
      pose proof (wf_point _ _ Hwf1) as Hpt. rewrite Hp1 in Hpt.
      destruct Hpt as (Hc1 & _). by rewrite (pending_idle _ _ (wf_goroutine _ _ Hwf1) Hc1).
    + rewrite (iterate_request_idle s w ev Hwf Hp Hev Hcl Hrx Hc) in E.
      by injection E as <-.
Qed.

(** Every step keeps the items in order: what the flusher has been given,
    followed by what is pending, grows by the item received. *)
Lemma act_received a s w s' :
  wf s w -> act a s = Some s' ->
  flushed s' ++ pending s' = (flushed s ++ pending s) ++ received [a].
Proof.
  intros Hwf E. pose proof (wf_goroutine _ _ Hwf) as Hg.
  destruct a as [ev|]; simpl in E.
  - destruct (request ev) eqn:Hev.
    + rewrite (request_received _ _ _ _ Hwf Hev E).
      destruct ev; try discriminate; simpl; by rewrite app_nil_r.
    + destruct ev as [x| | |]; try discriminate.
      destruct (iterate_Some _ _ _ _ Hg E) as [Hp _].
      destruct (iterate_item s w x Hwf Hp) as (s1 & w1 & E1 & Hwf1 & _ & _ & _ & _ & H).
      rewrite E in E1. injection E1 as <-. simpl.
      destruct (_ <? _).
      * destruct H as (_ & _ & -> & Hwr & _). rewrite (flushed_same _ _ Hwr).
        by rewrite !app_assoc.
      * destruct H as (Hp1 & Hwr). rewrite (flushed_snoc _ _ _ _ Hwr).
        rewrite (pending_InWrite _ _ (wf_goroutine _ _ Hwf1) Hp1).
        by rewrite app_nil_r, !app_assoc.
  - pose proof (Write_returns_Some _ _ _ Hg E) as Hp.
    destruct (Write_returns_spec s w Hwf Hp)
      as (s1 & w1 & E1 & _ & _ & _ & Hpe & _ & _ & Hwr & _).
    rewrite E in E1. injection E1 as <-. simpl.
    rewrite (flushed_same _ _ Hwr), Hpe, (pending_InWrite _ _ Hg Hp).
    by rewrite !app_nil_r.
Qed.

Lemma received_cons a acts : received (a :: acts) = received [a] ++ received acts.
Proof. destruct a as [[x| | |]|]; simpl; reflexivity. Qed.

Lemma exec_received acts : forall s w s',
  wf s w -> exec acts s = Some s' ->
  flushed s' ++ pending s' = (flushed s ++ pending s) ++ received acts.
Proof.
  induction acts as [|a acts IH]; intros s w s' Hwf E.
  - simpl in *. injection E as <-. by rewrite app_nil_r.
  - simpl in E. destruct (act a s) as [s1|] eqn:E1; [|discriminate].
    destruct (wf_act _ _ _ _ Hwf E1) as [w1 Hwf1].
    rewrite (IH _ _ _ Hwf1 E), (act_received _ _ _ _ Hwf E1), (received_cons a acts).
    by rewrite <- !app_assoc.
Qed.

Lemma pending_length s w :
  wf s w -> at_point w = AtSelect -> Z.of_nat (length (pending s)) = count w.
Proof.
  intros Hwf Hp. pose proof (wf_point _ _ Hwf) as Hpt. rewrite Hp in Hpt.
  unfold pending. rewrite (wf_goroutine _ _ Hwf), Hp, length_take.
  unfold len in Hpt. lia.
Qed.

Lemma reachable_goroutine s w :
  reachable s -> goroutine s = Some w -> wf s w.
Proof.
  intros Hr Hg. destruct (reachable_wf _ Hr) as [w' Hwf].
  pose proof (wf_goroutine _ _ Hwf) as Hg'. congruence.
Qed.

Lemma iterate_busy s w ev :
  goroutine s = Some w -> at_point w <> AtSelect -> iterate ev s = None.
Proof. unfold iterate. intros -> H. destruct (at_point w); done. Qed.

Lemma act_Exited s w a :
  goroutine s = Some w -> at_point w = Exited -> act a s = None.
Proof.
  intros Hg Hp. destruct a; simpl.
  - apply (iterate_busy _ _ _ Hg). rewrite Hp. discriminate.
  - unfold Write_returns. rewrite Hg, Hp. reflexivity.
Qed.

(** [Flush] on a started buffer with items pending. *)
Lemma Flush_pending inTime s w :
  wf s w -> at_point w = AtSelect -> 0 < count w ->
  exists s1 s2 w2,
    iterate flushReq s = Some s1 /\
    Flush inTime s =
      (if expires_first inTime (FlushTimeout (buffer s))
       then (s, timed_out "failed to flush buffer within flush timeout",
             [Expired (FlushTimeout (buffer s))])
       else (s1, Return None, [Handed (FlushTimeout (buffer s))])) /\
    written s1 = written s ++ [(backing w, pending s)] /\
    (forall ev, iterate ev s1 = None) /\
    Write_returns s1 = Some s2 /\ written s2 = written s1 /\
    goroutine s2 = Some w2 /\ at_point w2 = AtSelect /\ pending s2 = [].
Proof.
  intros Hwf Hp Hc.
  destruct (iterate_request_pending s w flushReq Hwf Hp eq_refl eq_refl Hc)
    as (s1 & w1 & E1 & Hwf1 & _ & _ & Hp1 & Ho1 & _ & _ & _ & _ & _ & Hwr1).
  destruct (Write_returns_spec s1 w1 Hwf1 Hp1)
    as (s2 & w2 & E2 & Hwf2 & _ & _ & Hpe2 & _ & _ & Hwr2 & _ & Hp2 & _).
  rewrite Ho1 in Hp2. simpl in Hp2.
  exists s1, s2, w2. split_and!; try done.
  - apply (Flush_at_select _ _ _ _ Hwf Hp E1).
  - intros ev. apply (iterate_busy _ _ _ (wf_goroutine _ _ Hwf1)). rewrite Hp1. discriminate.
  - apply (wf_goroutine _ _ Hwf2).
Qed.

(** ** Calls on a closed buffer and on a new one *)

Lemma invoke_closed c s :
  closed (buffer s) = true -> IsIntialized (buffer s) = true ->
  invoke c s = (s, Return (Some ErrClosed), []).
Proof.
  intros Hc Hi. destruct c; simpl; unfold Push, Flush, Close; rewrite ?Hi, Hc; reflexivity.
Qed.

Lemma exec_app acts1 acts2 s :
  exec (acts1 ++ acts2) s =
  match exec acts1 s with
  | Some s1 => exec acts2 s1
  | None => None
  end.
Proof.
  revert s. induction acts1 as [|a acts1 IH]; simpl; intros s; [reflexivity|].
  destruct (act a s); [apply IH | reflexivity].
Qed.

(** [doneCh] is closed by the goroutine as it leaves the loop, and by
    nothing else. *)
Lemma act_closes a s s' :
  act a s = Some s' -> closed (buffer s) = false -> closed (buffer s') = true ->
  exists w', goroutine s' = Some w' /\ at_point w' = Exited.
Proof.
  unfold closed. destruct a as [ev|]; simpl; unfold iterate, Write_returns, loop_end;
    intros H; repeat case_match; simplify_eq; simpl; intros; simplify_eq; eauto.
  all: repeat match goal with
              | H : doneCh _ = _, H' : bool_decide _ = _ |- _ => rewrite H in H'
              end; try done; congruence.
Qed.

Lemma exec_closes acts : forall s s',
  exec acts s = Some s' -> closed (buffer s) = false -> closed (buffer s') = true ->
  exists w', goroutine s' = Some w' /\ at_point w' = Exited.
Proof.
  induction acts as [|a acts IH]; simpl; intros s s' E Hc Hc'.
  - injection E as <-. congruence.
  - destruct (act a s) as [s1|] eqn:E1; [|discriminate].
    destruct (closed (buffer s1)) eqn:Hc1; [|eauto].
    destruct (act_closes _ _ _ E1 Hc Hc1) as (w1 & Hg1 & Hp1).
    destruct acts as [|a' acts]; simpl in E.
    + injection E as <-. eauto.
    + rewrite (act_Exited _ _ a' Hg1 Hp1) in E. discriminate.
Qed.

Lemma await_exec inTime s :
  exists acts, exec acts s = Some (await inTime s).
Proof.
  unfold await. destruct (writing s && inTime); [|by exists []].
  destruct (Write_returns s) as [s1|] eqn:E; [|by exists []].
  exists [Returns]. simpl. by rewrite E.
Qed.

Lemma offer_exec inTime d c ev s s' r :
  offer inTime d c ev s = (s', r) -> exists acts, exec acts s = Some s'.
Proof.
  unfold offer. destruct (await_exec inTime s) as [acts Ha].
  destruct c; try (intros [= <- <-]; by exists []).
  repeat case_match; intros [= <- <-]; try (by exists acts).
  all: exists (acts ++ [Recv ev]); rewrite exec_app, Ha; simpl;
    match goal with H : iterate _ _ = Some _ |- _ => by rewrite H end.
Qed.

Lemma Close_nil inTime1 inTime2 s s' ws :
  Close inTime1 inTime2 s = (s', Return None, ws) ->
  closed (buffer s') = true /\ IsIntialized (buffer s') = true /\
  closed (buffer s) = false /\
  ws = [Handed (CloseTimeout (buffer s)); Handed (CloseTimeout (buffer s))] /\
  exists w', goroutine s' = Some w' /\ at_point w' = Exited.
Proof.
  unfold Close. destruct (closed (buffer s)) eqn:Hc; [discriminate|].
  destruct (offer _ _ _ _ _) as [s1 [[|]|]] eqn:Ho; try discriminate.
  destruct (crashed (await inTime2 s1)); [discriminate|].
  destruct (closed (buffer (await inTime2 s1))) eqn:Hc2; [|discriminate].
  destruct (negb _); [|discriminate]. simpl.
  assert (Hw : exists w', goroutine (await inTime2 s1) = Some w' /\ at_point w' = Exited).
  { destruct (offer_exec _ _ _ _ _ _ _ Ho) as [acts1 H1].
    destruct (await_exec inTime2 s1) as [acts2 H2].
    apply (exec_closes (acts1 ++ acts2) s); [|assumption..].
    by rewrite exec_app, H1. }
  unfold release, close_chan.
  destruct (dataCh (buffer (await inTime2 s1))), (flushCh (buffer (await inTime2 s1))),
    (closeCh (buffer (await inTime2 s1))); try discriminate.
  intros [= <- <-]. simpl. unfold closed in *. simpl. done.
Qed.

Lemma applyOption_unmade opt b : unmade b -> unmade (applyOption opt b).
Proof. destruct opt; simpl; exact id. Qed.

Lemma New_unmade opts : unmade (New opts).
Proof.
  unfold New. set (b0 := mkBuffer _ _ _ _ _ _ _ _ _ _).
  assert (H0 : unmade b0) by (repeat split).
  clearbody b0. revert b0 H0.
  induction opts as [|opt opts IH]; intros b0 H0; simpl; [assumption|].
  apply IH, applyOption_unmade, H0.
Qed.

(** ** Fixed options and reachable states *)

Lemma act_buffer a s s' :
  act a s = Some s' -> buffer s' = buffer s \/ buffer s' = close_done (buffer s).
Proof.
  destruct a as [ev|]; simpl; unfold iterate, Write_returns, loop_end;
    intros H; repeat case_match; simplify_eq; simpl; auto.
Qed.

Lemma act_options a s s' :
  act a s = Some s' ->
  Size (buffer s') = Size (buffer s) /\
  FlushInterval (buffer s') = FlushInterval (buffer s).
Proof. intros H. destruct (act_buffer _ _ _ H) as [-> | ->]; done. Qed.

Lemma exec_options acts : forall s s',
  exec acts s = Some s' ->
  Size (buffer s') = Size (buffer s) /\
  FlushInterval (buffer s') = FlushInterval (buffer s).
Proof.
  induction acts as [|a acts IH]; simpl; intros s s' H.
  - by injection H as <-.
  - destruct (act a s) as [s1|] eqn:E; [|discriminate].
    destruct (IH _ _ H) as [-> ->]. apply (act_options _ _ _ E).
Qed.

Lemma reachable_act a s s' : reachable s -> act a s = Some s' -> reachable s'.
Proof.
  intros (b & s0 & acts & Hi & Hfit & He) Ha. exists b, s0, (acts ++ [a]).
  split_and!; [assumption..|]. rewrite exec_app, He. simpl. by rewrite Ha.
Qed.

(** An iteration that ends inside [Write] has called the stop function of
    the current ticker first. *)
Lemma iterate_stops s w ev s1 w1 :
  goroutine s = Some w -> iterate ev s = Some s1 ->
  goroutine s1 = Some w1 -> at_point w1 = InWrite ->
  tickers s1 = stop (stopTicker w) (tickers s).
Proof.
  intros Hg E Hg1 Hp1. unfold iterate in E. rewrite Hg in E.
  destruct (at_point w) eqn:Hp; try discriminate.
  destruct ev; simpl in E; unfold loop_end in E;
    repeat case_match; simplify_eq; simpl in *; simplify_eq; simpl in *;
    congruence.
Qed.

(** ** A goroutine that died in [make] *)

Lemma act_crashed a s : crashed s = true -> act a s = None.
Proof.
  unfold crashed. destruct a; simpl; unfold iterate, Write_returns;
    repeat case_match; done.
Qed.

Lemma exec_crashed acts s s' :
  crashed s = true -> exec acts s = Some s' -> s' = s.
Proof.
  intros Hc. destruct acts as [|a acts]; simpl.
  - by intros [= <-].
  - by rewrite (act_crashed a s Hc).
Qed.

(** With a [Size] that [make] refuses, the goroutine dies before its
    first [select]. *)
Lemma initialize_dead b s0 :
  initialize (fresh b) = (s0, None) -> (maxLen < Size b)%N -> dead s0.
Proof.
  unfold initialize. simpl. destruct (validateBuffer b); [discriminate|].
  intros [= <-] Hbig. unfold consume, make. simpl.
  destruct (N.leb_spec (Size b) maxLen); [lia|]. by repeat split.
Qed.

Lemma flushed_nil s : written s = [] -> flushed s = [].
Proof. unfold flushed. by intros ->. Qed.

(** ** The claims *)

(** C1.  Exactly [Size] calls of [Push] on a new buffer with no interval
    that all return nil, with no flush request or close request in
    between, make the loop call [Flusher.Write] exactly once, with all the
    items in the order in which they were pushed.  The calls do all
    return nil when [make] does not panic and the push timeout is longer
    than the delay of the scheduler.  More generally the batches
    keep the order of arrival: after any run of the loop, the batches
    handed to the flusher, concatenated, and then the items still
    pending, are the items the loop received, in order; so the
    concatenation of the batches is the sequence of items received
    whenever nothing is pending, in particular once the loop has
    exited. *)
Theorem C1_batches_in_push_order :
  (forall (b : Buffer) (inTime : bool) (xs : list T)
          (s' : system) (rs : list outcome),
      IsIntialized b = false -> validateBuffer b = None ->
      FlushInterval b = 0 ->
      N.of_nat (length xs) = Size b ->
      pushes inTime xs (fresh b) = (s', rs) ->
      Forall (fun r => r = Return None) rs ->
      written s' = [(0%nat, xs)]) /\
  (forall (b : Buffer) (inTime : bool) (xs : list T),
      IsIntialized b = false -> validateBuffer b = None ->
      FlushInterval b = 0 ->
      N.of_nat (length xs) = Size b ->
      (Size b <= maxLen)%N ->
      delay < PushTimeout b ->
      exists s',
        pushes inTime xs (fresh b) = (s', replicate (length xs) (Return None))) /\
  (forall (b : Buffer) (s0 s : system) (acts : list action),
      initialize (fresh b) = (s0, None) -> exec acts s0 = Some s ->
      flushed s ++ pending s = received acts /\
      (pending s = [] -> flushed s = received acts) /\
      (forall w, goroutine s = Some w -> at_point w = Exited ->
                 flushed s = received acts)).
Proof.
  assert (Hfull : forall b inTime xs,
            IsIntialized b = false -> validateBuffer b = None ->
            N.of_nat (length xs) = Size b -> (Size b <= maxLen)%N ->
            expires_first inTime (PushTimeout b) = false ->
            exists s', pushes inTime xs (fresh b) =
                         (s', replicate (length xs) (Return None)) /\
                       written s' = [(0%nat, xs)]).
  { intros b inTime xs Hi Hv Hn Hfit Hx.
    destruct (Push_first inTime (hd zero xs) b Hi Hv) as (s0 & Hs0 & HP).
    destruct (wf_initialize _ _ Hs0 Hfit)
      as (w0 & Hwf & Hp & Hc & Hwr & Hsz & _ & Hbk & Hit & Hto).
    assert (Hne : xs <> []).
    { intros ->. apply validateBuffer_None in Hv. destruct Hv as [Hz _].
      simpl in Hn. lia. }
    destruct (pushes_full inTime xs s0 w0 Hwf Hp Hne) as (s' & w' & E & _ & _ & _ & Hw').
    { by rewrite Hto. }
    { rewrite Hc. unfold len. rewrite (wf_len _ _ Hwf), Hsz. lia. }
    exists s'. split.
    + destruct xs as [|x xs]; [done|]. simpl in *. rewrite HP. exact E.
    + rewrite Hw', Hwr, Hbk, (pending_idle _ _ (wf_goroutine _ _ Hwf) Hc). reflexivity. }
  split_and!.
  - intros b inTime xs s' rs Hi Hv _ Hn E Hall.
    destruct xs as [|x xs].
    { apply validateBuffer_None in Hv. destruct Hv as [Hz _]. simpl in Hn. lia. }
    assert (Hx : (Size b <= maxLen)%N /\ expires_first inTime (PushTimeout b) = false).
    { simpl in E. destruct (Push inTime x (fresh b)) as [[s1 r] ws] eqn:EP.
      destruct (pushes inTime xs s1) as [s2 rs']. injection E as <- <-.
      inversion Hall as [|? ? Hr _]. subst r.
      apply (Push_first_nil _ _ _ _ _ Hi Hv EP). }
    destruct Hx as [Hfit Hx].
    destruct (Hfull b inTime (x :: xs) Hi Hv Hn Hfit Hx) as (s'' & E' & Hwr).
    rewrite E in E'. by injection E' as -> _.
  - intros b inTime xs Hi Hv _ Hn Hfit Hx.
    destruct (Hfull b inTime xs Hi Hv Hn Hfit (expires_first_false _ _ (or_intror Hx)))
      as (s' & E & _).
    eauto.
  - intros b s0 s acts Hs0 E.
    destruct (N.leb_spec (Size b) maxLen) as [Hfit|Hbig].
    + destruct (wf_initialize _ _ Hs0 Hfit) as (w0 & Hwf & Hp & Hc & Hwr & _).
      pose proof (exec_received _ _ _ _ Hwf E) as H.
      unfold flushed at 2 in H. rewrite Hwr in H. simpl in H.
      rewrite (pending_idle _ _ (wf_goroutine _ _ Hwf) Hc) in H. simpl in H.
      split; [assumption|]. split.
      * intros Hpe. rewrite Hpe, app_nil_r in H. assumption.
      * intros w Hg Hx. destruct (wf_exec _ _ _ _ Hwf E) as [w' Hwf'].
        assert (w' = w) as -> by (pose proof (wf_goroutine _ _ Hwf'); congruence).
        pose proof (wf_point _ _ Hwf') as Hpt. rewrite Hx in Hpt. destruct Hpt as (Hc' & _).
        rewrite (pending_idle _ _ Hg Hc'), app_nil_r in H. assumption.
    + destruct (initialize_dead _ _ Hs0 Hbig) as (Hcr & _ & _ & _ & _ & Hwr & Hpe).
      assert (acts = []) as ->.
      { destruct acts as [|a acts]; [reflexivity|]. simpl in E.
        by rewrite (act_crashed a s0 Hcr) in E. }
      simpl in E. injection E as <-. rewrite (flushed_nil _ Hwr), Hpe. done.
Qed.

(** C2, as the code has it.  When [Close] times out after its request was
    accepted, the goroutine does not receive again: either the final flush
    is still running, and once [Write] has returned the goroutine closes
    [doneCh]; or the goroutine has closed [doneCh] already and the timer,
    which is then no longer than the delay of the scheduler, expired
    first.  Every later [Close] then returns [ErrClosed], not nil.  A
    later [Close] can return nil in the other case of a timeout, when the
    request was not accepted because a flush of the open loop was running:
    after [Write] has returned the request is accepted and the shutdown
    confirmed, if the close timeout is longer than the delay of the
    scheduler, so that neither timer of that call expires first.  [Close]
    returns [ErrClosed] exactly when [doneCh] is closed. *)
Theorem C2_close_after_timeout :
  (forall (s s1 : system) (inTime1 inTime2 : bool) (d : Z),
      reachable s ->
      Close inTime1 inTime2 s = (s1, closeTimedOut, [Handed d; Expired d]) ->
      exists s2 w2,
        (Write_returns s1 = Some s2 \/ (s2 = s1 /\ d <= delay)) /\
        goroutine s2 = Some w2 /\ at_point w2 = Exited /\
        closed (buffer s2) = true /\
        forall again1 again2 : bool,
          Close again1 again2 s2 = (s2, Return (Some ErrClosed), [])) /\
  (forall (s : system) (w : worker) (inTime2 : bool),
      reachable s -> goroutine s = Some w ->
      at_point w = InWrite -> isOpen w = true ->
      Close false inTime2 s =
        (s, closeTimedOut, [Expired (CloseTimeout (buffer s))]) /\
      exists s2 s3,
        Write_returns s = Some s2 /\
        closed (buffer s3) = true /\
        forall again1 again2 : bool,
          delay < CloseTimeout (buffer s) ->
          Close again1 again2 s2 =
            (s3, Return None,
             [Handed (CloseTimeout (buffer s)); Handed (CloseTimeout (buffer s))])) /\
  (forall (s : system) (inTime1 inTime2 : bool),
      (Close inTime1 inTime2 s).1.2 = Return (Some ErrClosed) <->
      closed (buffer s) = true).
Proof.
  split_and!.
  - intros s s1 inTime1 inTime2 d Hr H.
    destruct (reachable_wf _ Hr) as [w Hwf].
    unfold Close in H. destruct (closed (buffer s)) eqn:Hcl; [discriminate|].
    destruct (wf_channels _ _ Hwf) as (_ & _ & Hcc). rewrite Hcc in H.
    destruct (offer inTime1 (CloseTimeout (buffer s)) openChan closeReq s)
      as [sb r] eqn:Ho.
    destruct (wf_await inTime1 s w Hwf) as [wa Hwa].
    destruct (offer_cases _ _ _ _ _ _ _ Hwf Ho) as [(-> & _ & E) | (-> & _)];
      [|discriminate].
    destruct (iterate_Some _ _ _ _ (wf_goroutine _ _ Hwa) E) as [Hpa _].
    destruct (wf_iterate _ _ _ _ Hwa E) as [wb' Hwb'].
    destruct (wf_await inTime2 sb wb' Hwb') as [wc Hwc].
    rewrite (crashed_false _ _ Hwc) in H.
    destruct (Z_gtb_count _ _ Hwa Hpa) as [Hc|Hc].
    + destruct (iterate_request_pending _ wa closeReq Hwa Hpa eq_refl eq_refl Hc)
        as (sb' & wb & E' & Hwb & _ & _ & Hpb & Hob & _).
      rewrite E in E'. injection E' as <-. simpl in Hob.
      destruct (Write_returns_spec sb wb Hwb Hpb)
        as (s2 & w2 & E2 & Hw2 & _ & _ & _ & _ & _ & _ & _ & Hp2 & Hd2 & _).
      rewrite Hob in Hp2, Hd2.
      assert (Hcl2 : closed (buffer s2) = true) by (unfold closed; by rewrite Hd2).
      destruct (await_cases inTime2 sb wb Hwb) as [Ha | (_ & -> & Ha)].
      * rewrite Ha in H.
        rewrite (closed_false _ _ Hwb) in H by (rewrite Hpb; discriminate).
        injection H as <- _. exists s2, w2. split_and!; try done.
        -- by left.
        -- apply (wf_goroutine _ _ Hw2).
        -- intros again1 again2. unfold Close. by rewrite Hcl2.
      * rewrite E2 in Ha. injection Ha as Ha. rewrite <- Ha, Hcl2 in H.
        simpl in H. destruct (release (buffer s2)); discriminate.
    + destruct (iterate_close_idle _ wa Hwa Hpa Hc)
        as (sb' & wb & E' & Hwb & Hpb & Hdb & _).
      rewrite E in E'. injection E' as <-.
      rewrite (await_idle _ _ _ (wf_goroutine _ _ Hwb)) in H
        by (rewrite Hpb; discriminate).
      assert (Hclb : closed (buffer sb) = true) by (unfold closed; by rewrite Hdb).
      rewrite Hclb in H. simpl in H.
      destruct (expires_first inTime2 (CloseTimeout (buffer s))) eqn:Hx; simpl in H;
        [|destruct (release (buffer sb)); discriminate].
      injection H as <- <-. exists sb, wb. split_and!; try done.
      * right. split; [reflexivity|]. apply (expires_first_true _ _ Hx).
      * apply (wf_goroutine _ _ Hwb).
      * intros again1 again2. unfold Close. by rewrite Hclb.
  - intros s w inTime2 Hr Hg Hp Ho.
    pose proof (reachable_goroutine _ _ Hr Hg) as Hwf.
    destruct (wf_channels _ _ Hwf) as (Hdc & Hfc & Hcc). split.
    + unfold Close. rewrite (closed_false _ _ Hwf) by (rewrite Hp; discriminate).
      rewrite Hcc. unfold offer, await. rewrite andb_false_r.
      rewrite (crashed_false _ _ Hwf).
      rewrite (iterate_busy _ _ _ Hg) by (rewrite Hp; discriminate).
      by destruct (expires_first _ _).
    + destruct (Write_returns_spec s w Hwf Hp)
        as (s2 & w2 & E2 & Hw2 & Hc2 & _ & _ & _ & _ & _ & _ & Hp2 & _).
      rewrite Ho in Hp2.
      destruct (iterate_close_idle s2 w2 Hw2 Hp2 Hc2)
        as (s3 & w3 & E3 & Hw3 & Hp3 & Hd3 & _).
      destruct (wf_channels _ _ Hw3) as (Hd & Hf & Hc).
      assert (Hb2 : CloseTimeout (buffer s2) = CloseTimeout (buffer s)).
      { by destruct (act_buffer Returns _ _ E2) as [-> | ->]. }
      exists s2.
      exists (mkSystem (mkBuffer closedChan closedChan closedChan (doneCh (buffer s3))
                          (Size (buffer s3)) (Flusher (buffer s3))
                          (FlushInterval (buffer s3)) (PushTimeout (buffer s3))
                          (FlushTimeout (buffer s3)) (CloseTimeout (buffer s3)))
                (goroutine s3) (tickers s3) (arrays s3) (written s3)).
      split; [assumption|]. split; [simpl; unfold closed; simpl; by rewrite Hd3|].
      intros again1 again2 Hx. unfold Close.
      pose proof (or_intror Hx : again1 = true \/ delay < CloseTimeout (buffer s)) as Hx1.
      pose proof (or_intror Hx : again2 = true \/ delay < CloseTimeout (buffer s)) as Hx2.
      rewrite (closed_false _ _ Hw2) by (rewrite Hp2; discriminate).
      destruct (wf_channels _ _ Hw2) as (_ & _ & ->).
      rewrite (offer_at_select _ _ _ _ _ _ Hw2 Hp2 E3). rewrite Hb2.
      rewrite (expires_first_false _ _ Hx1).
      rewrite (await_idle _ _ _ (wf_goroutine _ _ Hw3)) by (rewrite Hp3; discriminate).
      rewrite (crashed_false _ _ Hw3), (expires_first_false _ _ Hx2).
      unfold closed. rewrite Hd3. simpl.
      unfold release. rewrite Hd, Hf, Hc. simpl. by rewrite Hd3.
  - intros s inTime1 inTime2. unfold Close.
    destruct (closed (buffer s)); simpl; [done|].
    split; [|discriminate].
    destruct (offer _ _ _ _ _) as [s1 [[|]|]]; simpl; try discriminate.
    destruct (crashed _); simpl; try discriminate.
    destruct (_ && _); simpl; try discriminate.
    destruct (release _); simpl; discriminate.
Qed.

(** C3.  On a close request the loop makes a final flush if and only if
    items are pending: [Flusher.Write] is called once more, with exactly
    the pending items, and while it runs [doneCh] is still open and no
    request is received; only when it has returned is [doneCh] closed and
    the goroutine gone.  With nothing pending the flusher is not called
    and [doneCh] is closed at once.  After that the loop receives nothing.
    With [Size] 2, one [Push] and then [Close] hand the batch of that one
    item to the flusher, once; this with the default timeouts, of one
    second, which are taken to be longer than the delay of the scheduler,
    and items of which [make] makes a slice of two. *)
Theorem C3_close_flushes_then_signals :
  (forall (s : system) (w : worker),
      reachable s -> goroutine s = Some w -> at_point w = AtSelect ->
      (0 < count w ->
         exists s1 s2 w2,
           iterate closeReq s = Some s1 /\
           pending s <> [] /\
           written s1 = written s ++ [(backing w, pending s)] /\
           doneCh (buffer s1) = openChan /\
           (forall ev, iterate ev s1 = None) /\
           Write_returns s1 = Some s2 /\
           written s2 = written s1 /\
           doneCh (buffer s2) = closedChan /\
           goroutine s2 = Some w2 /\ at_point w2 = Exited /\
           (forall a, act a s2 = None)) /\
      (count w = 0 ->
         exists s2 w2,
           iterate closeReq s = Some s2 /\
           pending s = [] /\
           written s2 = written s /\
           doneCh (buffer s2) = closedChan /\
           goroutine s2 = Some w2 /\ at_point w2 = Exited /\
           (forall a, act a s2 = None))) /\
  (forall (x : T) (inTime inTime1 inTime2 : bool),
      (2 <= maxLen)%N -> delay < Second ->
      let b := New [WithSize 2; WithFlusher (Some sink)] in
      let s1 := (Push inTime x (fresh b)).1.1 in
      (Push inTime x (fresh b)).1.2 = Return None /\
      written s1 = [] /\
      written (Close inTime1 inTime2 s1).1.1 = [(0%nat, [x])] /\
      (Close inTime1 true s1).1.2 = Return None).
Proof.
  split.
  - intros s w Hr Hg Hp. pose proof (reachable_goroutine _ _ Hr Hg) as Hwf. split.
    + intros Hc.
      destruct (iterate_request_pending s w closeReq Hwf Hp eq_refl eq_refl Hc)
        as (s1 & w1 & E1 & Hwf1 & _ & _ & Hp1 & Ho1 & _ & _ & _ & _ & _ & Hwr1).
      destruct (Write_returns_spec s1 w1 Hwf1 Hp1)
        as (s2 & w2 & E2 & Hwf2 & _ & _ & _ & _ & _ & Hwr2 & _ & Hp2 & Hd2 & _).
      rewrite Ho1 in Hp2, Hd2. simpl in Hp2, Hd2.
      pose proof (wf_point _ _ Hwf1) as Hpt1. rewrite Hp1 in Hpt1.
      destruct Hpt1 as (_ & Hd1 & _).
      exists s1, s2, w2. split_and!; try done.
      * intros Hnil. pose proof (pending_length _ _ Hwf Hp) as Hl.
        rewrite Hnil in Hl. simpl in Hl. lia.
      * intros ev. apply (iterate_busy _ _ _ (wf_goroutine _ _ Hwf1)).
        rewrite Hp1. discriminate.
      * apply (wf_goroutine _ _ Hwf2).
      * intros a. apply (act_Exited _ _ _ (wf_goroutine _ _ Hwf2) Hp2).
    + intros Hc.
      destruct (iterate_close_idle s w Hwf Hp Hc)
        as (s2 & w2 & E2 & Hwf2 & Hp2 & Hd2 & Hwr2 & _).
      exists s2, w2. split_and!; try done.
      * apply (pending_idle _ _ Hg Hc).
      * apply (wf_goroutine _ _ Hwf2).
      * intros a. apply (act_Exited _ _ _ (wf_goroutine _ _ Hwf2) Hp2).
  - intros x inTime inTime1 inTime2 Hm Hl b s1. subst s1.
    assert (Hi : IsIntialized b = false) by reflexivity.
    assert (Hv : validateBuffer b = None) by reflexivity.
    destruct (Push_first inTime x b Hi Hv) as (s0 & Hs0 & ->).
    destruct (wf_initialize _ _ Hs0 Hm)
      as (w0 & Hwf0 & Hp0 & Hc0 & Hwr0 & Hsz0 & _ & Hbk0 & _ & Hto0).
    destruct (iterate_item s0 w0 x Hwf0 Hp0)
      as (sa & wa & Ea & Hwfa & Hba & Hbka & _ & _ & H).
    assert (Hlen : len (items w0) = 2).
    { unfold len. rewrite (wf_len _ _ Hwf0), Hsz0. reflexivity. }
    rewrite Hc0, Hlen in H. simpl in H. destruct H as (Hpa & Hca & Hpea & Hwra & _).
    rewrite (pending_idle _ _ (wf_goroutine _ _ Hwf0) Hc0) in Hpea. simpl in Hpea.
    rewrite (Push_at_select _ _ _ _ _ Hwf0 Hp0 Ea), Hto0.
    rewrite (expires_first_false inTime (PushTimeout b)) by (right; exact Hl).
    simpl.
    assert (Hct : CloseTimeout (buffer sa) = Second).
    { rewrite Hba. unfold initialize in Hs0. simpl in Hs0. injection Hs0 as <-.
      by rewrite buffer_consume. }
    destruct (iterate_request_pending sa wa closeReq Hwfa Hpa eq_refl eq_refl)
      as (sb & wb & Eb & Hwfb & _ & _ & Hpb & Hob & _ & _ & Hbkb & _ & _ & Hwrb); [lia|].
    simpl in Hob.
    destruct (Write_returns_spec sb wb Hwfb Hpb)
      as (sc & wc & Ec & Hwfc & _ & _ & _ & _ & _ & Hwrc & _ & Hpc & Hdc & _).
    rewrite Hob in Hpc, Hdc.
    assert (HC : forall i2,
              written (Close inTime1 i2 sa).1.1 = [(0%nat, [x])] /\
              (i2 = true -> (Close inTime1 i2 sa).1.2 = Return None)).
    { intros i2. unfold Close.
      rewrite (closed_false _ _ Hwfa) by (rewrite Hpa; discriminate).
      destruct (wf_channels _ _ Hwfa) as (_ & _ & ->).
      rewrite (offer_at_select _ _ _ _ _ _ Hwfa Hpa Eb), Hct.
      rewrite (expires_first_false inTime1 Second) by (right; exact Hl).
      assert (Hwb : written sb = [(0%nat, [x])]).
      { rewrite Hwrb, Hwra, Hwr0, Hbka, Hbk0, Hpea. reflexivity. }
      unfold await. rewrite (writing_true _ _ (wf_goroutine _ _ Hwfb) Hpb).
      destruct i2; simpl.
      - rewrite Ec, (crashed_false _ _ Hwfc). unfold closed. rewrite Hdc. simpl.
        destruct (wf_channels _ _ Hwfc) as (Hd & Hf & Hc).
        unfold release. rewrite Hd, Hf, Hc. simpl. split; [congruence | done].
      - rewrite (crashed_false _ _ Hwfb).
        rewrite (closed_false _ _ Hwfb) by (rewrite Hpb; discriminate).
        simpl. split; [assumption | discriminate]. }
    split_and!; [reflexivity | congruence | apply HC | by apply HC].
Qed.

(** C4.  At its [select] the loop accepts a flush request.  Accepted
    while N items are pending, N > 0 (and N is below [Size] whenever the
    loop is at its [select]), the request makes exactly one call of
    [Flusher.Write], with those N items, which are the items received
    since the last flush in the order in which they were received; until
    [Write] has returned the loop receives nothing, and then it goes on
    with an empty batch.  Accepted while nothing is pending, the request
    does not call the flusher and changes nothing.  [Flush] returns nil
    exactly when its request is accepted, whether or not there was
    anything to flush; it is not accepted only when the timer expires
    first, which a timer longer than the delay of the scheduler does
    not. *)
Theorem C4_manual_flush :
  forall (s : system) (w : worker) (inTime : bool),
    reachable s -> goroutine s = Some w -> at_point w = AtSelect ->
    exists sa : system,
      iterate flushReq s = Some sa /\
      (0 < count w ->
         count w < Z.of_N (Size (buffer s)) /\
         Z.of_nat (length (pending s)) = count w /\
         written sa = written s ++ [(backing w, pending s)] /\
         (forall ev, iterate ev sa = None) /\
         exists s2 w2,
           Write_returns sa = Some s2 /\ written s2 = written sa /\
           goroutine s2 = Some w2 /\ at_point w2 = AtSelect /\ pending s2 = []) /\
      (count w = 0 -> sa = s) /\
      (forall (s1 : system) (r : outcome) (ws : list wait),
          Flush inTime s = (s1, r, ws) ->
          (r = Return None /\ s1 = sa /\
           ws = [Handed (FlushTimeout (buffer s))]) \/
          (r = timed_out "failed to flush buffer within flush timeout" /\ s1 = s /\
           ws = [Expired (FlushTimeout (buffer s))] /\
           inTime = false /\ FlushTimeout (buffer s) <= delay)) /\
      (inTime = true \/ delay < FlushTimeout (buffer s) ->
       Flush inTime s = (sa, Return None, [Handed (FlushTimeout (buffer s))])) /\
      (forall xs : list T,
          count w = 0 ->
          (0 < length xs)%nat -> (N.of_nat (length xs) < Size (buffer s))%N ->
          exists s1 s2,
            exec (map (fun x => Recv (item x)) xs) s = Some s1 /\
            pending s1 = xs /\ written s1 = written s /\
            iterate flushReq s1 = Some s2 /\
            written s2 = written s ++ [(backing w, xs)]).
Proof.
  intros s w inTime Hr Hg Hp. pose proof (reachable_goroutine _ _ Hr Hg) as Hwf.
  pose proof (wf_point _ _ Hwf) as Hpt. rewrite Hp in Hpt. destruct Hpt as (Hc & _).
  assert (Hlen : len (items w) = Z.of_N (Size (buffer s))).
  { unfold len. rewrite (wf_len _ _ Hwf). lia. }
  assert (HF : exists s1,
            iterate flushReq s = Some s1 /\
            (0 < count w ->
             written s1 = written s ++ [(backing w, pending s)] /\
             (forall ev, iterate ev s1 = None) /\
             exists s2 w2,
               Write_returns s1 = Some s2 /\ written s2 = written s1 /\
               goroutine s2 = Some w2 /\ at_point w2 = AtSelect /\ pending s2 = []) /\
            (count w = 0 -> s1 = s)).
  { destruct (Z_gtb_count _ _ Hwf Hp) as [Hpos|Hz].
    - destruct (Flush_pending inTime s w Hwf Hp Hpos)
        as (s1 & s2 & w2 & E & _ & Hwr & Hb & H).
      exists s1. split; [assumption|]. split; [|lia]. intros _. eauto 10.
    - exists s. split; [|split; [lia | done]].
      apply (iterate_request_idle s w flushReq Hwf Hp eq_refl eq_refl eq_refl Hz). }
  destruct HF as (sF & E & Hpos & Hzero).
  pose proof (Flush_at_select inTime s w sF Hwf Hp E) as HFl.
  exists sF. split_and!; try assumption.
  - intros Hc0. destruct (Hpos Hc0) as (Hwr & Hb & H).
    split_and!; [lia | apply (pending_length _ _ Hwf Hp) | assumption..].
  - intros s1 r ws. rewrite HFl.
    destruct (expires_first inTime (FlushTimeout (buffer s))) eqn:Hx; intros [= <- <- <-].
    + right. destruct (expires_first_true _ _ Hx). by split_and!.
    + left. by split_and!.
  - intros Hx. by rewrite HFl, (expires_first_false _ _ Hx).
  - intros xs Hz Hn Hlt.
    destruct (receive_room xs s w Hwf Hp)
      as (s1 & w1 & E1 & Hwf1 & Hp1 & Hc1 & Hpe1 & Hwr1 & Hb1 & Hbk1); [lia|].
    destruct (iterate_request_pending s1 w1 flushReq Hwf1 Hp1 eq_refl eq_refl)
      as (s2 & w2 & E2 & _ & _ & _ & _ & _ & _ & _ & _ & _ & _ & Hwr2); [lia|].
    rewrite (pending_idle _ _ Hg Hz) in Hpe1. simpl in Hpe1.
    exists s1, s2. split_and!; try done.
    rewrite Hwr2, Hwr1, Hbk1, Hpe1. reflexivity.
Qed.

(** C5.  Once a call of [Close] has returned nil, every later call of
    [Push], [Flush] or [Close] returns [ErrClosed] without entering a
    [select], so without waiting for any timer, and changes nothing; nor
    does anything else: the goroutine is gone, no tick is received and no
    flusher runs. *)
Theorem C5_closed_after_close :
  forall (s s' : system) (inTime1 inTime2 : bool) (ws : list wait),
    Close inTime1 inTime2 s = (s', Return None, ws) ->
    (forall c : call, invoke c s' = (s', Return (Some ErrClosed), [])) /\
    (forall hs : list happening,
        invoke_all hs s' =
          (s', replicate (length (calls hs)) (Return (Some ErrClosed), []))).
Proof.
  intros s s' inTime1 inTime2 ws H.
  destruct (Close_nil _ _ _ _ _ H) as (Hc & Hi & _ & _ & w' & Hg & Hp).
  split; [intros c; apply (invoke_closed _ _ Hc Hi)|].
  induction hs as [|[c| |] hs IH]; simpl; [reflexivity|..].
  - rewrite (invoke_closed _ _ Hc Hi), IH. reflexivity.
  - pose proof (act_Exited _ _ (Recv tick) Hg Hp) as Ht. simpl in Ht.
    rewrite Ht. exact IH.
  - pose proof (act_Exited _ _ Returns Hg Hp) as Ht. simpl in Ht.
    rewrite Ht. exact IH.
Qed.

(** C6, as the code has it.  [validateBuffer] checks the rules in a fixed
    order (size, flusher, flush interval, push timeout, flush timeout,
    close timeout) and returns at the first one that fails: its result is
    the first of the violations, and nil exactly when no rule fails.  Any
    failure aborts initialization: [initialize] and the first [Push] return
    that error and start nothing. *)
Theorem C6_validation_reports_first_failure :
  forall b : Buffer,
    validateBuffer b = head (violations b) /\
    (validateBuffer b = None <-> violations b = []) /\
    (validateBuffer b = None <-> valid b) /\
    (forall e : error,
        validateBuffer b = Some e ->
        initialize (fresh b) = (fresh b, Some e) /\
        (IsIntialized b = false ->
         forall (inTime : bool) (x : T),
           Push inTime x (fresh b) = (fresh b, Return (Some e), []))).
Proof.
  intros b.
  assert (Hhd : validateBuffer b = head (violations b)).
  { unfold validateBuffer, violations, check_size, check_flusher, check_interval,
      check_push_timeout, check_flush_timeout, check_close_timeout. simpl.
    repeat case_match; reflexivity. }
  split_and!.
  - exact Hhd.
  - rewrite Hhd. destruct (violations b); simpl; split; (done || discriminate).
  - apply validateBuffer_None.
  - intros e He. split.
    + unfold initialize. simpl. rewrite He. reflexivity.
    + intros Hi inTime x. unfold Push. simpl. rewrite Hi. unfold Validate.
      rewrite He. reflexivity.
Qed.

(** C7.  A tick received while the batch is empty does not flush: the
    state does not change and the flusher is not called.  In every flush,
    whatever the event that caused it (an item that fills the batch, a
    tick, a flush request, a close request), the current timer, which is
    running a ticker of period [FlushInterval], is stopped before
    [Flusher.Write] is called, so that no ticker runs while the flusher
    does; and when [Write] has returned a timer is started that did not
    exist before, a ticker of period [FlushInterval] again, which is
    running when the loop goes on (and is stopped again at once when the
    loop exits): the interval is counted from the end of the last flush.
    This is so for every buffer that has a timer, that is, whose interval
    is not zero; with an interval of zero [newTicker] makes no timer,
    before the flush or after it. *)
Theorem C7_timer_restarts_after_flush :
  (forall (s : system) (w : worker),
      reachable s -> goroutine s = Some w -> at_point w = AtSelect ->
      count w = 0 ->
      (forall s', iterate tick s = Some s' -> s' = s) /\
      (ticker w <> None -> iterate tick s = Some s)) /\
  (forall (s s1 : system) (w w1 : worker) (ev : event),
      reachable s -> goroutine s = Some w ->
      iterate ev s = Some s1 ->
      goroutine s1 = Some w1 -> at_point w1 = InWrite ->
      (forall i, ticker w = Some i ->
                 exists t, tickers s !! i = Some t /\ stopped t = false /\
                           period t = FlushInterval (buffer s)) /\
      tickers s1 = stop (stopTicker w) (tickers s) /\
      (forall i t, tickers s1 !! i = Some t -> stopped t = true) /\
      exists s2 w2,
        Write_returns s1 = Some s2 /\ goroutine s2 = Some w2 /\
        written s2 = written s1 /\
        (FlushInterval (buffer s) = 0 ->
           ticker w = None /\ ticker w2 = None /\ stopTicker w2 = None /\
           tickers s2 = tickers s1) /\
        (FlushInterval (buffer s) <> 0 ->
           ticker w2 = Some (length (tickers s1)) /\
           stopTicker w2 = Some (length (tickers s1)) /\
           ticker w2 <> ticker w /\
           tickers s2 =
             tickers s1 ++
               [mkTicker (FlushInterval (buffer s)) (negb (isOpen w2))])).
Proof.
  split.
  - intros s w Hr Hg Hp Hc. pose proof (reachable_goroutine _ _ Hr Hg) as Hwf. split.
    + intros s' E. destruct (iterate_Some _ _ _ _ Hg E) as [_ Hrx].
      rewrite (iterate_request_idle s w tick Hwf Hp eq_refl eq_refl Hrx Hc) in E.
      by injection E.
    + intros Htk. apply (iterate_request_idle s w tick Hwf Hp eq_refl eq_refl); [|done].
      simpl. destruct (ticker w); done.
  - intros s s1 w w1 ev Hr Hg E Hg1 Hp1.
    pose proof (reachable_goroutine _ _ Hr Hg) as Hwf.
    destruct (iterate_Some _ _ _ _ Hg E) as [Hp _].
    destruct (wf_iterate _ _ _ _ Hwf E) as [w1' Hwf1].
    assert (w1' = w1) as -> by (pose proof (wf_goroutine _ _ Hwf1); congruence).
    pose proof (iterate_stops _ _ _ _ _ Hg E Hg1 Hp1) as Hts.
    destruct (act_options (Recv ev) _ _ E) as [_ Hiv].
    destruct (Write_returns_spec s1 w1 Hwf1 Hp1)
      as (s2 & w2 & E2 & Hwf2 & _ & _ & _ & _ & _ & Hwr & Ho & _ & _ & _ & _ & H0 & Hn0).
    rewrite Hiv in H0, Hn0. split_and!.
    + intros i Hi. destruct (wf_ticker _ _ Hwf i Hi) as (t & Ht & Hpe & Hrun).
      exists t. auto.
    + assumption.
    + intros i t Hi. destruct (stopped t) eqn:Hs; [reflexivity|].
      destruct (wf_running _ _ Hwf1 i t Hi Hs) as [_ Hx]. congruence.
    + exists s2, w2. split_and!; try done.
      * apply (wf_goroutine _ _ Hwf2).
      * intros Hz. destruct (H0 Hz) as [Htk2 Hts2]. split_and!; try done.
        -- by apply (wf_nil _ _ Hwf).
        -- rewrite (wf_stop _ _ Hwf2). assumption.
      * intros Hnz. destruct (Hn0 Hnz) as [Htk2 Hts2]. rewrite Ho.
        split_and!; try done.
        -- rewrite (wf_stop _ _ Hwf2). assumption.
        -- rewrite Htk2. intros Heq. symmetry in Heq.
           destruct (wf_ticker _ _ Hwf _ Heq) as (t & Ht & _).
           apply lookup_lt_Some in Ht. rewrite Hts, length_stop in Ht. lia.
Qed.

(** C8.  In every reachable state of the loop the number of pending items
    is at most [Size] (the slice has length [Size] and [count] lies between
    0 and [Size]); the events of the loop lead from reachable states to
    reachable states, so every event preserves the bound.  Every flush ends
    with [count] zero, no item pending, and a new slice of [Size] zero
    values in a backing array that had not been allocated before: it is
    not the array of the batch being written, and no array ever handed to
    the flusher. *)
Theorem C8_batch_within_capacity :
  (forall (s : system) (w : worker),
      reachable s -> goroutine s = Some w ->
      0 <= count w <= Z.of_N (Size (buffer s)) /\
      len (items w) = Z.of_N (Size (buffer s)) /\
      Z.of_nat (length (pending s)) <= Z.of_N (Size (buffer s))) /\
  (forall (s s' : system) (a : action),
      reachable s -> act a s = Some s' -> reachable s') /\
  (forall (s : system) (w : worker),
      reachable s -> goroutine s = Some w -> at_point w = InWrite ->
      exists s' w',
        Write_returns s = Some s' /\ goroutine s' = Some w' /\
        count w' = 0 /\ pending s' = [] /\
        make (Size (buffer s)) = Some (items w') /\
        backing w' = arrays s /\ backing w' <> backing w /\
        forall a batch, (a, batch) ∈ written s' -> a <> backing w').
Proof.
  split_and!.
  - intros s w Hr Hg. pose proof (reachable_goroutine _ _ Hr Hg) as Hwf.
    pose proof (wf_point _ _ Hwf) as Hpt. pose proof (wf_len _ _ Hwf) as Hl.
    assert (Hlen : len (items w) = Z.of_N (Size (buffer s))) by (unfold len; lia).
    assert (Hc : 0 <= count w <= Z.of_N (Size (buffer s))).
    { destruct (at_point w); try done; lia. }
    split_and!; try done; try lia.
    unfold pending. rewrite Hg. destruct (at_point w); simpl; rewrite ?length_take; lia.
  - intros s s' a Hr Ha. apply (reachable_act _ _ _ Hr Ha).
  - intros s w Hr Hg Hp. pose proof (reachable_goroutine _ _ Hr Hg) as Hwf.
    destruct (Write_returns_spec s w Hwf Hp)
      as (s' & w' & E & Hwf' & Hc & Hit & Hpe & Hbk & _ & Hwr & _).
    exists s', w'. split_and!; try done.
    + apply (wf_goroutine _ _ Hwf').
    + pose proof (wf_backing _ _ Hwf). lia.
    + intros a batch Hin. rewrite Hwr in Hin.
      pose proof (wf_written _ _ Hwf) as Hall. rewrite Forall_forall in Hall.
      destruct (Hall _ Hin) as (Hlt & _). simpl in Hlt. lia.
Qed.

(** C9.  On a buffer made by [New], whatever the options, on which [Push]
    has not been called, [Flush] and [Close] leave the buffer as it is (no
    channel is made, no goroutine started, the options are not validated:
    the result is the same for options that [validateBuffer] rejects), wait
    until their timer expires, and return an error that is [ErrTimeout]
    and is not [ErrClosed]. *)
Theorem C9_flush_close_before_first_push :
  forall (opts : list Option) (inTime inTime1 inTime2 : bool),
    let b := New opts in
    let flushErr :=
      joinError (errorString "failed to flush buffer within flush timeout")
        ErrTimeout in
    let closeErr :=
      joinError (errorString "failed to close buffer within close timeout")
        ErrTimeout in
    IsIntialized b = false /\
    Flush inTime (fresh b) =
      (fresh b, Return (Some flushErr), [Expired (FlushTimeout b)]) /\
    Close inTime1 inTime2 (fresh b) =
      (fresh b, Return (Some closeErr), [Expired (CloseTimeout b)]) /\
    errors_Is flushErr ErrTimeout = true /\ errors_Is flushErr ErrClosed = false /\
    errors_Is closeErr ErrTimeout = true /\ errors_Is closeErr ErrClosed = false /\
    validateBuffer b <> Some flushErr /\ validateBuffer b <> Some closeErr.
Proof.
  intros opts inTime inTime1 inTime2 b flushErr closeErr.
  destruct (New_unmade opts) as (Hd & Hf & Hc & Hn). fold b in Hd, Hf, Hc, Hn.
  split_and!; try reflexivity.
  - unfold IsIntialized. rewrite Hd. reflexivity.
  - unfold Flush, closed. simpl. rewrite Hn, Hf. reflexivity.
  - unfold Close, closed. simpl. rewrite Hn, Hc. reflexivity.
  - unfold validateBuffer, fmt_Errorf. repeat case_match; discriminate.
  - unfold validateBuffer, fmt_Errorf. repeat case_match; discriminate.
Qed.

(** C10.  With options that [validateBuffer] accepts ([Size] is then at
    least 1), every slice the loop passes to [Flusher.Write], whatever the
    event that caused the flush, has at least one item and at most [Size]
    items. *)
Theorem C10_written_batches_nonempty :
  forall (b : Buffer) (acts : list action) (s : system)
         (a : nat) (batch : list T),
    validateBuffer b = None ->
    exec acts (initialize (fresh b)).1 = Some s ->
    (a, batch) ∈ written s ->
    (1 <= Size b)%N /\ (1 <= length batch <= N.to_nat (Size b))%nat.
Proof.
  intros b acts s a batch Hv He Hin.
  assert (Hi : initialize (fresh b) = ((initialize (fresh b)).1, None)).
  { unfold initialize. simpl. rewrite Hv. reflexivity. }
  destruct (N.leb_spec (Size b) maxLen) as [Hfit|Hbig].
  - destruct (wf_initialize _ _ Hi Hfit) as (w0 & Hwf0 & _ & _ & _ & Hsz & _).
    destruct (wf_exec _ _ _ _ Hwf0 He) as [w Hwf].
    destruct (exec_options _ _ _ He) as [Hsz' _].
    pose proof (wf_written _ _ Hwf) as Hall. rewrite Forall_forall in Hall.
    destruct (Hall _ Hin) as (_ & _ & Hlen). simpl in Hlen.
    rewrite Hsz', Hsz in Hlen. split; lia.
  - destruct (initialize_dead _ _ Hi Hbig) as (Hcr & _ & _ & _ & _ & Hwr & _).
    rewrite (exec_crashed _ _ _ Hcr He), Hwr in Hin. by apply not_elem_of_nil in Hin.
Qed.

(** ** Further properties: the options *)

(** Of two options for the same field the later one wins; options for
    different fields can be given in either order. *)
Theorem options_override_and_commute :
  forall (opts : list Option) (o1 o2 : Option),
    (sets o1 = sets o2 -> New (opts ++ [o1; o2]) = New (opts ++ [o2])) /\
    (sets o1 <> sets o2 -> New (opts ++ [o1; o2]) = New (opts ++ [o2; o1])).
Proof.
  intros opts o1 o2. unfold New. rewrite !fold_left_app. simpl.
  split; intros H; destruct o1, o2; simpl in *; try reflexivity; done.
Qed.

Lemma New_snoc opts opt : New (opts ++ [opt]) = applyOption opt (New opts).
Proof. unfold New. by rewrite fold_left_app. Qed.

Lemma New_unset (P : Buffer -> Prop) (f : field) (opts : list Option) :
  (forall opt b, sets opt <> f -> P b -> P (applyOption opt b)) ->
  P (New []) ->
  Forall (fun opt => sets opt <> f) opts ->
  P (New opts).
Proof.
  intros Hstep H0 Hall. induction opts as [|opt opts IH] using rev_ind; [assumption|].
  apply Forall_app in Hall as [Hall Hopt]. rewrite New_snoc.
  apply Hstep; [by inversion Hopt | auto].
Qed.

(** The size and the flusher have no usable default: on a buffer made
    without [WithSize] the first [Push] returns the size error, and on one
    made with a size and without [WithFlusher] the flusher error; in both
    cases nothing is started. *)
Theorem required_options :
  forall (opts : list Option) (inTime : bool) (x : T),
    (Forall (fun opt => sets opt <> SizeField) opts ->
     Push inTime x (fresh (New opts)) =
       (fresh (New opts), Return (Some (errorString invalidSize)), [])) /\
    (Forall (fun opt => sets opt <> FlusherField) opts ->
     Size (New opts) <> 0%N ->
     Push inTime x (fresh (New opts)) =
       (fresh (New opts), Return (Some (errorString invalidFlusher)), [])).
Proof.
  intros opts inTime x.
  assert (Hi : IsIntialized (New opts) = false).
  { destruct (New_unmade opts) as (Hd & _). unfold IsIntialized. by rewrite Hd. }
  split.
  - intros Hall.
    assert (Hs : Size (New opts) = 0%N).
    { apply (New_unset (fun b => Size b = 0%N) SizeField); [|reflexivity|assumption].
      intros opt b Hne Hb. destruct opt; simpl in *; done. }
    unfold Push. simpl. rewrite Hi. unfold Validate, validateBuffer. rewrite Hs. reflexivity.
  - intros Hall Hsz.
    assert (Hf : Flusher (New opts) = None).
    { apply (New_unset (fun b => Flusher b = None) FlusherField); [|reflexivity|assumption].
      intros opt b Hne Hb. destruct opt; simpl in *; done. }
    unfold Push. simpl. rewrite Hi. unfold Validate, validateBuffer.
    destruct (N.eqb_spec (Size (New opts)) 0); [done|]. rewrite Hf. reflexivity.
Qed.

(** [validateBuffer] names the field it rejects, as [fmt.Errorf] formats
    it, and the bound itself is accepted: an interval or a timeout of zero
    passes, although the message for the interval says it must be greater
    than zero. *)
Theorem validateBuffer_messages :
  forall b : Buffer,
    Size b <> 0%N -> Flusher b <> None ->
    (FlushInterval b < 0 ->
     validateBuffer b =
       Some (errorString "interval must be greater than zero (FlushInterval)")) /\
    (0 <= FlushInterval b -> PushTimeout b < 0 ->
     validateBuffer b =
       Some (errorString "timeout cannot be negative (PushTimeout)")) /\
    (0 <= FlushInterval b -> 0 <= PushTimeout b -> FlushTimeout b < 0 ->
     validateBuffer b =
       Some (errorString "timeout cannot be negative (FlushTimeout)")) /\
    (0 <= FlushInterval b -> 0 <= PushTimeout b -> 0 <= FlushTimeout b ->
     CloseTimeout b < 0 ->
     validateBuffer b =
       Some (errorString "timeout cannot be negative (CloseTimeout)")) /\
    (FlushInterval b = 0 -> PushTimeout b = 0 -> FlushTimeout b = 0 ->
     CloseTimeout b = 0 -> validateBuffer b = None).
Proof.
  intros b Hs Hf. unfold validateBuffer.
  destruct (N.eqb_spec (Size b) 0); [done|]. case_bool_decide; [done|].
  split_and!; intros;
    repeat match goal with
           | |- context [?x <? 0] => destruct (Z.ltb_spec x 0); try lia
           end; reflexivity.
Qed.

(** ** Further properties: the loop *)

(** Once [make] has made the first slice, the loop of a started buffer
    does not panic by itself and is never stuck: the goroutine is at its
    [select], inside [Write] or gone; at its [select] it takes every event
    that can be sent to it (a tick only from a ticker), and inside [Write]
    it goes on as soon as the flusher returns.  In particular
    [items[count]] is never out of range, [Write] is never called on a
    nil interface, [make] is called again with the same [Size] only, and
    [doneCh] is never closed twice.  What the flusher does inside [Write]
    is its own affair. *)
Theorem loop_never_panics :
  forall (s : system) (w : worker),
    reachable s -> goroutine s = Some w ->
    at_point w <> Panicked /\
    (at_point w = AtSelect ->
     forall ev, receivable ev w = true ->
                exists s' w', iterate ev s = Some s' /\ goroutine s' = Some w' /\
                              at_point w' <> Panicked) /\
    (at_point w = InWrite ->
     exists s' w', Write_returns s = Some s' /\ goroutine s' = Some w' /\
                   at_point w' <> Panicked).
Proof.
  intros s w Hr Hg. pose proof (reachable_goroutine _ _ Hr Hg) as Hwf.
  assert (Hnp : forall s1 w1, wf s1 w1 -> at_point w1 <> Panicked).
  { intros s1 w1 H1 Hp. pose proof (wf_point _ _ H1) as Hpt. by rewrite Hp in Hpt. }
  split_and!.
  - apply (Hnp _ _ Hwf).
  - intros Hp ev Hrx.
    assert (E : exists s', iterate ev s = Some s').
    { destruct (request ev) eqn:Hev.
      - destruct (Z_gtb_count _ _ Hwf Hp) as [Hc|Hc].
        + destruct (iterate_request_pending s w ev Hwf Hp Hev Hrx Hc) as (s' & _ & E & _).
          eauto.
        + destruct (closing ev) eqn:Hcl.
          * destruct ev; try discriminate.
            destruct (iterate_close_idle s w Hwf Hp Hc) as (s' & _ & E & _). eauto.
          * rewrite (iterate_request_idle s w ev Hwf Hp Hev Hcl Hrx Hc). eauto.
      - destruct ev as [x| | |]; try discriminate.
        destruct (iterate_item s w x Hwf Hp) as (s' & _ & E & _). eauto. }
    destruct E as [s' E]. destruct (wf_iterate _ _ _ _ Hwf E) as [w' Hwf'].
    exists s', w'. split_and!; [assumption | apply (wf_goroutine _ _ Hwf') | apply (Hnp _ _ Hwf')].
  - intros Hp. destruct (Write_returns_spec s w Hwf Hp) as (s' & w' & E & Hwf' & _).
    exists s', w'. split_and!; [assumption | apply (wf_goroutine _ _ Hwf') | apply (Hnp _ _ Hwf')].
Qed.

(** [doneCh] is closed exactly when the goroutine has left the loop, and
    then nothing is pending: every item received has been handed to the
    flusher.  While the goroutine lives the three request channels are
    open. *)
Theorem done_iff_exited :
  forall (s : system) (w : worker),
    reachable s -> goroutine s = Some w ->
    (closed (buffer s) = true <-> at_point w = Exited) /\
    (at_point w = Exited -> pending s = [] /\ isOpen w = false) /\
    dataCh (buffer s) = openChan /\ flushCh (buffer s) = openChan /\
    closeCh (buffer s) = openChan.
Proof.
  intros s w Hr Hg. pose proof (reachable_goroutine _ _ Hr Hg) as Hwf.
  pose proof (wf_point _ _ Hwf) as Hpt. destruct (wf_channels _ _ Hwf) as (Hd & Hf & Hc).
  split_and!; try assumption.
  - unfold closed. destruct (at_point w); try done.
    + destruct Hpt as (_ & _ & _ & ->). done.
    + destruct Hpt as (_ & -> & _). done.
    + destruct Hpt as (_ & _ & ->). done.
  - intros Hx. rewrite Hx in Hpt. destruct Hpt as (Hc0 & Ho & _).
    split; [apply (pending_idle _ _ Hg Hc0) | assumption].
Qed.

Lemma filter_none (P : Ticker -> Prop) `{forall t, Decision (P t)}
      (l : list Ticker) :
  (forall j t, l !! j = Some t -> ~ P t) -> filter P l = [].
Proof.
  induction l as [|a l IH]; intros Hall; [reflexivity|].
  rewrite filter_cons. destruct (decide (P a)) as [Ha|Ha].
  - destruct (Hall 0%nat a eq_refl Ha).
  - apply IH. intros j t Hj. apply (Hall (S j) t Hj).
Qed.

Lemma filter_at_most_one (P : Ticker -> Prop) `{forall t, Decision (P t)}
      (l : list Ticker) : forall k : nat,
  (forall j t, l !! j = Some t -> P t -> j = k) ->
  (length (filter P l) <= 1)%nat.
Proof.
  induction l as [|a l IH]; intros k Hall; [simpl; lia|].
  rewrite filter_cons. destruct (decide (P a)) as [Ha|Ha].
  - pose proof (Hall 0%nat a eq_refl Ha) as Hk.
    rewrite (filter_none P l); [simpl; lia|].
    intros j t Hj Ht. specialize (Hall (S j) t Hj Ht). lia.
  - apply (IH (pred k)). intros j t Hj Ht. specialize (Hall (S j) t Hj Ht). lia.
Qed.

Lemma running_wf s w :
  wf s w ->
  (length (running (tickers s)) <= 1)%nat /\
  (at_point w <> AtSelect -> running (tickers s) = []) /\
  (FlushInterval (buffer s) = 0 -> running (tickers s) = []) /\
  (at_point w = AtSelect -> FlushInterval (buffer s) <> 0 ->
   running (tickers s) = [mkTicker (FlushInterval (buffer s)) false] /\
   exists i, ticker w = Some i /\
             tickers s !! i = Some (mkTicker (FlushInterval (buffer s)) false)).
Proof.
  intros Hwf.
  assert (Hle : (length (running (tickers s)) <= 1)%nat).
  { unfold running. destruct (ticker w) as [i|] eqn:Htk.
    - apply (filter_at_most_one _ _ i). intros j t Hj Ht.
      destruct (wf_running _ _ Hwf j t Hj Ht) as [Hj' _]. congruence.
    - apply (filter_at_most_one _ _ 0%nat). intros j t Hj Ht.
      destruct (wf_running _ _ Hwf j t Hj Ht) as [Hj' _]. congruence. }
  split_and!.
  - exact Hle.
  - intros Hp. unfold running. apply filter_none. intros j t Hj Ht.
    destruct (wf_running _ _ Hwf j t Hj Ht) as [_ Hp']. done.
  - intros Hz. unfold running. apply filter_none. intros j t Hj Ht.
    destruct (wf_running _ _ Hwf j t Hj Ht) as [Hj' _].
    apply (wf_nil _ _ Hwf) in Hz. congruence.
  - intros Hp Hnz.
    destruct (ticker w) as [i|] eqn:Htk; [|by apply (wf_nil _ _ Hwf) in Htk].
    destruct (wf_ticker _ _ Hwf i Htk) as (t & Ht & Hper & Hrun).
    specialize (Hrun Hp). destruct t as [p st]. simpl in *. subst p st.
    split; [|eauto].
    assert (Hin : mkTicker (FlushInterval (buffer s)) false ∈ running (tickers s)).
    { unfold running. apply list_elem_of_filter. split; [reflexivity|].
      by apply list_elem_of_lookup_2 with i. }
    destruct (running (tickers s)) as [|t1 [|t2 l]]; simpl in Hle.
    + by apply not_elem_of_nil in Hin.
    + apply list_elem_of_singleton in Hin. by rewrite Hin.
    + lia.
Qed.

(** At most one ticker runs at any time, and only while the goroutine is
    at its [select] with a non-zero interval, when it is the current
    ticker, with period [FlushInterval]: every ticker the loop has
    replaced has been stopped, none runs while the flusher does, and none
    is left running when the loop has exited. *)
Theorem at_most_one_running_ticker :
  forall (s : system) (w : worker),
    reachable s -> goroutine s = Some w ->
    (length (running (tickers s)) <= 1)%nat /\
    (at_point w <> AtSelect -> running (tickers s) = []) /\
    (FlushInterval (buffer s) = 0 -> running (tickers s) = []) /\
    (at_point w = AtSelect -> FlushInterval (buffer s) <> 0 ->
     running (tickers s) = [mkTicker (FlushInterval (buffer s)) false] /\
     exists i, ticker w = Some i /\
               tickers s !! i = Some (mkTicker (FlushInterval (buffer s)) false)).
Proof.
  intros s w Hr Hg. apply running_wf, (reachable_goroutine _ _ Hr Hg).
Qed.

(** A step of the goroutine calls [Write] at most once, on the array the
    loop was appending to. *)
Lemma act_written a s w s' :
  wf s w -> act a s = Some s' ->
  written s' = written s \/
  (at_point w = AtSelect /\
   exists batch, written s' = written s ++ [(backing w, batch)]).
Proof.
  intros Hwf E. pose proof (wf_goroutine _ _ Hwf) as Hg.
  destruct a as [ev|]; simpl in E.
  - destruct (iterate_Some _ _ _ _ Hg E) as [Hp Hrx].
    destruct (request ev) eqn:Hev.
    + destruct (Z_gtb_count _ _ Hwf Hp) as [Hc|Hc].
      * destruct (iterate_request_pending s w ev Hwf Hp Hev Hrx Hc)
          as (s1 & w1 & E1 & _ & _ & _ & _ & _ & _ & _ & _ & _ & _ & Hwr).
        rewrite E in E1. injection E1 as <-. right. eauto.
      * destruct (closing ev) eqn:Hcl.
        -- destruct ev; try discriminate.
           destruct (iterate_close_idle s w Hwf Hp Hc) as (s1 & w1 & E1 & _ & _ & _ & Hwr & _).
           rewrite E in E1. injection E1 as <-. by left.
        -- rewrite (iterate_request_idle s w ev Hwf Hp Hev Hcl Hrx Hc) in E.
           injection E as <-. by left.
    + destruct ev as [x| | |]; try discriminate.
      destruct (iterate_item s w x Hwf Hp) as (s1 & w1 & E1 & _ & _ & _ & _ & _ & H).
      rewrite E in E1. injection E1 as <-.
      destruct (_ <? _).
      * destruct H as (_ & _ & _ & Hwr & _). by left.
      * destruct H as (_ & Hwr). right. eauto.
  - pose proof (Write_returns_Some _ _ _ Hg E) as Hp.
    destruct (Write_returns_spec s w Hwf Hp)
      as (s1 & w1 & E1 & _ & _ & _ & _ & _ & _ & Hwr & _).
    rewrite E in E1. injection E1 as <-. by left.
Qed.

Lemma backing_not_written s w :
  wf s w -> at_point w <> InWrite -> backing w ∉ (written s).*1.
Proof.
  intros Hwf Hp Hin. apply list_elem_of_fmap in Hin as (c & Hc & Hin).
  pose proof (wf_written _ _ Hwf) as Hall. rewrite Forall_forall in Hall.
  destruct (Hall c Hin) as (_ & Hne & _). by apply Hne.
Qed.

Lemma exec_NoDup acts : forall s w s',
  wf s w -> NoDup (written s).*1 -> exec acts s = Some s' ->
  NoDup (written s').*1.
Proof.
  induction acts as [|a acts IH]; simpl; intros s w s' Hwf Hnd E.
  - by injection E as <-.
  - destruct (act a s) as [s1|] eqn:E1; [|discriminate].
    destruct (wf_act _ _ _ _ Hwf E1) as [w1 Hwf1].
    apply (IH s1 w1 s' Hwf1); [|assumption].
    destruct (act_written _ _ _ _ Hwf E1) as [-> | (Hp & batch & ->)]; [assumption|].
    rewrite fmap_app. apply NoDup_app. split_and!; [assumption| |apply NoDup_singleton].
    intros x Hx Hx'. simpl in Hx'. apply list_elem_of_singleton in Hx'. subst x.
    apply (backing_not_written _ _ Hwf); [rewrite Hp; discriminate | assumption].
Qed.

(** The flusher never sees the same backing array twice, and the loop never
    writes into an array it has handed over: the arrays of the [Write]
    calls are pairwise distinct, and outside [Write] the array the loop
    appends to is none of them.  A flusher may keep the slice it was
    given. *)
Theorem written_arrays_distinct :
  forall (s : system) (w : worker),
    reachable s -> goroutine s = Some w ->
    NoDup (written s).*1 /\
    (at_point w <> InWrite -> backing w ∉ (written s).*1).
Proof.
  intros s w Hr Hg. pose proof (reachable_goroutine _ _ Hr Hg) as Hwf.
  split; [|apply (backing_not_written _ _ Hwf)].
  destruct Hr as (b & s0 & acts & Hi & Hfit & He).
  destruct (wf_initialize _ _ Hi Hfit) as (w0 & Hwf0 & _ & _ & Hwr & _).
  apply (exec_NoDup acts s0 w0 s Hwf0); [|assumption].
  rewrite Hwr. constructor.
Qed.

(** Fewer than [Size] items pushed into a new buffer with no interval,
    each call returning nil, stay pending, in order: the flusher is not
    called.  The calls do return nil when [make] does not panic and the
    push timeout is longer than the delay of the scheduler. *)
Theorem no_flush_below_capacity :
  forall (b : Buffer) (inTime : bool) (xs : list T),
    IsIntialized b = false -> validateBuffer b = None ->
    FlushInterval b = 0 ->
    (N.of_nat (length xs) < Size b)%N ->
    (forall (s' : system) (rs : list outcome),
        pushes inTime xs (fresh b) = (s', rs) ->
        Forall (fun r => r = Return None) rs ->
        written s' = [] /\ pending s' = xs) /\
    ((Size b <= maxLen)%N ->
     delay < PushTimeout b ->
     exists s',
       pushes inTime xs (fresh b) = (s', replicate (length xs) (Return None))).
Proof.
  intros b inTime xs Hi Hv _ Hn.
  assert (Hroom : (Size b <= maxLen)%N ->
            expires_first inTime (PushTimeout b) = false ->
            exists s', pushes inTime xs (fresh b) =
                         (s', replicate (length xs) (Return None)) /\
                       written s' = [] /\ pending s' = xs).
  { intros Hfit Hx. destruct xs as [|x xs].
    - exists (fresh b). done.
    - destruct (Push_first inTime x b Hi Hv) as (s0 & Hs0 & HP).
      destruct (wf_initialize _ _ Hs0 Hfit)
        as (w0 & Hwf & Hp & Hc & Hwr & Hsz & _ & _ & _ & Hto).
      destruct (pushes_room inTime (x :: xs) s0 w0 Hwf Hp)
        as (s' & w' & E & _ & _ & _ & Hpe & Hw' & _).
      { by rewrite Hto. }
      { rewrite Hc. unfold len. rewrite (wf_len _ _ Hwf), Hsz. lia. }
      exists s'. split_and!.
      + simpl in *. rewrite HP. exact E.
      + congruence.
      + rewrite Hpe, (pending_idle _ _ (wf_goroutine _ _ Hwf) Hc). reflexivity. }
  split.
  - intros s' rs E Hall. destruct xs as [|x xs].
    { simpl in E. by injection E as <- _. }
    assert (Hx : (Size b <= maxLen)%N /\ expires_first inTime (PushTimeout b) = false).
    { simpl in E. destruct (Push inTime x (fresh b)) as [[s1 r] ws] eqn:EP.
      destruct (pushes inTime xs s1) as [s2 rs']. injection E as <- <-.
      inversion Hall as [|? ? Hr _]. subst r.
      apply (Push_first_nil _ _ _ _ _ Hi Hv EP). }
    destruct Hx as [Hfit Hx]. destruct (Hroom Hfit Hx) as (s'' & E' & H).
    rewrite E in E'. by injection E' as -> _.
  - intros Hfit Hx.
    destruct (Hroom Hfit (expires_first_false _ _ (or_intror Hx))) as (s' & E & _).
    eauto.
Qed.

(** A flush caused by an item is a flush of a full batch: the item that
    makes [count] reach the length of the slice is handed over with all
    the items before it, [Size] in all; any other item only joins the
    pending ones. *)
Theorem capacity_flush_is_full :
  forall (s s1 : system) (w : worker) (x : T),
    reachable s -> goroutine s = Some w ->
    iterate (item x) s = Some s1 ->
    (count w + 1 < Z.of_N (Size (buffer s)) /\
     written s1 = written s /\ pending s1 = pending s ++ [x]) \/
    (count w + 1 = Z.of_N (Size (buffer s)) /\
     written s1 = written s ++ [(backing w, pending s ++ [x])] /\
     N.of_nat (length (pending s ++ [x])) = Size (buffer s) /\ pending s1 = []).
Proof.
  intros s s1 w x Hr Hg E. pose proof (reachable_goroutine _ _ Hr Hg) as Hwf.
  destruct (iterate_Some _ _ _ _ Hg E) as [Hp _].
  destruct (iterate_item s w x Hwf Hp) as (s' & w' & E' & Hwf' & _ & _ & _ & _ & H).
  rewrite E in E'. injection E' as <-.
  pose proof (wf_point _ _ Hwf) as Hpt. rewrite Hp in Hpt. destruct Hpt as (Hc & _).
  assert (Hlen : len (items w) = Z.of_N (Size (buffer s))).
  { unfold len. rewrite (wf_len _ _ Hwf). lia. }
  pose proof (pending_length _ _ Hwf Hp) as Hpl.
  destruct (Z.ltb_spec (count w + 1) (len (items w))).
  - destruct H as (_ & _ & Hpe & Hwr & _). left. split_and!; (done || lia).
  - destruct H as (Hp1 & Hwr). right. split_and!; try done; try lia.
    + rewrite length_app. simpl. lia.
    + apply (pending_InWrite _ _ (wf_goroutine _ _ Hwf') Hp1).
Qed.

(** A tick with items pending flushes them: the ticker is stopped, [Write]
    is called once with the pending items, and when it has returned the
    loop is open again with an empty batch and a new ticker. *)
Theorem tick_flushes_pending :
  forall (s : system) (w : worker),
    reachable s -> goroutine s = Some w -> at_point w = AtSelect ->
    ticker w <> None -> 0 < count w ->
    exists s1 s2 w2,
      iterate tick s = Some s1 /\
      written s1 = written s ++ [(backing w, pending s)] /\
      running (tickers s1) = [] /\
      Write_returns s1 = Some s2 /\
      written s2 = written s1 /\
      goroutine s2 = Some w2 /\ at_point w2 = AtSelect /\ pending s2 = [] /\
      running (tickers s2) = [mkTicker (FlushInterval (buffer s)) false].
Proof.
  intros s w Hr Hg Hp Htk Hc. pose proof (reachable_goroutine _ _ Hr Hg) as Hwf.
  assert (Hrx : receivable tick w = true) by (simpl; destruct (ticker w); done).
  assert (Hnz : FlushInterval (buffer s) <> 0).
  { intros Hz. by apply (wf_nil _ _ Hwf) in Hz. }
  destruct (iterate_request_pending s w tick Hwf Hp eq_refl Hrx Hc)
    as (s1 & w1 & E1 & Hwf1 & _ & _ & Hp1 & Ho1 & _ & _ & _ & _ & _ & Hwr1).
  destruct (Write_returns_spec s1 w1 Hwf1 Hp1)
    as (s2 & w2 & E2 & Hwf2 & _ & _ & Hpe2 & _ & _ & Hwr2 & _ & Hp2 & _ & _ & Hiv2 & _).
  rewrite Ho1 in Hp2. simpl in Hp2.
  destruct (act_options (Recv tick) _ _ E1) as [_ Hiv1].
  exists s1, s2, w2. split_and!; try done.
  - apply (proj1 (proj2 (running_wf _ _ Hwf1))). rewrite Hp1. discriminate.
  - apply (wf_goroutine _ _ Hwf2).
  - rewrite <- Hiv1, <- Hiv2.
    apply (proj2 (proj2 (proj2 (running_wf _ _ Hwf2)))); [assumption | congruence].
Qed.

(** ** Further properties: the public operations *)

Lemma await_received inTime s w :
  wf s w ->
  flushed (await inTime s) ++ pending (await inTime s) = flushed s ++ pending s.
Proof.
  intros Hwf. destruct (await_cases inTime s w Hwf) as [-> | (_ & _ & E)]; [reflexivity|].
  rewrite (act_received Returns _ _ _ Hwf E). simpl. by rewrite app_nil_r.
Qed.

(** A request offered to a started buffer: the goroutine takes it or the
    timer expires; a send on a closed channel does not occur. *)
Lemma offer_started inTime d ev s w s' r :
  wf s w -> offer inTime d openChan ev s = (s', r) ->
  (exists w', wf s' w') /\
  ((r = Some true /\
    flushed s' ++ pending s' = (flushed s ++ pending s) ++ received [Recv ev]) \/
   (r = Some false /\ flushed s' ++ pending s' = flushed s ++ pending s)).
Proof.
  intros Hwf Ho. destruct (wf_await inTime s w Hwf) as [wa Hwa].
  pose proof (await_received inTime s w Hwf) as Ha.
  destruct (offer_cases _ _ _ _ _ _ _ Hwf Ho) as [(-> & _ & E) | (-> & -> & _)].
  - split; [apply (wf_iterate _ _ _ _ Hwa E)|]. left. split; [reflexivity|].
    rewrite (act_received (Recv ev) _ _ _ Hwa E), Ha. reflexivity.
  - split; [eauto|]. right. by split.
Qed.

Lemma validateBuffer_error b e :
  validateBuffer b = Some e -> option_error e = true.
Proof.
  unfold validateBuffer, fmt_Errorf. intros H.
  repeat case_match; simplify_eq; reflexivity.
Qed.

Lemma settled_closed s c :
  closed (buffer s) = true -> IsIntialized (buffer s) = true ->
  settled s ->
  settled (invoke c s).1.1 /\ well_returned c (invoke c s).1.2 /\
  flushed (invoke c s).1.1 ++ pending (invoke c s).1.1 =
    (flushed s ++ pending s) ++ accepted c (invoke c s).1.2.
Proof.
  intros Hc Hi Hs. rewrite (invoke_closed c s Hc Hi). simpl.
  split_and!; [assumption | by left |].
  destruct c; simpl; by rewrite app_nil_r.
Qed.

Lemma wf_closed s w :
  wf s w -> closed (buffer s) = true -> at_point w = Exited /\ pending s = [].
Proof.
  intros Hwf Hc. pose proof (wf_point _ _ Hwf) as Hpt. unfold closed in Hc.
  unfold pending. rewrite (wf_goroutine _ _ Hwf).
  destruct (at_point w); try done.
  - destruct Hpt as (_ & _ & _ & Hd). by rewrite Hd in Hc.
  - destruct Hpt as (_ & Hd & _). by rewrite Hd in Hc.
  - destruct Hpt as (-> & _). done.
Qed.

Lemma settled_started s w c :
  wf s w ->
  settled (invoke c s).1.1 /\ well_returned c (invoke c s).1.2 /\
  flushed (invoke c s).1.1 ++ pending (invoke c s).1.1 =
    (flushed s ++ pending s) ++ accepted c (invoke c s).1.2.
Proof.
  intros Hwf. pose proof (IsIntialized_true _ _ Hwf) as Hi.
  destruct (closed (buffer s)) eqn:Hc.
  { apply settled_closed; [assumption..|]. right. left. eauto. }
  destruct (wf_channels _ _ Hwf) as (Hdc & Hfc & Hcc).
  destruct c as [inTime x|inTime|inTime1 inTime2]; simpl.
  - unfold Push. rewrite Hi, Hc, Hdc.
    destruct (offer inTime _ openChan (item x) s) as [s' r] eqn:E.
    destruct (offer_started _ _ _ _ _ _ _ Hwf E) as (Hw' & [[-> H] | [-> H]]); simpl.
    + split_and!; [right; by left | done | exact H].
    + split_and!; [right; by left | right; by left | by rewrite app_nil_r].
  - unfold Flush. rewrite Hc, Hfc.
    destruct (offer inTime _ openChan flushReq s) as [s' r] eqn:E.
    destruct (offer_started _ _ _ _ _ _ _ Hwf E) as (Hw' & [[-> H] | [-> H]]); simpl.
    + simpl in H. split_and!; [right; by left | done | exact H].
    + split_and!; [right; by left | right; by left | by rewrite app_nil_r].
  - unfold Close. rewrite Hc, Hcc.
    destruct (offer inTime1 _ openChan closeReq s) as [s1 r] eqn:E.
    destruct (offer_started _ _ _ _ _ _ _ Hwf E) as ([w1 Hw1] & [[-> H] | [-> H]]); simpl.
    + destruct (wf_await inTime2 s1 w1 Hw1) as [w2 Hw2].
      pose proof (await_received inTime2 s1 w1 Hw1) as Ha.
      rewrite (crashed_false _ _ Hw2).
      simpl in H. rewrite app_nil_r in H.
      destruct (closed (buffer (await inTime2 s1)) && _) eqn:Hc2.
      * apply andb_true_iff in Hc2 as [Hc2 _].
        destruct (wf_channels _ _ Hw2) as (Hd2 & Hf2 & Hc2').
        unfold release. rewrite Hd2, Hf2, Hc2'. simpl.
        destruct (wf_closed _ _ Hw2 Hc2) as [Hp2 Hpe2].
        split_and!; [|done|].
        -- right. right. split_and!; [exact Hc2 | reflexivity | |].
           ++ unfold pending in *. simpl. exact Hpe2.
           ++ exists w2. split; [apply (wf_goroutine _ _ Hw2) | assumption].
        -- rewrite app_nil_r, <- H, <- Ha. reflexivity.
      * simpl. split_and!; [right; left; eauto | right; by left |].
        rewrite app_nil_r. etransitivity; [exact Ha | exact H].
    + split_and!; [right; left; eauto | right; by left | by rewrite app_nil_r].
Qed.

(** A call on a buffer that was never started: the buffer stays as it
    is, unless the call is a [Push] with valid options, which starts
    it. *)
Lemma invoke_fresh b c :
  unmade b ->
  (invoke c (fresh b)).1.1 = fresh b /\ well_returned c (invoke c (fresh b)).1.2 /\
  accepted c (invoke c (fresh b)).1.2 = [] \/
  exists inTime x s0,
    c = CallPush inTime x /\ initialize (fresh b) = (s0, None) /\
    invoke c (fresh b) = Push inTime x s0.
Proof.
  intros (Hd & Hf & Hcl & Hn).
  assert (Hi : IsIntialized b = false) by (unfold IsIntialized; by rewrite Hd).
  destruct c as [inTime x|inTime|inTime1 inTime2]; simpl.
  - destruct (validateBuffer b) as [e|] eqn:Hv.
    + left. unfold Push. simpl. rewrite Hi. unfold Validate. rewrite Hv. simpl.
      split_and!; [reflexivity | | reflexivity].
      right. right. split; [apply (validateBuffer_error _ _ Hv) | eauto].
    + right. destruct (Push_first inTime x b Hi Hv) as (s0 & Hs0 & HP). eauto 10.
  - left. unfold Flush, closed. simpl. rewrite Hn, Hf. simpl.
    split_and!; [reflexivity | right; by left | reflexivity].
  - left. unfold Close, closed. simpl. rewrite Hn, Hcl. simpl.
    split_and!; [reflexivity | right; by left | reflexivity].
Qed.

(** The program is dead: a call does not return. *)
Lemma invoke_dead c s : dead s -> invoke c s = (s, Panics, []).
Proof.
  intros (Hcr & Hcl & Hd & Hf & Hc & _).
  assert (Hi : IsIntialized (buffer s) = true) by (unfold IsIntialized; by rewrite Hd).
  assert (Ha : forall inTime, await inTime s = s).
  { intros inTime. unfold await, writing. unfold crashed in Hcr.
    destruct (goroutine s) as [w|]; [|done]. by destruct (at_point w). }
  destruct c; simpl; unfold Push, Flush, Close; rewrite ?Hi, Hcl, ?Hd, ?Hf, ?Hc;
    unfold offer; rewrite Ha, Hcr; reflexivity.
Qed.

Lemma settled_fits s c :
  settled s -> (Size (buffer s) <= maxLen)%N ->
  settled (invoke c s).1.1 /\ well_returned c (invoke c s).1.2 /\
  flushed (invoke c s).1.1 ++ pending (invoke c s).1.1 =
    (flushed s ++ pending s) ++ accepted c (invoke c s).1.2.
Proof.
  intros [(b & Hb & ->) | [[w Hwf] | (Hc & Hi & Hpe & Hex)]] Hfit.
  - destruct (invoke_fresh b c Hb) as [(-> & Hr & ->) | (inTime & x & s0 & -> & Hs0 & ->)].
    + split_and!; [left; eauto | assumption | by rewrite app_nil_r].
    + destruct (wf_initialize _ _ Hs0 Hfit) as (w0 & Hwf & _ & Hc0 & Hwr & _).
      pose proof (settled_started s0 w0 (CallPush inTime x) Hwf) as H. simpl in H.
      unfold flushed at 2 in H. rewrite Hwr in H.
      rewrite (pending_idle _ _ (wf_goroutine _ _ Hwf) Hc0) in H. exact H.
  - apply (settled_started _ _ _ Hwf).
  - apply settled_closed; [assumption..|]. right. right. by split_and!.
Qed.

(** Whatever the size, nothing is delivered that was not accepted. *)
Lemma settled_invoke s c :
  settled s \/ dead s ->
  (settled (invoke c s).1.1 \/ dead (invoke c s).1.1) /\
  flushed (invoke c s).1.1 ++ pending (invoke c s).1.1 =
    (flushed s ++ pending s) ++ accepted c (invoke c s).1.2.
Proof.
  intros [Hs | Hd].
  - destruct (N.leb_spec (Size (buffer s)) maxLen) as [Hfit|Hbig].
    { destruct (settled_fits s c Hs Hfit) as (H1 & _ & H2). auto. }
    destruct Hs as [(b & Hb & ->) | [[w Hwf] | (Hc & Hi & Hpe & Hex)]].
    + destruct (invoke_fresh b c Hb)
        as [(-> & Hr & ->) | (inTime & x & s0 & -> & Hs0 & ->)].
      * split; [left; left; eauto | by rewrite app_nil_r].
      * pose proof (initialize_dead _ _ Hs0 Hbig) as Hd0.
        pose proof (invoke_dead (CallPush inTime x) s0 Hd0) as HP. simpl in HP.
        rewrite HP. simpl.
        destruct Hd0 as (Hcr & Hcl & Hd & Hf & Hc & Hwr & Hpe).
        split; [right; by repeat split|]. by rewrite (flushed_nil _ Hwr), Hpe.
    + pose proof (wf_fits _ _ Hwf). lia.
    + destruct (settled_closed s c Hc Hi) as (H1 & _ & H2); [|auto].
      right. right. by split_and!.
  - rewrite (invoke_dead c s Hd). simpl. split; [by right|].
    destruct c; simpl; by rewrite app_nil_r.
Qed.

(** A tick received or a flusher returning between two calls. *)
Lemma settled_act a s s' :
  settled s \/ dead s -> received [a] = [] -> act a s = Some s' ->
  settled s' /\ flushed s' ++ pending s' = flushed s ++ pending s.
Proof.
  intros [[(b & Hb & ->) | [[w Hwf] | (Hc & Hi & Hpe & w & Hg & Hp)]] | Hd] Ha E.
  - destruct a; simpl in E; unfold iterate, Write_returns in E; simpl in E; discriminate.
  - split; [right; left; apply (wf_act _ _ _ _ Hwf E)|].
    by rewrite (act_received _ _ _ _ Hwf E), Ha, app_nil_r.
  - by rewrite (act_Exited _ _ a Hg Hp) in E.
  - destruct Hd as [Hcr _]. by rewrite (act_crashed a s Hcr) in E.
Qed.

Lemma act_Size a s s' : act a s = Some s' -> Size (buffer s') = Size (buffer s).
Proof. intros E. apply (act_options _ _ _ E). Qed.

Lemma invoke_Size c s : Size (buffer (invoke c s).1.1) = Size (buffer s).
Proof.
  assert (Ho : forall inTime d ch ev s0 s1 r,
            offer inTime d ch ev s0 = (s1, r) -> Size (buffer s1) = Size (buffer s0)).
  { intros inTime d ch ev s0 s1 r H. destruct (offer_exec _ _ _ _ _ _ _ H) as [acts E].
    apply (exec_options _ _ _ E). }
  assert (Ha : forall inTime s0, Size (buffer (await inTime s0)) = Size (buffer s0)).
  { intros inTime s0. destruct (await_exec inTime s0) as [acts E].
    apply (exec_options _ _ _ E). }
  destruct c as [inTime x|inTime|inTime1 inTime2]; simpl.
  - unfold Push.
    assert (Hs : forall s1, Size (buffer s1) = Size (buffer s) ->
              Size (buffer
                      (if closed (buffer s1) then (s1, Return (Some ErrClosed), [])
                       else
                         match offer inTime (PushTimeout (buffer s1))
                                 (dataCh (buffer s1)) (item x) s1 with
                         | (s2, Some true) =>
                             (s2, Return None, [Handed (PushTimeout (buffer s1))])
                         | (s2, Some false) =>
                             (s2, timed_out "buffer is full",
                              [Expired (PushTimeout (buffer s1))])
                         | (s2, None) => (s2, Panics, [])
                         end).1.1) = Size (buffer s)).
    { intros s1 H1. destruct (closed (buffer s1)); [exact H1|].
      destruct (offer _ _ _ _ _) as [s2 r] eqn:E. rewrite <- H1, <- (Ho _ _ _ _ _ _ _ E).
      by destruct r as [[|]|]. }
    destruct (IsIntialized (buffer s)); [by apply Hs|].
    unfold Validate, initialize. destruct (validateBuffer (buffer s)); [reflexivity|].
    apply Hs. by rewrite buffer_consume.
  - unfold Flush. destruct (closed (buffer s)); [reflexivity|].
    destruct (offer _ _ _ _ _) as [s2 r] eqn:E. rewrite <- (Ho _ _ _ _ _ _ _ E).
    by destruct r as [[|]|].
  - unfold Close. destruct (closed (buffer s)); [reflexivity|].
    destruct (offer _ _ _ _ _) as [s2 r] eqn:E. rewrite <- (Ho _ _ _ _ _ _ _ E).
    destruct r as [[|]|]; try reflexivity.
    destruct (crashed _); [apply Ha|]. destruct (_ && _); [|apply Ha].
    unfold release. repeat case_match; simpl; try apply Ha.
    all: simplify_eq; simpl; apply Ha.
Qed.

Lemma settled_closed_pending s :
  settled s \/ dead s -> closed (buffer s) = true -> pending s = [].
Proof.
  intros [[(b & Hb & ->) | [[w Hwf] | (_ & _ & Hpe & _)]] | Hd] Hc;
    [reflexivity| |assumption|apply Hd].
  apply (wf_closed _ _ Hwf Hc).
Qed.

Lemma settled_invoke_all hs : forall s,
  settled s \/ dead s ->
  (settled (invoke_all hs s).1 \/ dead (invoke_all hs s).1) /\
  flushed ((invoke_all hs s).1) ++ pending ((invoke_all hs s).1) =
    (flushed s ++ pending s) ++ accepted_all (calls hs) (invoke_all hs s).2 /\
  (settled s -> (Size (buffer s) <= maxLen)%N ->
   Forall2 well_returned (calls hs) (((invoke_all hs s).2).*1)).
Proof.
  induction hs as [|[c| |] hs IH]; intros s Hs.
  - simpl. split_and!; [assumption | by rewrite app_nil_r | constructor].
  - simpl. destruct (settled_invoke s c Hs) as (Hs1 & Hf).
    pose proof (settled_fits s c) as Hfits. pose proof (invoke_Size c s) as Hsz.
    destruct (invoke c s) as [[s1 r] ws]. simpl in *.
    destruct (IH s1 Hs1) as (Hs2 & Hf2 & Hrs).
    destruct (invoke_all hs s1) as [s2 rs]. simpl in *.
    split_and!; [assumption | |].
    + rewrite Hf2, Hf. by rewrite <- app_assoc.
    + intros Hset Hfit. destruct (Hfits Hset Hfit) as (Hset1 & Hr & _).
      constructor; [assumption|]. apply Hrs; [assumption | by rewrite Hsz].
  - simpl. destruct (iterate tick s) as [s1|] eqn:E; simpl; [|apply (IH s Hs)].
    destruct (settled_act (Recv tick) s s1 Hs eq_refl E) as [Hs1 Hf1].
    destruct (IH s1 (or_introl Hs1)) as (Hs2 & Hf2 & Hrs).
    split_and!; [assumption | by rewrite Hf2, Hf1 |].
    intros _ Hfit. apply Hrs; [assumption|].
    by rewrite (act_Size (Recv tick) _ _ E).
  - simpl. destruct (Write_returns s) as [s1|] eqn:E; simpl; [|apply (IH s Hs)].
    destruct (settled_act Returns s s1 Hs eq_refl E) as [Hs1 Hf1].
    destruct (IH s1 (or_introl Hs1)) as (Hs2 & Hf2 & Hrs).
    split_and!; [assumption | by rewrite Hf2, Hf1 |].
    intros _ Hfit. apply Hrs; [assumption|].
    by rewrite (act_Size Returns _ _ E).
Qed.

(** Calls made one after the other on a buffer made by [New] with a
    [Size] for which [make] does not panic and a flusher whose [Write]
    returns or stalls, whatever the other options, the calls, the ticks
    between them, the speed of the flusher and the outcome of the races,
    never panic (no send on a closed channel, no channel closed twice),
    and each returns nil, [ErrClosed], an error that [errors.Is] finds to
    be [ErrTimeout] and not [ErrClosed], or, from [Push] only, an error of
    [validateBuffer], which is neither. *)
Theorem sequential_calls_never_panic :
  forall (opts : list Option) (hs : list happening),
    (Size (New opts) <= maxLen)%N ->
    Forall2 well_returned (calls hs) (((invoke_all hs (fresh (New opts))).2).*1).
Proof.
  intros opts hs Hfit.
  assert (Hs : settled (fresh (New opts))).
  { left. exists (New opts). split; [apply New_unmade | reflexivity]. }
  destruct (settled_invoke_all hs _ (or_introl Hs)) as (_ & _ & H).
  apply H; assumption.
Qed.

(** No item is lost, repeated or reordered: after any calls made one after
    the other on a buffer made by [New], whatever happens between them,
    the items handed to the flusher, batch after batch, followed by the
    items still pending, are the items of the calls of [Push] that
    returned nil, in the order of the calls.  Once the buffer is closed
    nothing is pending: the flusher has received them all. *)
Theorem accepted_items_delivered_in_order :
  forall (opts : list Option) (hs : list happening),
    let s' := (invoke_all hs (fresh (New opts))).1 in
    let rs := (invoke_all hs (fresh (New opts))).2 in
    flushed s' ++ pending s' = accepted_all (calls hs) rs /\
    (closed (buffer s') = true -> flushed s' = accepted_all (calls hs) rs).
Proof.
  intros opts hs s' rs.
  assert (Hs : settled (fresh (New opts))).
  { left. exists (New opts). split; [apply New_unmade | reflexivity]. }
  destruct (settled_invoke_all hs _ (or_introl Hs)) as (Hs' & H & _). fold s' rs in Hs', H.
  simpl in H. split; [exact H|].
  intros Hc. rewrite (settled_closed_pending _ Hs' Hc), app_nil_r in H. exact H.
Qed.

(** A call made while a flush of the open loop is running depends on the
    flusher.  If the flusher does not return before the caller's timer
    expires, [Push] and [Flush] return an error that is [ErrTimeout] and
    change nothing: the item of that [Push] is dropped, not queued.  If it
    returns in time the call goes through: the item of [Push] is the first
    received after the flush, and [Flush] finds nothing pending and does
    not call the flusher again. *)
Theorem calls_during_a_flush :
  forall (s : system) (w : worker) (x : T),
    reachable s -> goroutine s = Some w ->
    at_point w = InWrite -> isOpen w = true ->
    Push false x s =
      (s, timed_out "buffer is full", [Expired (PushTimeout (buffer s))]) /\
    Flush false s =
      (s, timed_out "failed to flush buffer within flush timeout",
       [Expired (FlushTimeout (buffer s))]) /\
    exists s1,
      Write_returns s = Some s1 /\
      Flush true s = (s1, Return None, [Handed (FlushTimeout (buffer s))]) /\
      written s1 = written s /\
      exists s2,
        Push true x s = (s2, Return None, [Handed (PushTimeout (buffer s))]) /\
        iterate (item x) s1 = Some s2 /\
        flushed s2 ++ pending s2 = flushed s ++ [x].
Proof.
  intros s w x Hr Hg Hp Ho. pose proof (reachable_goroutine _ _ Hr Hg) as Hwf.
  destruct (wf_channels _ _ Hwf) as (Hdc & Hfc & Hcc).
  pose proof (IsIntialized_true _ _ Hwf) as Hi.
  assert (Hc : closed (buffer s) = false).
  { apply (closed_false _ _ Hwf). rewrite Hp. discriminate. }
  assert (Hb : forall ev, iterate ev s = None).
  { intros ev. apply (iterate_busy _ _ _ Hg). rewrite Hp. discriminate. }
  destruct (Write_returns_spec s w Hwf Hp)
    as (s1 & w1 & E1 & Hwf1 & Hc1 & _ & Hpe1 & _ & _ & Hwr1 & _ & Hp1 & _).
  rewrite Ho in Hp1.
  destruct (iterate_item s1 w1 x Hwf1 Hp1) as (s2 & w2 & E2 & Hwf2 & _).
  split_and!.
  - unfold Push. rewrite Hi, Hc, Hdc. unfold offer, await.
    rewrite andb_false_r, (crashed_false _ _ Hwf), Hb.
    by destruct (expires_first _ _).
  - unfold Flush. rewrite Hc, Hfc. unfold offer, await.
    rewrite andb_false_r, (crashed_false _ _ Hwf), Hb.
    by destruct (expires_first _ _).
  - exists s1. split_and!; try assumption.
    + unfold Flush. rewrite Hc, Hfc. unfold offer, await.
      rewrite (writing_true _ _ Hg Hp). simpl. rewrite E1, (crashed_false _ _ Hwf1).
      rewrite (iterate_request_idle s1 w1 flushReq Hwf1 Hp1 eq_refl eq_refl eq_refl Hc1).
      rewrite (crashed_false _ _ Hwf1). reflexivity.
    + exists s2. split_and!; try assumption.
      * unfold Push. rewrite Hi, Hc, Hdc. unfold offer, await.
        rewrite (writing_true _ _ Hg Hp). simpl.
        rewrite E1, (crashed_false _ _ Hwf1), E2, (crashed_false _ _ Hwf2). reflexivity.
      * rewrite (act_received (Recv (item x)) _ _ _ Hwf1 E2). simpl.
        rewrite Hpe1, app_nil_r. unfold flushed. by rewrite Hwr1.
Qed.

(** Once a close request has been accepted the loop receives nothing more:
    during the final flush every call waits for its timer and returns an
    error that is [ErrTimeout], an item pushed is dropped, and [Close]
    called again does not return nil, whether or not the flusher returns
    during the wait. *)
Theorem calls_during_the_final_flush :
  forall (s : system) (w : worker) (x : T) (inTime inTime2 : bool),
    reachable s -> goroutine s = Some w ->
    at_point w = InWrite -> isOpen w = false ->
    Push inTime x s =
      (await inTime s, timed_out "buffer is full",
       [Expired (PushTimeout (buffer s))]) /\
    Flush inTime s =
      (await inTime s, timed_out "failed to flush buffer within flush timeout",
       [Expired (FlushTimeout (buffer s))]) /\
    Close inTime inTime2 s =
      (await inTime s, closeTimedOut, [Expired (CloseTimeout (buffer s))]) /\
    written (await inTime s) = written s /\ pending (await inTime s) = [].
Proof.
  intros s w x inTime inTime2 Hr Hg Hp Ho.
  pose proof (reachable_goroutine _ _ Hr Hg) as Hwf.
  destruct (wf_channels _ _ Hwf) as (Hdc & Hfc & Hcc).
  pose proof (IsIntialized_true _ _ Hwf) as Hi.
  assert (Hc : closed (buffer s) = false).
  { apply (closed_false _ _ Hwf). rewrite Hp. discriminate. }
  destruct (Write_returns_spec s w Hwf Hp)
    as (s1 & w1 & E1 & Hwf1 & _ & _ & Hpe1 & _ & _ & Hwr1 & _ & Hp1 & _).
  rewrite Ho in Hp1.
  assert (Hb : forall ev, iterate ev (await inTime s) = None).
  { intros ev. unfold await. rewrite (writing_true _ _ Hg Hp). destruct inTime; simpl.
    - rewrite E1. apply (iterate_busy _ _ _ (wf_goroutine _ _ Hwf1)).
      rewrite Hp1. discriminate.
    - apply (iterate_busy _ _ _ Hg). rewrite Hp. discriminate. }
  destruct (wf_await inTime s w Hwf) as [wa Hwa].
  split_and!.
  - unfold Push. rewrite Hi, Hc, Hdc. unfold offer.
    rewrite Hb, (crashed_false _ _ Hwa). by destruct (expires_first _ _).
  - unfold Flush. rewrite Hc, Hfc. unfold offer.
    rewrite Hb, (crashed_false _ _ Hwa). by destruct (expires_first _ _).
  - unfold Close. rewrite Hc, Hcc. unfold offer.
    rewrite Hb, (crashed_false _ _ Hwa). by destruct (expires_first _ _).
  - unfold await. rewrite (writing_true _ _ Hg Hp). destruct inTime; simpl;
      [by rewrite E1 | reflexivity].
  - unfold await. rewrite (writing_true _ _ Hg Hp). destruct inTime; simpl;
      [by rewrite E1 | apply (pending_InWrite _ _ Hg Hp)].
Qed.

(** What a [Close] that returns nil has done. *)
Lemma Close_released inTime1 inTime2 s w s' ws :
  wf s w -> Close inTime1 inTime2 s = (s', Return None, ws) ->
  exists s2 w2 b,
    wf s2 w2 /\ at_point w2 = Exited /\
    release (buffer s2) = Some b /\
    s' = mkSystem b (goroutine s2) (tickers s2) (arrays s2) (written s2) /\
    flushed s2 ++ pending s2 = flushed s ++ pending s.
Proof.
  intros Hwf. unfold Close.
  destruct (closed (buffer s)) eqn:Hc; [discriminate|].
  destruct (wf_channels _ _ Hwf) as (_ & _ & ->).
  destruct (offer inTime1 _ openChan closeReq s) as [s1 r] eqn:E.
  destruct (offer_started _ _ _ _ _ _ _ Hwf E) as ([w1 Hw1] & [[-> H] | [-> H]]);
    [|discriminate].
  simpl in H. rewrite app_nil_r in H.
  destruct (wf_await inTime2 s1 w1 Hw1) as [w2 Hw2].
  pose proof (await_received inTime2 s1 w1 Hw1) as Ha.
  rewrite (crashed_false _ _ Hw2).
  destruct (closed (buffer (await inTime2 s1))) eqn:Hc2; [|discriminate].
  destruct (negb _); [|discriminate]. simpl.
  destruct (release (buffer (await inTime2 s1))) as [b|] eqn:Hrel; [|discriminate].
  intros [= <- <-]. exists (await inTime2 s1), w2, b. split_and!; try done.
  - apply (wf_closed _ _ Hw2 Hc2).
  - by rewrite Ha.
Qed.

(** A [Close] that returns nil has delivered everything: the flusher has
    been given exactly the items that were pending, after those it had,
    so that it has all the items the loop ever received, in order; the
    goroutine is gone, no ticker runs, and the four channels are closed. *)
Theorem close_delivers_everything :
  forall (b : Buffer) (s0 s s' : system) (acts : list action)
         (inTime1 inTime2 : bool) (ws : list wait),
    initialize (fresh b) = (s0, None) -> exec acts s0 = Some s ->
    Close inTime1 inTime2 s = (s', Return None, ws) ->
    flushed s' = flushed s ++ pending s /\
    flushed s' = received acts /\
    pending s' = [] /\
    (exists w', goroutine s' = Some w' /\ at_point w' = Exited) /\
    running (tickers s') = [] /\
    dataCh (buffer s') = closedChan /\ flushCh (buffer s') = closedChan /\
    closeCh (buffer s') = closedChan /\ doneCh (buffer s') = closedChan.
Proof.
  intros b s0 s s' acts inTime1 inTime2 ws Hi He HC.
  destruct (N.leb_spec (Size b) maxLen) as [Hfit|Hbig].
  2:{ pose proof (initialize_dead _ _ Hi Hbig) as Hd.
      rewrite (exec_crashed _ _ _ (proj1 Hd) He) in HC.
      pose proof (invoke_dead (CallClose inTime1 inTime2) s0 Hd) as HP. simpl in HP.
      rewrite HP in HC. discriminate. }
  destruct (wf_initialize _ _ Hi Hfit) as (w0 & Hwf0 & _ & Hc0 & Hwr0 & _).
  destruct (wf_exec _ _ _ _ Hwf0 He) as [w Hwf].
  pose proof (exec_received _ _ _ _ Hwf0 He) as Hrec.
  unfold flushed at 2 in Hrec. rewrite Hwr0 in Hrec.
  rewrite (pending_idle _ _ (wf_goroutine _ _ Hwf0) Hc0) in Hrec. simpl in Hrec.
  destruct (Close_released _ _ _ _ _ _ Hwf HC)
    as (s2 & w2 & b2 & Hw2 & Hp2 & Hrel & -> & Hf).
  pose proof (wf_point _ _ Hw2) as Hpt. rewrite Hp2 in Hpt.
  destruct Hpt as (Hc2 & _ & Hd2).
  pose proof (pending_idle _ _ (wf_goroutine _ _ Hw2) Hc2) as Hpe.
  rewrite Hpe, app_nil_r in Hf.
  unfold release, close_chan in Hrel.
  destruct (wf_channels _ _ Hw2) as (Hdc & Hfc & Hcc).
  rewrite Hdc, Hfc, Hcc in Hrel. injection Hrel as <-.
  split_and!; try done.
  - exact (eq_trans Hf Hrec).
  - exists w2. split; [apply (wf_goroutine _ _ Hw2) | assumption].
  - apply (proj1 (proj2 (running_wf _ _ Hw2))). rewrite Hp2. discriminate.
Qed.

(** What a [Push] that returns nil has done. *)
Lemma Push_accepted inTime x s w s' ws :
  wf s w -> Push inTime x s = (s', Return None, ws) ->
  exists w',
    wf s' w' /\ open_loop w' /\
    Size (buffer s') = Size (buffer s) /\
    (written s' = written s \/
     exists a batch, written s' = written s ++ [(a, batch)] /\
                     N.of_nat (length batch) = Size (buffer s)) /\
    flushed s' ++ pending s' = (flushed s ++ pending s) ++ [x].
Proof.
  intros Hwf. unfold Push. rewrite (IsIntialized_true _ _ Hwf).
  destruct (closed (buffer s)); [discriminate|].
  destruct (wf_channels _ _ Hwf) as (-> & _).
  destruct (offer inTime _ openChan (item x) s) as [s2 r] eqn:Ho.
  destruct (offer_cases _ _ _ _ _ _ _ Hwf Ho) as [(-> & _ & E) | (-> & _)];
    [|discriminate].
  intros [= <- _]. destruct (wf_await inTime s w Hwf) as [wa Hwa].
  destruct (iterate_Some _ _ _ _ (wf_goroutine _ _ Hwa) E) as [Hpa _].
  assert (Hsame : Size (buffer (await inTime s)) = Size (buffer s) /\
                  written (await inTime s) = written s).
  { destruct (await_cases inTime s w Hwf) as [-> | (Hp & _ & Ea)]; [done|].
    destruct (Write_returns_spec s w Hwf Hp)
      as (s1 & w1 & E1 & _ & _ & _ & _ & _ & _ & Hwr1 & _ & _ & _ & Hsz1 & _).
    rewrite Ea in E1. by injection E1 as <-. }
  destruct Hsame as [Hsz Hwr].
  destruct (iterate_item _ wa x Hwa Hpa) as (s1 & w1 & E1 & Hwf1 & Hb & _ & _ & Ho1 & H).
  rewrite E in E1. injection E1 as <-.
  pose proof (wf_point _ _ Hwa) as Hpt. rewrite Hpa in Hpt. destruct Hpt as (Hc & _).
  pose proof (pending_length _ _ Hwa Hpa) as Hpl.
  assert (Hlen : len (items wa) = Z.of_N (Size (buffer s))).
  { unfold len. rewrite (wf_len _ _ Hwa), Hsz. lia. }
  exists w1. split_and!.
  - assumption.
  - destruct (_ <? _); [left; apply H | right; split; [apply H | assumption]].
  - by rewrite Hb.
  - rewrite <- Hwr. destruct (Z.ltb_spec (count wa + 1) (len (items wa))).
    + left. apply H.
    + right. destruct H as (_ & Hw). eexists _, _. split; [exact Hw|].
      rewrite length_app. simpl. lia.
  - rewrite (act_received (Recv (item x)) _ _ _ Hwa E).
    by rewrite (await_received inTime s w Hwf).
Qed.

(** With a flusher that returns within the wait and a race that goes the
    way of the channel, a [Push] on an open loop returns nil. *)
Lemma Push_inTime x s w :
  wf s w -> open_loop w ->
  exists s' ws, Push true x s = (s', Return None, ws).
Proof.
  intros Hwf Hopen.
  assert (Hstep : forall s1 w1, wf s1 w1 -> at_point w1 = AtSelect ->
            exists s', iterate (item x) s1 = Some s' /\ crashed s' = false).
  { intros s1 w1 Hwf1 Hp1.
    destruct (iterate_item s1 w1 x Hwf1 Hp1) as (s' & w' & E & Hwf' & _).
    exists s'. split; [assumption | apply (crashed_false _ _ Hwf')]. }
  unfold Push. rewrite (IsIntialized_true _ _ Hwf).
  destruct (wf_channels _ _ Hwf) as (-> & _). unfold offer, await.
  destruct Hopen as [Hp | [Hp Ho]].
  - rewrite (closed_false _ _ Hwf) by (rewrite Hp; discriminate).
    rewrite (writing_false _ _ (wf_goroutine _ _ Hwf)) by (rewrite Hp; discriminate).
    simpl. rewrite (crashed_false _ _ Hwf).
    destruct (Hstep s w Hwf Hp) as (s' & -> & ->). eauto.
  - rewrite (closed_false _ _ Hwf) by (rewrite Hp; discriminate).
    rewrite (writing_true _ _ (wf_goroutine _ _ Hwf) Hp). simpl.
    destruct (Write_returns_spec s w Hwf Hp)
      as (s1 & w1 & E1 & Hwf1 & _ & _ & _ & _ & _ & _ & _ & Hp1 & _).
    rewrite Ho in Hp1. rewrite E1, (crashed_false _ _ Hwf1).
    destruct (Hstep s1 w1 Hwf1 Hp1) as (s' & -> & ->). eauto.
Qed.

Lemma pushes_accepted (n : N) inTime xs : forall s w s' rs,
  wf s w -> Size (buffer s) = n ->
  Forall (fun c : nat * list T => N.of_nat (length c.2) = n) (written s) ->
  pushes inTime xs s = (s', rs) -> Forall (fun r => r = Return None) rs ->
  exists w',
    wf s' w' /\ Size (buffer s') = n /\
    Forall (fun c : nat * list T => N.of_nat (length c.2) = n) (written s') /\
    flushed s' ++ pending s' = (flushed s ++ pending s) ++ xs.
Proof.
  induction xs as [|x xs IH]; intros s w s' rs Hwf Hn Hall E Hnil; simpl in E.
  - injection E as <- <-. exists w. rewrite app_nil_r. by split_and!.
  - destruct (Push inTime x s) as [[s1 r] ws] eqn:EP.
    destruct (pushes inTime xs s1) as [s2 rs'] eqn:Er. injection E as <- <-.
    inversion Hnil as [|? ? Hr Hnil']. subst.
    destruct (Push_accepted _ _ _ _ _ _ Hwf EP) as (w1 & Hwf1 & _ & Hsz & Hwr & Hf).
    destruct (IH s1 w1 s2 rs' Hwf1) as (w' & Hwf' & Hn' & Hall' & Hf'); try done.
    + destruct Hwr as [-> | (a & batch & -> & Hb)]; [assumption|].
      apply Forall_app. split; [assumption|]. constructor; [|constructor].
      simpl. congruence.
    + exists w'. split_and!; try done.
      rewrite Hf', Hf. by rewrite <- app_assoc.
Qed.

Lemma pushes_inTime xs : forall s w,
  wf s w -> open_loop w ->
  exists s', pushes true xs s = (s', replicate (length xs) (Return None)).
Proof.
  induction xs as [|x xs IH]; intros s w Hwf Hop; simpl; [eauto|].
  destruct (Push_inTime x s w Hwf Hop) as (s1 & ws & EP). rewrite EP.
  destruct (Push_accepted _ _ _ _ _ _ Hwf EP) as (w1 & Hwf1 & Hop1 & _).
  destruct (IH s1 w1 Hwf1 Hop1) as (s' & ->). eauto.
Qed.

Lemma length_flushed (n : nat) (l : list (nat * list T)) :
  Forall (fun c => length c.2 = n) l ->
  length (concat (map snd l)) = (length l * n)%nat.
Proof.
  induction 1 as [|c l Hc Hl IH]; simpl; [reflexivity|].
  rewrite length_app, IH, Hc. reflexivity.
Qed.

(** Items pushed one after the other into a new buffer with no interval,
    each call returning nil, leave in batches of exactly [Size] items:
    after n calls the flusher has been called n / Size times, each time
    with the next [Size] items, and the n mod Size items left over are
    pending.  The calls do all return nil when [make] does not panic, the
    push timeout is longer than the delay of the scheduler and the flusher
    returns within every wait. *)
Theorem pushes_fill_whole_batches :
  forall (b : Buffer) (xs : list T),
    IsIntialized b = false -> validateBuffer b = None ->
    FlushInterval b = 0 ->
    (forall (inTime : bool) (s' : system) (rs : list outcome),
        pushes inTime xs (fresh b) = (s', rs) ->
        Forall (fun r => r = Return None) rs ->
        Forall (fun c : nat * list T => length c.2 = N.to_nat (Size b)) (written s') /\
        flushed s' ++ pending s' = xs /\
        length (written s') = (length xs / N.to_nat (Size b))%nat /\
        length (pending s') = (length xs mod N.to_nat (Size b))%nat) /\
    ((Size b <= maxLen)%N -> delay < PushTimeout b ->
     exists s', pushes true xs (fresh b) = (s', replicate (length xs) (Return None))).
Proof.
  intros b xs Hi Hv _.
  assert (Hpos : (0 < N.to_nat (Size b))%nat).
  { apply validateBuffer_None in Hv. destruct Hv as [Hz _]. lia. }
  split.
  - intros inTime s' rs E Hnil. destruct xs as [|x xs].
    { simpl in E. injection E as <- _. simpl.
      rewrite Nat.Div0.div_0_l, Nat.Div0.mod_0_l. by split_and!. }
    assert (Hfit : (Size b <= maxLen)%N).
    { simpl in E. destruct (Push inTime x (fresh b)) as [[s1 r] ws] eqn:EP.
      destruct (pushes inTime xs s1) as [s2 rs']. injection E as <- <-.
      inversion Hnil as [|? ? Hr _]. subst r.
      apply (Push_first_nil _ _ _ _ _ Hi Hv EP). }
    destruct (Push_first inTime x b Hi Hv) as (s0 & Hs0 & HP).
    destruct (wf_initialize _ _ Hs0 Hfit) as (w0 & Hwf & Hp & Hc & Hwr & Hsz & _).
    assert (E0 : pushes inTime (x :: xs) s0 = (s', rs)).
    { simpl in *. by rewrite <- HP. }
    destruct (pushes_accepted (Size b) inTime (x :: xs) s0 w0 s' rs Hwf Hsz)
      as (w' & Hwf' & Hsz' & Hall & Hf); try done.
    { rewrite Hwr. constructor. }
    unfold flushed at 2 in Hf. rewrite Hwr in Hf.
    rewrite (pending_idle _ _ (wf_goroutine _ _ Hwf) Hc) in Hf. simpl in Hf.
    assert (Hall' : Forall (fun c : nat * list T => length c.2 = N.to_nat (Size b))
                      (written s')).
    { eapply Forall_impl; [exact Hall|]. simpl. intros c Hcl. lia. }
    assert (Hlt : (length (pending s') < N.to_nat (Size b))%nat).
    { pose proof (wf_point _ _ Hwf') as Hpt. pose proof (wf_len _ _ Hwf') as Hl.
      unfold pending. rewrite (wf_goroutine _ _ Hwf').
      destruct (at_point w'); simpl; rewrite ?length_take; unfold len in *; lia. }
    assert (Hlen : length (x :: xs) =
                   (length (written s') * N.to_nat (Size b) + length (pending s'))%nat).
    { rewrite <- Hf, length_app. unfold flushed. by rewrite (length_flushed _ _ Hall'). }
    split_and!; try done.
    + apply (Nat.div_unique _ _ _ (length (pending s'))); [lia|].
      rewrite Hlen. apply (f_equal (fun k => (k + _)%nat)), Nat.mul_comm.
    + apply (Nat.mod_unique _ _ (length (written s'))); [lia|].
      rewrite Hlen. apply (f_equal (fun k => (k + _)%nat)), Nat.mul_comm.
  - intros Hfit _. destruct xs as [|x xs]; [by exists (fresh b)|].
    destruct (Push_first true x b Hi Hv) as (s0 & Hs0 & HP).
    destruct (wf_initialize _ _ Hs0 Hfit) as (w0 & Hwf & Hp & _).
    destruct (pushes_inTime (x :: xs) s0 w0 Hwf (or_introl Hp)) as (s' & E).
    exists s'. simpl in *. by rewrite HP.
Qed.

End Consume.

Arguments item {T} x.
Arguments tick {T}.
Arguments flushReq {T}.
Arguments closeReq {T}.
Arguments Recv {T} ev.
Arguments Returns {T}.
Arguments CallPush {T} inTime x.
Arguments CallFlush {T} inTime.
Arguments CallClose {T} inTime1 inTime2.
Arguments Calls {T} c.
Arguments Ticks {T}.
Arguments Returned {T}.

(** ** The claims on the buffers of the test suite *)

Lemma reachable_after (acts : list (action Z)) (b : Buffer) :
  validateBuffer b = None -> (Size b <= maxInts)%N ->
  is_Some (exec Z 0 maxInts acts (started Z 0 maxInts b)) ->
  reachable Z 0 maxInts (after Z 0 maxInts acts b).
Proof.
  intros Hv Hfit [s Hs]. exists b, (started Z 0 maxInts b), acts. split_and!.
  - unfold started, initialize. simpl. rewrite Hv. reflexivity.
  - exact Hfit.
  - unfold after. rewrite Hs. reflexivity.
Qed.

(** Five pushes into a buffer of [Size] 5 that return nil: one call of
    [Write], with the five items; they do return nil, the push timeout
    being one second; and a run with two flushes and a close. *)
Lemma C1_witness :
  (let r := pushes Z 0 maxInts microsecond false [1; 2; 3; 4; 5] (fresh Z capacity5) in
   IsIntialized capacity5 = false /\ validateBuffer capacity5 = None /\
   FlushInterval capacity5 = 0 /\
   N.of_nat (length [1; 2; 3; 4; 5]) = Size capacity5 /\
   Forall (fun o => o = Return None) r.2 /\
   written Z r.1 = [(0%nat, [1; 2; 3; 4; 5])]) /\
  ((Size capacity5 <= maxInts)%N /\ delay microsecond < PushTimeout capacity5 /\
   exists s',
     pushes Z 0 maxInts microsecond false [1; 2; 3; 4; 5] (fresh Z capacity5) =
       (s', replicate 5 (Return None))) /\
  (let acts := [Recv (item 1); Recv (item 2); Returns; Recv (item 3);
                Recv flushReq; Returns; Recv (item 4); Recv closeReq; Returns] in
   let s := after Z 0 maxInts acts capacity2 in
   initialize Z 0 maxInts (fresh Z capacity2) = (started Z 0 maxInts capacity2, None) /\
   exec Z 0 maxInts acts (started Z 0 maxInts capacity2) = Some s /\
   flushed Z s ++ pending Z s = [1; 2; 3; 4] /\
   flushed Z s = [1; 2; 3; 4]).
Proof.
  assert (Hi : IsIntialized capacity5 = false) by (vm_compute; reflexivity).
  assert (Hv : validateBuffer capacity5 = None) by (vm_compute; reflexivity).
  assert (H0 : FlushInterval capacity5 = 0) by (vm_compute; reflexivity).
  assert (Hn : N.of_nat (length [1; 2; 3; 4; 5]) = Size capacity5)
    by (vm_compute; reflexivity).
  split; [|split].
  - intros r.
    assert (E : pushes Z 0 maxInts microsecond false [1; 2; 3; 4; 5] (fresh Z capacity5) =
                (r.1, r.2)) by (vm_compute; reflexivity).
    assert (Hall : Forall (fun o => o = Return None) r.2)
      by (vm_compute; repeat constructor).
    split; [exact Hi|]. split; [exact Hv|]. split; [exact H0|]. split; [exact Hn|].
    split; [exact Hall|].
    exact (proj1 (C1_batches_in_push_order Z 0 maxInts microsecond)
             capacity5 false [1; 2; 3; 4; 5] r.1 r.2 Hi Hv H0 Hn E Hall).
  - assert (Hfit : (Size capacity5 <= maxInts)%N) by (vm_compute; discriminate).
    assert (Hto : delay microsecond < PushTimeout capacity5) by (vm_compute; reflexivity).
    split; [exact Hfit|]. split; [exact Hto|].
    exact (proj1 (proj2 (C1_batches_in_push_order Z 0 maxInts microsecond))
             capacity5 false [1; 2; 3; 4; 5] Hi Hv H0 Hn Hfit Hto).
  - intros acts s.
    assert (Hi2 : initialize Z 0 maxInts (fresh Z capacity2) =
                  (started Z 0 maxInts capacity2, None))
      by (vm_compute; reflexivity).
    assert (He : exec Z 0 maxInts acts (started Z 0 maxInts capacity2) = Some s)
      by (vm_compute; reflexivity).
    split; [exact Hi2|]. split; [exact He|].
    destruct (proj2 (proj2 (C1_batches_in_push_order Z 0 maxInts microsecond)) capacity2
                (started Z 0 maxInts capacity2) s acts Hi2 He) as (H1 & H2 & _).
    split; [exact H1|]. apply H2. vm_compute. reflexivity.
Defined.

(** A run in which [Close] times out with its request accepted: [Size] 2,
    one item pushed, a flusher that has not returned when the second wait
    of [Close] expires.  Once the flusher
    has returned the goroutine is gone, and [Close] called again returns
    [ErrClosed], not nil. *)
Lemma C2_counterexample :
  let s := (Push Z 0 maxInts microsecond true 1 (fresh Z capacity2)).1.1 in
  let r := Close Z 0 maxInts microsecond true false s in
  r.1.2 = closeTimedOut /\
  r.2 = [Handed Second; Expired Second] /\
  exists s2 w2,
    Write_returns Z 0 maxInts r.1.1 = Some s2 /\
    goroutine Z s2 = Some w2 /\ at_point Z w2 = Exited /\
    (Close Z 0 maxInts microsecond true true s2).1.2 = Return (Some ErrClosed) /\
    (Close Z 0 maxInts microsecond true true s2).1.2 <> Return None.
Proof.
  intros s r. split; [vm_compute; reflexivity|]. split; [vm_compute; reflexivity|].
  destruct (Write_returns Z 0 maxInts r.1.1) as [s2|] eqn:E; [|vm_compute in E; discriminate].
  vm_compute in E. injection E as <-.
  eexists _, _. split; [reflexivity|]. split; [vm_compute; reflexivity|].
  split; [vm_compute; reflexivity|]. split; [vm_compute; reflexivity|].
  vm_compute. discriminate.
Qed.

(** [Close] timing out on a buffer of [Size] 2: with one item pending the
    request is accepted and the final flush outlasts the second wait; with
    nothing pending and a close timeout of zero the request is accepted,
    the goroutine closes [doneCh] and the timer expires first all the
    same; with a full batch being written the request is not accepted. *)
Lemma C2_witness :
  (let s := after Z 0 maxInts [Recv (item 1)] capacity2 in
   reachable Z 0 maxInts s /\
   exists s1,
     Close Z 0 maxInts microsecond true false s =
       (s1, closeTimedOut, [Handed Second; Expired Second]) /\
     exists s2 w2,
       (Write_returns Z 0 maxInts s1 = Some s2 \/ (s2 = s1 /\ Second <= delay microsecond)) /\
       goroutine Z s2 = Some w2 /\ at_point Z w2 = Exited /\
       closed (buffer Z s2) = true /\
       forall again1 again2 : bool,
         Close Z 0 maxInts microsecond again1 again2 s2 =
           (s2, Return (Some ErrClosed), [])) /\
  (let s := after Z 0 maxInts [] capacity2_close0 in
   reachable Z 0 maxInts s /\
   exists s1,
     Close Z 0 maxInts microsecond true false s =
       (s1, closeTimedOut, [Handed 0; Expired 0]) /\
     closed (buffer Z s1) = true /\
     exists s2 w2,
       (Write_returns Z 0 maxInts s1 = Some s2 \/ (s2 = s1 /\ 0 <= delay microsecond)) /\
       goroutine Z s2 = Some w2 /\ at_point Z w2 = Exited /\
       closed (buffer Z s2) = true /\
       forall again1 again2 : bool,
         Close Z 0 maxInts microsecond again1 again2 s2 =
           (s2, Return (Some ErrClosed), [])) /\
  (let s := after Z 0 maxInts [Recv (item 1); Recv (item 2)] capacity2 in
   reachable Z 0 maxInts s /\
   Close Z 0 maxInts microsecond false true s = (s, closeTimedOut, [Expired Second]) /\
   exists s2 s3,
     Write_returns Z 0 maxInts s = Some s2 /\
     closed (buffer Z s3) = true /\
     forall again1 again2 : bool,
       delay microsecond < CloseTimeout (buffer Z s) ->
       Close Z 0 maxInts microsecond again1 again2 s2 =
         (s3, Return None,
          [Handed (CloseTimeout (buffer Z s)); Handed (CloseTimeout (buffer Z s))])).
Proof.
  split; [|split].
  - intros s.
    assert (Hr : reachable Z 0 maxInts s).
    { apply reachable_after;
      [vm_compute; reflexivity | vm_compute; discriminate | vm_compute; eauto]. }
    split; [exact Hr|].
    eexists. split; [vm_compute; reflexivity|].
    apply (proj1 (C2_close_after_timeout Z 0 maxInts microsecond) s _ true false Second Hr).
    vm_compute. reflexivity.
  - intros s.
    assert (Hr : reachable Z 0 maxInts s).
    { apply reachable_after;
      [vm_compute; reflexivity | vm_compute; discriminate | vm_compute; eauto]. }
    split; [exact Hr|].
    eexists. split; [vm_compute; reflexivity|]. split; [vm_compute; reflexivity|].
    apply (proj1 (C2_close_after_timeout Z 0 maxInts microsecond) s _ true false 0 Hr).
    vm_compute. reflexivity.
  - intros s.
    assert (Hr : reachable Z 0 maxInts s).
    { apply reachable_after;
      [vm_compute; reflexivity | vm_compute; discriminate | vm_compute; eauto]. }
    split; [exact Hr|].
    assert (Hg : exists w, goroutine Z s = Some w /\ at_point Z w = InWrite /\
                           isOpen Z w = true).
    { eexists. split; [vm_compute; reflexivity|]. split; vm_compute; reflexivity. }
    destruct Hg as (w & Hg & Hp & Ho).
    apply (proj1 (proj2 (C2_close_after_timeout Z 0 maxInts microsecond))
             s w true Hr Hg Hp Ho).
Defined.

(** A close request with one item pending in a buffer of [Size] 2; one
    [Push] and then [Close] on a new buffer of [Size] 2. *)
Lemma C3_witness :
  (let s := after Z 0 maxInts [Recv (item 1)] capacity2 in
   reachable Z 0 maxInts s /\
   exists w,
     goroutine Z s = Some w /\ at_point Z w = AtSelect /\ 0 < count Z w /\
     exists s1 s2 w2,
       iterate Z closeReq s = Some s1 /\
       pending Z s <> [] /\
       written Z s1 = written Z s ++ [(backing Z w, pending Z s)] /\
       doneCh (buffer Z s1) = openChan /\
       (forall ev, iterate Z ev s1 = None) /\
       Write_returns Z 0 maxInts s1 = Some s2 /\
       written Z s2 = written Z s1 /\
       doneCh (buffer Z s2) = closedChan /\
       goroutine Z s2 = Some w2 /\ at_point Z w2 = Exited /\
       (forall a, act Z 0 maxInts a s2 = None)) /\
  ((2 <= maxInts)%N /\ delay microsecond < Second /\
   let b := New [WithSize 2; WithFlusher (Some sink)] in
   let s1 := (Push Z 0 maxInts microsecond false 7 (fresh Z b)).1.1 in
   (Push Z 0 maxInts microsecond false 7 (fresh Z b)).1.2 = Return None /\
   written Z s1 = [] /\
   written Z (Close Z 0 maxInts microsecond false false s1).1.1 = [(0%nat, [7])] /\
   (Close Z 0 maxInts microsecond false true s1).1.2 = Return None).
Proof.
  split.
  - intros s.
    assert (Hr : reachable Z 0 maxInts s).
    { apply reachable_after;
      [vm_compute; reflexivity | vm_compute; discriminate | vm_compute; eauto]. }
    split; [exact Hr|].
    eexists. split; [vm_compute; reflexivity|].
    split; [vm_compute; reflexivity|]. split; [vm_compute; reflexivity|].
    refine (proj1 (proj1 (C3_close_flushes_then_signals Z 0 maxInts microsecond)
                     s _ Hr _ _) _);
      vm_compute; reflexivity.
  - assert (Hm : (2 <= maxInts)%N) by (vm_compute; discriminate).
    assert (Hl : delay microsecond < Second) by (vm_compute; reflexivity).
    split; [exact Hm|]. split; [exact Hl|].
    exact (proj2 (C3_close_flushes_then_signals Z 0 maxInts microsecond)
             7 false false false Hm Hl).
Defined.

(** [Flush] with two items pending in a buffer of [Size] 5, the flush
    timeout being one second. *)
Lemma C4_witness :
  let s := after Z 0 maxInts [Recv (item 1); Recv (item 2)] capacity5 in
  reachable Z 0 maxInts s /\
  exists w,
    goroutine Z s = Some w /\ at_point Z w = AtSelect /\ 0 < count Z w /\
    delay microsecond < FlushTimeout (buffer Z s) /\
    exists sa,
      iterate Z flushReq s = Some sa /\
      written Z sa = written Z s ++ [(backing Z w, pending Z s)] /\
      written Z sa = [(0%nat, [1; 2])] /\
      Flush Z 0 maxInts microsecond false s =
        (sa, Return None, [Handed (FlushTimeout (buffer Z s))]).
Proof.
  intros s.
  assert (Hr : reachable Z 0 maxInts s).
  { apply reachable_after;
      [vm_compute; reflexivity | vm_compute; discriminate | vm_compute; eauto]. }
  assert (Hg : exists w, goroutine Z s = Some w /\ at_point Z w = AtSelect /\
                         0 < count Z w).
  { eexists. split; [vm_compute; reflexivity|]. split; vm_compute; reflexivity. }
  destruct Hg as (w & Hg & Hp & Hc).
  assert (Hto : delay microsecond < FlushTimeout (buffer Z s)) by (vm_compute; reflexivity).
  destruct (C4_manual_flush Z 0 maxInts microsecond s w false Hr Hg Hp)
    as (sa & E & Hpos & _ & _ & Hacc & _).
  destruct (Hpos Hc) as (_ & _ & Hwr & _).
  split; [exact Hr|]. exists w.
  split; [exact Hg|]. split; [exact Hp|]. split; [exact Hc|]. split; [exact Hto|].
  exists sa. split; [exact E|]. split; [exact Hwr|]. split.
  - vm_compute in E. injection E as <-. vm_compute. reflexivity.
  - exact (Hacc (or_intror Hto)).
Defined.

(** [Close] returns nil on a buffer of [Size] 2 with one item pending and
    a flusher that returns in time; then [Push], [Flush] and [Close]
    return [ErrClosed]. *)
Lemma C5_witness :
  let s := after Z 0 maxInts [Recv (item 1)] capacity2 in
  exists s',
    Close Z 0 maxInts microsecond true true s = (s', Return None, [Handed Second; Handed Second]) /\
    (forall c : call Z, invoke Z 0 maxInts microsecond c s' = (s', Return (Some ErrClosed), [])) /\
    invoke_all Z 0 maxInts microsecond
      [Calls (CallPush true 7); Ticks; Calls (CallFlush true); Returned;
       Calls (CallClose true true)] s' =
      (s', replicate 3 (Return (Some ErrClosed), [])).
Proof.
  intros s. eexists. split; [vm_compute; reflexivity|].
  match goal with
  | |- (forall c, invoke Z 0 maxInts microsecond c ?s' = _) /\ _ =>
      assert (H : Close Z 0 maxInts microsecond true true s = (s', Return None, [Handed Second; Handed Second]))
        by (vm_compute; reflexivity)
  end.
  destruct (C5_closed_after_close Z 0 maxInts microsecond _ _ _ _ _ H) as [H1 H2].
  split; [exact H1|].
  exact (H2 [Calls (CallPush true 7); Ticks; Calls (CallFlush true); Returned;
             Calls (CallClose true true)]).
Defined.

(** A buffer made with no option breaks two rules, the size and the
    flusher; [validateBuffer] returns the error of the size only, the same
    as for a buffer that has a flusher.  So its result does not report
    every rule that fails. *)
Lemma C6_counterexample :
  violations (New []) = [errorString invalidSize; errorString invalidFlusher] /\
  validateBuffer (New []) = Some (errorString invalidSize) /\
  errors_Is (errorString invalidSize) (errorString invalidFlusher) = false /\
  validateBuffer (New [WithFlusher (Some sink)]) = validateBuffer (New []) /\
  ~ reports_every_violation.
Proof.
  assert (H1 : violations (New []) =
               [errorString invalidSize; errorString invalidFlusher])
    by (vm_compute; reflexivity).
  assert (H2 : validateBuffer (New []) = Some (errorString invalidSize))
    by (vm_compute; reflexivity).
  assert (H3 : errors_Is (errorString invalidSize) (errorString invalidFlusher) = false)
    by (vm_compute; reflexivity).
  split_and!; try assumption; try (vm_compute; reflexivity).
  intros H. destruct (H (New []) (errorString invalidFlusher)) as (r & Hr & Hi).
  - rewrite H1. apply list_elem_of_further, list_elem_of_here.
  - rewrite H2 in Hr. injection Hr as <-. rewrite H3 in Hi. discriminate.
Qed.

(** Three rules broken, the first one reported, nothing started. *)
Lemma C6_witness :
  let b := New [WithFlusher (Some sink); WithPushTimeout (-1); WithCloseTimeout (-1)] in
  let e := errorString "size cannot be zero" in
  violations b =
    [e; errorString "timeout cannot be negative (PushTimeout)";
     errorString "timeout cannot be negative (CloseTimeout)"] /\
  validateBuffer b = Some e /\
  initialize Z 0 maxInts (fresh Z b) = (fresh Z b, Some e) /\
  IsIntialized b = false /\
  Push Z 0 maxInts microsecond true 1 (fresh Z b) = (fresh Z b, Return (Some e), []).
Proof.
  intros b e.
  assert (Hv : validateBuffer b = Some e) by (vm_compute; reflexivity).
  assert (Hi : IsIntialized b = false) by (vm_compute; reflexivity).
  destruct (C6_validation_reports_first_failure Z 0 maxInts microsecond b) as (_ & _ & _ & H).
  destruct (H e Hv) as [H1 H2].
  split; [vm_compute; reflexivity|]. split; [exact Hv|]. split; [exact H1|].
  split; [exact Hi | exact (H2 Hi true 1)].
Defined.

(** An interval of five nanoseconds: a tick on the empty batch changes
    nothing; a tick with one item pending stops ticker 0, and ticker 1 is
    made when [Write] has returned. *)
Lemma C7_witness :
  (let s := after Z 0 maxInts [] capacity2_every5 in
   reachable Z 0 maxInts s /\
   exists w,
     goroutine Z s = Some w /\ at_point Z w = AtSelect /\ count Z w = 0 /\
     ticker Z w <> None /\ iterate Z tick s = Some s) /\
  (let s := after Z 0 maxInts [Recv (item 1)] capacity2_every5 in
   reachable Z 0 maxInts s /\
   exists s1 w w1,
     goroutine Z s = Some w /\ iterate Z tick s = Some s1 /\
     goroutine Z s1 = Some w1 /\ at_point Z w1 = InWrite /\
     FlushInterval (buffer Z s) <> 0 /\
     tickers Z s = [mkTicker 5 false] /\
     tickers Z s1 = [mkTicker 5 true] /\
     exists s2 w2,
       Write_returns Z 0 maxInts s1 = Some s2 /\ goroutine Z s2 = Some w2 /\
       ticker Z w2 = Some 1%nat /\
       tickers Z s2 = [mkTicker 5 true; mkTicker 5 false]).
Proof.
  split.
  - intros s.
    assert (Hr : reachable Z 0 maxInts s).
    { apply reachable_after;
      [vm_compute; reflexivity | vm_compute; discriminate | vm_compute; eauto]. }
    split; [exact Hr|].
    eexists. split; [vm_compute; reflexivity|].
    split; [vm_compute; reflexivity|]. split; [vm_compute; reflexivity|].
    split; [vm_compute; discriminate|].
    refine (proj2 (proj1 (C7_timer_restarts_after_flush Z 0 maxInts) s _ Hr _ _ _) _);
      vm_compute; (reflexivity || discriminate).
  - intros s.
    assert (Hr : reachable Z 0 maxInts s).
    { apply reachable_after;
      [vm_compute; reflexivity | vm_compute; discriminate | vm_compute; eauto]. }
    split; [exact Hr|].
    assert (Hg : exists w, goroutine Z s = Some w) by (vm_compute; eauto).
    destruct Hg as [w Hg].
    assert (E : exists s1, iterate Z tick s = Some s1) by (vm_compute; eauto).
    destruct E as [s1 E].
    assert (Hg1 : exists w1, goroutine Z s1 = Some w1 /\ at_point Z w1 = InWrite).
    { vm_compute in E. injection E as <-. vm_compute. eauto. }
    destruct Hg1 as (w1 & Hg1 & Hp1).
    assert (Hnz : FlushInterval (buffer Z s) <> 0) by (vm_compute; discriminate).
    destruct (proj2 (C7_timer_restarts_after_flush Z 0 maxInts) s s1 w w1 tick Hr Hg E Hg1 Hp1)
      as (_ & Hts & _ & s2 & w2 & E2 & Hg2 & _ & _ & H).
    destruct (H Hnz) as (Htk & _ & _ & Hts2).
    assert (Hs : tickers Z s = [mkTicker 5 false]) by (vm_compute; reflexivity).
    assert (Hw : stopTicker Z w = Some 0%nat).
    { vm_compute in Hg. injection Hg as <-. reflexivity. }
    assert (Hs1 : tickers Z s1 = [mkTicker 5 true]).
    { rewrite Hts, Hs, Hw. reflexivity. }
    assert (Ho2 : isOpen Z w2 = true).
    { vm_compute in E. injection E as <-. vm_compute in E2. injection E2 as <-.
      vm_compute in Hg2. injection Hg2 as <-. reflexivity. }
    exists s1, w, w1. split_and!; try assumption.
    exists s2, w2. split_and!; try assumption.
    + rewrite Htk, Hs1. reflexivity.
    + rewrite Hts2, Hs1, Ho2. vm_compute. reflexivity.
Defined.

(** The flush of a full batch of two items. *)
Lemma C8_witness :
  let s := after Z 0 maxInts [Recv (item 1); Recv (item 2)] capacity2 in
  reachable Z 0 maxInts s /\
  exists w,
    goroutine Z s = Some w /\ at_point Z w = InWrite /\
    0 <= count Z w <= Z.of_N (Size (buffer Z s)) /\
    exists s' w',
      Write_returns Z 0 maxInts s = Some s' /\ goroutine Z s' = Some w' /\
      count Z w' = 0 /\ pending Z s' = [] /\
      make Z 0 maxInts (Size (buffer Z s)) = Some (items Z w') /\
      backing Z w' = arrays Z s /\ backing Z w' <> backing Z w /\
      forall a batch, (a, batch) ∈ written Z s' -> a <> backing Z w'.
Proof.
  intros s.
  assert (Hr : reachable Z 0 maxInts s).
  { apply reachable_after;
      [vm_compute; reflexivity | vm_compute; discriminate | vm_compute; eauto]. }
  split; [exact Hr|].
  assert (Hg : exists w, goroutine Z s = Some w /\ at_point Z w = InWrite).
  { eexists. split; vm_compute; reflexivity. }
  destruct Hg as (w & Hg & Hp). exists w.
  destruct (C8_batch_within_capacity Z 0 maxInts) as (H1 & _ & H3).
  split; [exact Hg|]. split; [exact Hp|].
  split; [exact (proj1 (H1 s w Hr Hg))|]. exact (H3 s w Hr Hg Hp).
Defined.

(** The second batch of a run, flushed by a close request with one item
    pending. *)
Lemma C10_witness :
  let acts := [Recv (item 1); Recv (item 2); Returns; Recv (item 3); Recv closeReq] in
  let s := after Z 0 maxInts acts capacity2 in
  validateBuffer capacity2 = None /\
  exec Z 0 maxInts acts (initialize Z 0 maxInts (fresh Z capacity2)).1 = Some s /\
  (1%nat, [3]) ∈ written Z s /\
  (1 <= Size capacity2)%N /\ (1 <= length [3] <= N.to_nat (Size capacity2))%nat.
Proof.
  intros acts s.
  assert (Hv : validateBuffer capacity2 = None) by (vm_compute; reflexivity).
  assert (He : exec Z 0 maxInts acts (initialize Z 0 maxInts (fresh Z capacity2)).1 = Some s)
    by (vm_compute; reflexivity).
  assert (Hin : (1%nat, [3]) ∈ written Z s).
  { vm_compute. apply list_elem_of_further, list_elem_of_here. }
  split; [exact Hv|]. split; [exact He|]. split; [exact Hin|].
  exact (C10_written_batches_nonempty Z 0 maxInts capacity2 acts s 1%nat [3] Hv He Hin).
Defined.

(** ** The further properties on concrete buffers *)

(** Two sizes, and a size with a push timeout. *)
Lemma options_override_and_commute_witness :
  (sets (WithSize 3) = sets (WithSize 7) /\
   New ([WithFlusher (Some sink)] ++ [WithSize 3; WithSize 7]) =
   New ([WithFlusher (Some sink)] ++ [WithSize 7])) /\
  (sets (WithSize 3) <> sets (WithPushTimeout 9) /\
   New ([] ++ [WithSize 3; WithPushTimeout 9]) =
   New ([] ++ [WithPushTimeout 9; WithSize 3])).
Proof.
  split.
  - split; [reflexivity|].
    apply (proj1 (options_override_and_commute [WithFlusher (Some sink)]
                    (WithSize 3) (WithSize 7))). reflexivity.
  - assert (H : sets (WithSize 3) <> sets (WithPushTimeout 9)) by discriminate.
    split; [exact H|].
    apply (proj2 (options_override_and_commute [] (WithSize 3) (WithPushTimeout 9)) H).
Defined.

(** A buffer with a flusher and no size; a buffer with a size and no
    flusher. *)
Lemma required_options_witness :
  (Forall (fun opt => sets opt <> SizeField) [WithFlusher (Some sink)] /\
   Push Z 0 maxInts microsecond true 1 (fresh Z (New [WithFlusher (Some sink)])) =
     (fresh Z (New [WithFlusher (Some sink)]),
      Return (Some (errorString invalidSize)), [])) /\
  (Forall (fun opt => sets opt <> FlusherField) [WithSize 4] /\
   Size (New [WithSize 4]) <> 0%N /\
   Push Z 0 maxInts microsecond true 1 (fresh Z (New [WithSize 4])) =
     (fresh Z (New [WithSize 4]), Return (Some (errorString invalidFlusher)), [])).
Proof.
  split.
  - assert (H : Forall (fun opt => sets opt <> SizeField) [WithFlusher (Some sink)]).
    { repeat constructor. discriminate. }
    split; [exact H|].
    exact (proj1 (required_options Z 0 maxInts microsecond [WithFlusher (Some sink)] true 1) H).
  - assert (H : Forall (fun opt => sets opt <> FlusherField) [WithSize 4]).
    { repeat constructor. discriminate. }
    assert (Hs : Size (New [WithSize 4]) <> 0%N) by (vm_compute; discriminate).
    split; [exact H|]. split; [exact Hs|].
    exact (proj2 (required_options Z 0 maxInts microsecond [WithSize 4] true 1) H Hs).
Defined.

(** A negative interval. *)
Lemma validateBuffer_messages_witness :
  let b := New [WithSize 1; WithFlusher (Some sink); WithFlushInterval (-1)] in
  Size b <> 0%N /\ Flusher b <> None /\ FlushInterval b < 0 /\
  validateBuffer b =
    Some (errorString "interval must be greater than zero (FlushInterval)").
Proof.
  intros b.
  assert (Hs : Size b <> 0%N) by (vm_compute; discriminate).
  assert (Hf : Flusher b <> None) by (vm_compute; discriminate).
  assert (Hi : FlushInterval b < 0) by (vm_compute; reflexivity).
  split; [exact Hs|]. split; [exact Hf|]. split; [exact Hi|].
  exact (proj1 (validateBuffer_messages b Hs Hf) Hi).
Defined.

(** A buffer of [Size] 2 with one item pending takes a second item. *)
Lemma loop_never_panics_witness :
  let s := after Z 0 maxInts [Recv (item 1)] capacity2 in
  reachable Z 0 maxInts s /\
  exists w,
    goroutine Z s = Some w /\ at_point Z w = AtSelect /\
    receivable Z (item 2) w = true /\
    at_point Z w <> Panicked /\
    exists s' w', iterate Z (item 2) s = Some s' /\ goroutine Z s' = Some w' /\
                  at_point Z w' <> Panicked.
Proof.
  intros s.
  assert (Hr : reachable Z 0 maxInts s).
  { apply reachable_after;
      [vm_compute; reflexivity | vm_compute; discriminate | vm_compute; eauto]. }
  assert (Hg : exists w, goroutine Z s = Some w /\ at_point Z w = AtSelect).
  { eexists. split; vm_compute; reflexivity. }
  destruct Hg as (w & Hg & Hp).
  destruct (loop_never_panics Z 0 maxInts s w Hr Hg) as (Hnp & Hsel & _).
  split; [exact Hr|]. exists w.
  split; [exact Hg|]. split; [exact Hp|]. split; [reflexivity|]. split; [exact Hnp|].
  exact (Hsel Hp (item 2) eq_refl).
Defined.

(** After a close request with one item pending and the return of the
    flusher, [doneCh] is closed and the goroutine gone. *)
Lemma done_iff_exited_witness :
  let s := after Z 0 maxInts [Recv (item 1); Recv closeReq; Returns] capacity2 in
  reachable Z 0 maxInts s /\
  exists w,
    goroutine Z s = Some w /\ at_point Z w = Exited /\
    closed (buffer Z s) = true /\ pending Z s = [] /\ isOpen Z w = false.
Proof.
  intros s.
  assert (Hr : reachable Z 0 maxInts s).
  { apply reachable_after;
      [vm_compute; reflexivity | vm_compute; discriminate | vm_compute; eauto]. }
  assert (Hg : exists w, goroutine Z s = Some w /\ at_point Z w = Exited).
  { eexists. split; vm_compute; reflexivity. }
  destruct Hg as (w & Hg & Hp).
  destruct (done_iff_exited Z 0 maxInts s w Hr Hg) as (Hiff & Hex & _).
  split; [exact Hr|]. exists w.
  split; [exact Hg|]. split; [exact Hp|]. split; [exact (proj2 Hiff Hp)|].
  exact (Hex Hp).
Defined.

(** An interval of five nanoseconds, after one flush: ticker 0 is stopped
    and ticker 1 runs. *)
Lemma at_most_one_running_ticker_witness :
  let s := after Z 0 maxInts [Recv (item 1); Recv tick; Returns] capacity2_every5 in
  reachable Z 0 maxInts s /\
  exists w,
    goroutine Z s = Some w /\ at_point Z w = AtSelect /\
    FlushInterval (buffer Z s) <> 0 /\
    tickers Z s = [mkTicker 5 true; mkTicker 5 false] /\
    (length (running (tickers Z s)) <= 1)%nat /\
    running (tickers Z s) = [mkTicker (FlushInterval (buffer Z s)) false].
Proof.
  intros s.
  assert (Hr : reachable Z 0 maxInts s).
  { apply reachable_after;
      [vm_compute; reflexivity | vm_compute; discriminate | vm_compute; eauto]. }
  assert (Hg : exists w, goroutine Z s = Some w /\ at_point Z w = AtSelect).
  { eexists. split; vm_compute; reflexivity. }
  destruct Hg as (w & Hg & Hp).
  assert (Hnz : FlushInterval (buffer Z s) <> 0) by (vm_compute; discriminate).
  destruct (at_most_one_running_ticker Z 0 maxInts s w Hr Hg) as (Hle & _ & _ & Hrun).
  split; [exact Hr|]. exists w.
  split; [exact Hg|]. split; [exact Hp|]. split; [exact Hnz|].
  split; [vm_compute; reflexivity|]. split; [exact Hle|].
  exact (proj1 (Hrun Hp Hnz)).
Defined.

(** Two flushes of a buffer of [Size] 1: arrays 0 and 1 were handed over,
    the loop appends to array 2. *)
Lemma written_arrays_distinct_witness :
  let s := after Z 0 maxInts [Recv (item 1); Returns; Recv (item 2); Returns] capacity1 in
  reachable Z 0 maxInts s /\
  exists w,
    goroutine Z s = Some w /\ at_point Z w <> InWrite /\
    (written Z s).*1 = [0%nat; 1%nat] /\ backing Z w = 2%nat /\
    NoDup (written Z s).*1 /\ backing Z w ∉ (written Z s).*1.
Proof.
  intros s.
  assert (Hr : reachable Z 0 maxInts s).
  { apply reachable_after;
      [vm_compute; reflexivity | vm_compute; discriminate | vm_compute; eauto]. }
  assert (Hg : exists w, goroutine Z s = Some w /\ at_point Z w <> InWrite /\
                         backing Z w = 2%nat).
  { eexists. split; [vm_compute; reflexivity|]. split; [vm_compute; discriminate|].
    vm_compute. reflexivity. }
  destruct Hg as (w & Hg & Hp & Hb).
  destruct (written_arrays_distinct Z 0 maxInts s w Hr Hg) as (Hnd & Hnot).
  split; [exact Hr|]. exists w.
  split; [exact Hg|]. split; [exact Hp|]. split; [vm_compute; reflexivity|].
  split; [exact Hb|]. split; [exact Hnd | exact (Hnot Hp)].
Defined.

(** Four items into a buffer of [Size] 5. *)
Lemma no_flush_below_capacity_witness :
  let r := pushes Z 0 maxInts microsecond false [1; 2; 3; 4] (fresh Z capacity5) in
  IsIntialized capacity5 = false /\ validateBuffer capacity5 = None /\
  FlushInterval capacity5 = 0 /\
  (N.of_nat (length [1; 2; 3; 4]) < Size capacity5)%N /\
  Forall (fun o => o = Return None) r.2 /\
  written Z r.1 = [] /\ pending Z r.1 = [1; 2; 3; 4].
Proof.
  intros r.
  assert (Hi : IsIntialized capacity5 = false) by (vm_compute; reflexivity).
  assert (Hv : validateBuffer capacity5 = None) by (vm_compute; reflexivity).
  assert (H0 : FlushInterval capacity5 = 0) by (vm_compute; reflexivity).
  assert (Hn : (N.of_nat (length [1; 2; 3; 4]) < Size capacity5)%N)
    by (vm_compute; reflexivity).
  assert (E : pushes Z 0 maxInts microsecond false [1; 2; 3; 4] (fresh Z capacity5) =
              (r.1, r.2)) by (vm_compute; reflexivity).
  assert (Hall : Forall (fun o => o = Return None) r.2)
    by (vm_compute; repeat constructor).
  split; [exact Hi|]. split; [exact Hv|]. split; [exact H0|]. split; [exact Hn|].
  split; [exact Hall|].
  exact (proj1 (no_flush_below_capacity Z 0 maxInts microsecond capacity5 false
                  [1; 2; 3; 4] Hi Hv H0 Hn) r.1 r.2 E Hall).
Defined.

(** The second item fills a buffer of [Size] 2. *)
Lemma capacity_flush_is_full_witness :
  let s := after Z 0 maxInts [Recv (item 1)] capacity2 in
  let s1 := after Z 0 maxInts [Recv (item 1); Recv (item 2)] capacity2 in
  reachable Z 0 maxInts s /\
  exists w,
    goroutine Z s = Some w /\ iterate Z (item 2) s = Some s1 /\
    written Z s1 = [(0%nat, [1; 2])] /\
    ((count Z w + 1 < Z.of_N (Size (buffer Z s)) /\
      written Z s1 = written Z s /\ pending Z s1 = pending Z s ++ [2]) \/
     (count Z w + 1 = Z.of_N (Size (buffer Z s)) /\
      written Z s1 = written Z s ++ [(backing Z w, pending Z s ++ [2])] /\
      N.of_nat (length (pending Z s ++ [2])) = Size (buffer Z s) /\
      pending Z s1 = [])).
Proof.
  intros s s1.
  assert (Hr : reachable Z 0 maxInts s).
  { apply reachable_after;
      [vm_compute; reflexivity | vm_compute; discriminate | vm_compute; eauto]. }
  assert (Hg : exists w, goroutine Z s = Some w) by (vm_compute; eauto).
  destruct Hg as (w & Hg).
  assert (E : iterate Z (item 2) s = Some s1) by (vm_compute; reflexivity).
  split; [exact Hr|]. exists w.
  split; [exact Hg|]. split; [exact E|]. split; [vm_compute; reflexivity|].
  exact (capacity_flush_is_full Z 0 maxInts s s1 w 2 Hr Hg E).
Defined.

(** An interval of five nanoseconds, one item pending, a tick. *)
Lemma tick_flushes_pending_witness :
  let s := after Z 0 maxInts [Recv (item 1)] capacity2_every5 in
  reachable Z 0 maxInts s /\
  exists w,
    goroutine Z s = Some w /\ at_point Z w = AtSelect /\
    ticker Z w <> None /\ 0 < count Z w /\
    exists s1 s2 w2,
      iterate Z tick s = Some s1 /\
      written Z s1 = written Z s ++ [(backing Z w, pending Z s)] /\
      running (tickers Z s1) = [] /\
      Write_returns Z 0 maxInts s1 = Some s2 /\
      written Z s2 = written Z s1 /\
      goroutine Z s2 = Some w2 /\ at_point Z w2 = AtSelect /\ pending Z s2 = [] /\
      running (tickers Z s2) = [mkTicker (FlushInterval (buffer Z s)) false].
Proof.
  intros s.
  assert (Hr : reachable Z 0 maxInts s).
  { apply reachable_after;
      [vm_compute; reflexivity | vm_compute; discriminate | vm_compute; eauto]. }
  assert (Hg : exists w, goroutine Z s = Some w /\ at_point Z w = AtSelect /\
                         ticker Z w <> None /\ 0 < count Z w).
  { eexists. split; [vm_compute; reflexivity|]. split; [vm_compute; reflexivity|].
    split; [vm_compute; discriminate | vm_compute; reflexivity]. }
  destruct Hg as (w & Hg & Hp & Htk & Hc).
  split; [exact Hr|]. exists w.
  split; [exact Hg|]. split; [exact Hp|]. split; [exact Htk|]. split; [exact Hc|].
  exact (tick_flushes_pending Z 0 maxInts s w Hr Hg Hp Htk Hc).
Defined.

(** A flush, a close and two pushes between them on a buffer of [Size] 2
    with an interval: nothing panics. *)
Lemma sequential_calls_never_panic_witness :
  let opts := [WithSize 2; WithFlusher (Some sink); WithFlushInterval 5] in
  let hs := [Calls (CallFlush true); Calls (CallPush true 1); Ticks;
             Calls (CallPush false 2); Returned; Calls (CallClose true true);
             Calls (CallPush true 3)] in
  (Size (New opts) <= maxInts)%N /\
  Forall2 (well_returned Z) (calls Z hs)
    (((invoke_all Z 0 maxInts microsecond hs (fresh Z (New opts))).2).*1) /\
  ((invoke_all Z 0 maxInts microsecond hs (fresh Z (New opts))).2).*1 =
    [timed_out "failed to flush buffer within flush timeout"; Return None;
     timed_out "buffer is full"; Return None; Return (Some ErrClosed)].
Proof.
  intros opts hs.
  assert (Hfit : (Size (New opts) <= maxInts)%N) by (vm_compute; discriminate).
  split; [exact Hfit|]. split; [|vm_compute; reflexivity].
  exact (sequential_calls_never_panic Z 0 maxInts microsecond opts hs Hfit).
Defined.

(** Two pushes, a push that times out because the flusher is late, a
    push, a flush, a push and a close, on a buffer of [Size] 2: the
    flusher has the four accepted items. *)
Lemma accepted_items_delivered_in_order_witness :
  let hs := [Calls (CallPush true 1); Calls (CallPush true 2);
             Calls (CallPush false 3); Returned; Calls (CallPush true 4);
             Calls (CallFlush true); Calls (CallPush true 5);
             Calls (CallClose true true)] in
  let s' := (invoke_all Z 0 maxInts microsecond hs
               (fresh Z (New [WithSize 2; WithFlusher (Some sink)]))).1 in
  closed (buffer Z s') = true /\
  written Z s' = [(0%nat, [1; 2]); (1%nat, [4]); (2%nat, [5])] /\
  flushed Z s' =
    accepted_all Z (calls Z hs)
      (invoke_all Z 0 maxInts microsecond hs
         (fresh Z (New [WithSize 2; WithFlusher (Some sink)]))).2 /\
  flushed Z s' = [1; 2; 4; 5].
Proof.
  intros hs s'.
  assert (Hc : closed (buffer Z s') = true) by (vm_compute; reflexivity).
  pose proof (proj2 (accepted_items_delivered_in_order Z 0 maxInts microsecond
                       [WithSize 2; WithFlusher (Some sink)] hs) Hc) as H.
  split; [exact Hc|]. split; [vm_compute; reflexivity|]. split; [exact H|].
  vm_compute. reflexivity.
Defined.

(** A full batch of a buffer of [Size] 2 is being written. *)
Lemma calls_during_a_flush_witness :
  let s := after Z 0 maxInts [Recv (item 1); Recv (item 2)] capacity2 in
  reachable Z 0 maxInts s /\
  exists w,
    goroutine Z s = Some w /\ at_point Z w = InWrite /\ isOpen Z w = true /\
    Push Z 0 maxInts microsecond false 3 s =
      (s, timed_out "buffer is full", [Expired (PushTimeout (buffer Z s))]) /\
    exists s2,
      Push Z 0 maxInts microsecond true 3 s = (s2, Return None, [Handed (PushTimeout (buffer Z s))]) /\
      flushed Z s2 ++ pending Z s2 = flushed Z s ++ [3].
Proof.
  intros s.
  assert (Hr : reachable Z 0 maxInts s).
  { apply reachable_after;
      [vm_compute; reflexivity | vm_compute; discriminate | vm_compute; eauto]. }
  assert (Hg : exists w, goroutine Z s = Some w /\ at_point Z w = InWrite /\
                         isOpen Z w = true).
  { eexists. split; [vm_compute; reflexivity|]. split; vm_compute; reflexivity. }
  destruct Hg as (w & Hg & Hp & Ho).
  destruct (calls_during_a_flush Z 0 maxInts microsecond s w 3 Hr Hg Hp Ho)
    as (H1 & _ & s1 & _ & _ & _ & s2 & H2 & _ & H3).
  split; [exact Hr|]. exists w.
  split; [exact Hg|]. split; [exact Hp|]. split; [exact Ho|]. split; [exact H1|].
  exists s2. split; [exact H2 | exact H3].
Defined.

(** The final flush of a buffer of [Size] 2 with one item is running. *)
Lemma calls_during_the_final_flush_witness :
  let s := after Z 0 maxInts [Recv (item 1); Recv closeReq] capacity2 in
  reachable Z 0 maxInts s /\
  exists w,
    goroutine Z s = Some w /\ at_point Z w = InWrite /\ isOpen Z w = false /\
    Push Z 0 maxInts microsecond true 2 s =
      (await Z 0 maxInts true s, timed_out "buffer is full",
       [Expired (PushTimeout (buffer Z s))]) /\
    Close Z 0 maxInts microsecond true true s =
      (await Z 0 maxInts true s, closeTimedOut, [Expired (CloseTimeout (buffer Z s))]) /\
    written Z (await Z 0 maxInts true s) = written Z s.
Proof.
  intros s.
  assert (Hr : reachable Z 0 maxInts s).
  { apply reachable_after;
      [vm_compute; reflexivity | vm_compute; discriminate | vm_compute; eauto]. }
  assert (Hg : exists w, goroutine Z s = Some w /\ at_point Z w = InWrite /\
                         isOpen Z w = false).
  { eexists. split; [vm_compute; reflexivity|]. split; vm_compute; reflexivity. }
  destruct Hg as (w & Hg & Hp & Ho).
  destruct (calls_during_the_final_flush Z 0 maxInts microsecond s w 2 true true Hr Hg Hp Ho)
    as (H1 & _ & H3 & H4 & _).
  split; [exact Hr|]. exists w.
  split; [exact Hg|]. split; [exact Hp|]. split; [exact Ho|].
  split; [exact H1|]. split; [exact H3 | exact H4].
Defined.

(** [Close] on a buffer of [Size] 2 after three items, with a flusher that
    returns in time. *)
Lemma close_delivers_everything_witness :
  let acts := [Recv (item 1); Recv (item 2); Returns; Recv (item 3)] in
  let s := after Z 0 maxInts acts capacity2 in
  let s' := (Close Z 0 maxInts microsecond true true s).1.1 in
  initialize Z 0 maxInts (fresh Z capacity2) = (started Z 0 maxInts capacity2, None) /\
  exec Z 0 maxInts acts (started Z 0 maxInts capacity2) = Some s /\
  Close Z 0 maxInts microsecond true true s = (s', Return None, [Handed Second; Handed Second]) /\
  flushed Z s' = [1; 2; 3] /\ pending Z s' = [] /\
  running (tickers Z s') = [] /\ dataCh (buffer Z s') = closedChan.
Proof.
  intros acts s s'.
  assert (Hi : initialize Z 0 maxInts (fresh Z capacity2) = (started Z 0 maxInts capacity2, None))
    by (vm_compute; reflexivity).
  assert (He : exec Z 0 maxInts acts (started Z 0 maxInts capacity2) = Some s)
    by (vm_compute; reflexivity).
  assert (HC : Close Z 0 maxInts microsecond true true s = (s', Return None, [Handed Second; Handed Second]))
    by (vm_compute; reflexivity).
  destruct (close_delivers_everything Z 0 maxInts microsecond capacity2 _ s s' acts true true _ Hi He HC)
    as (_ & H2 & H3 & _ & H5 & H6 & _).
  split; [exact Hi|]. split; [exact He|]. split; [exact HC|].
  split; [exact H2|]. split; [exact H3|]. split; [exact H5 | exact H6].
Defined.

(** Five items into a buffer of [Size] 2: two batches, one item left. *)
Lemma pushes_fill_whole_batches_witness :
  let r := pushes Z 0 maxInts microsecond true [1; 2; 3; 4; 5] (fresh Z capacity2) in
  IsIntialized capacity2 = false /\ validateBuffer capacity2 = None /\
  FlushInterval capacity2 = 0 /\
  Forall (fun o => o = Return None) r.2 /\
  written Z r.1 = [(0%nat, [1; 2]); (1%nat, [3; 4])] /\
  Forall (fun c : nat * list Z => length c.2 = N.to_nat (Size capacity2))
    (written Z r.1) /\
  flushed Z r.1 ++ pending Z r.1 = [1; 2; 3; 4; 5] /\
  length (written Z r.1) = (5 / 2)%nat /\
  length (pending Z r.1) = (5 mod 2)%nat.
Proof.
  intros r.
  assert (Hi : IsIntialized capacity2 = false) by (vm_compute; reflexivity).
  assert (Hv : validateBuffer capacity2 = None) by (vm_compute; reflexivity).
  assert (H0 : FlushInterval capacity2 = 0) by (vm_compute; reflexivity).
  assert (E : pushes Z 0 maxInts microsecond true [1; 2; 3; 4; 5] (fresh Z capacity2) =
              (r.1, r.2)) by (vm_compute; reflexivity).
  assert (Hall : Forall (fun o => o = Return None) r.2)
    by (vm_compute; repeat constructor).
  split; [exact Hi|]. split; [exact Hv|]. split; [exact H0|]. split; [exact Hall|].
  split; [vm_compute; reflexivity|].
  exact (proj1 (pushes_fill_whole_batches Z 0 maxInts microsecond capacity2
                  [1; 2; 3; 4; 5] Hi Hv H0) true r.1 r.2 E Hall).
Defined.

(** ** Timeouts of zero, and a size that [make] refuses *)

(** A push timeout of zero is valid, and the first [Push] can return
    [ErrTimeout] although the buffer is empty: the timer expires while the
    goroutine is on its way to the [select].  The goroutine gets there all
    the same, and nothing is pending. *)
Example first_Push_push_timeout_zero :
  let r := Push Z 0 maxInts microsecond false 1 (fresh Z capacity2_push0) in
  validateBuffer capacity2_push0 = None /\
  r.1.2 = timed_out "buffer is full" /\ r.2 = [Expired 0] /\
  r.1.1 = started Z 0 maxInts capacity2_push0 /\
  pending Z r.1.1 = [] /\ written Z r.1.1 = [].
Proof. vm_compute. split_and!; reflexivity. Qed.

(** A flush timeout of zero: with the goroutine at its [select] and one
    item pending, [Flush] returns [ErrTimeout] and nothing is flushed, or
    nil and the item is flushed, as the race goes. *)
Example Flush_flush_timeout_zero :
  let s := after Z 0 maxInts [Recv (item 1)] capacity2_flush0 in
  (Flush Z 0 maxInts microsecond false s).1.2 =
    timed_out "failed to flush buffer within flush timeout" /\
  (Flush Z 0 maxInts microsecond false s).1.1 = s /\
  (Flush Z 0 maxInts microsecond true s).1.2 = Return None /\
  written Z (Flush Z 0 maxInts microsecond true s).1.1 = [(0%nat, [1])].
Proof. vm_compute. split_and!; reflexivity. Qed.

(** A close timeout of zero, nothing pending: when the request is
    accepted the goroutine leaves, and [Close] returns [ErrTimeout] for
    its second timer; the next [Close] returns [ErrClosed], and [dataCh],
    [flushCh] and [closeCh] are never closed. *)
Example Close_close_timeout_zero :
  let r := Close Z 0 maxInts microsecond true false (started Z 0 maxInts capacity2_close0) in
  r.1.2 = closeTimedOut /\ r.2 = [Handed 0; Expired 0] /\
  closed (buffer Z r.1.1) = true /\
  dataCh (buffer Z r.1.1) = openChan /\
  Close Z 0 maxInts microsecond true true r.1.1 = (r.1.1, Return (Some ErrClosed), []).
Proof. vm_compute. split_and!; reflexivity. Qed.

(** A [Size] that [validateBuffer] accepts and [make] refuses: the
    goroutine dies in [make], and the first [Push] does not return. *)
Example first_Push_size_too_large :
  let b := New [WithSize (2 ^ 62); WithFlusher (Some sink)] in
  validateBuffer b = None /\
  (Push Z 0 maxInts microsecond true 1 (fresh Z b)).1.2 = Panics /\
  crashed Z (started Z 0 maxInts b) = true.
Proof. vm_compute. split_and!; reflexivity. Qed.
